(** * EUR-Lex trade scraper: keyword matcher, planner, de-duplication and
    crawl orchestration, embedded from [src/matcher.py] and [src/scraper.py],
    with the statistics, the filters and the CSV export of [src/scraper.py],
    the paging of [src/adapters/eurlex_web.py] and the clean-up command of
    [run_scraper.py].

    Scope of the embedding.
    - Text is a [string] of 8-bit characters read as ASCII code points; on
      that range [str.lower], [str.strip] and the regular-expression classes
      [\w], [\b], [\d] of Python are the ones defined in [Py] below.
      Characters above 127 are outside the embedding (it takes them for
      caseless characters that are neither word characters nor
      whitespace).
    - A document is a Python dict.  Its scalar entries hold a string or
      [None]; the three structured entries ([companies], [products],
      [match_details]) are kept apart with their own types.
    - Iteration over a keyword [set] follows an order Python leaves open; a
      keyword group is the list of its members in iteration order.
    - Exceptions are values ([Raise]); state (files, clock, log, gateway
      calls) is threaded explicitly and is never rolled back by a raise. *)

From Stdlib Require Import Ascii.
From stdpp Require Import gmap strings list sorting pretty.


(* ===================================================================== *)
(** ** Python primitives *)
(* ===================================================================== *)

Module Py.

Inductive exn_kind := TypeError | ValueError | OverflowError | IOError.

Record exn := Exn { exn_kind_of : exn_kind; exn_msg : string }.

Inductive result (A : Type) : Type :=
| Ok (a : A)
| Raise (e : exn).
Arguments Ok {A} a.
Arguments Raise {A} e.

Definition rbind {A B} (r : result A) (k : A -> result B) : result B :=
  match r with Ok a => k a | Raise e => Raise e end.

Definition is_ok {A} (r : result A) : bool :=
  match r with Ok _ => true | Raise _ => false end.

(** A scalar dict entry: JSON [null] / Python [None], or a string. *)
Inductive value := VNone | VStr (s : string).

(** Python truthiness of a scalar. *)
Definition truthy (v : value) : bool :=
  match v with
  | VNone => false
  | VStr EmptyString => false
  | VStr _ => true
  end.

(** *** Characters *)

Definition code (c : ascii) : nat := nat_of_ascii c.

Definition between (lo hi n : nat) : bool := (lo <=? n) && (n <=? hi).

Definition is_upper (c : ascii) : bool := between 65 90 (code c).
Definition is_digit (c : ascii) : bool := between 48 57 (code c).

(** [\w] on ASCII: letters, digits and the underscore. *)
Definition is_word (c : ascii) : bool :=
  between 65 90 (code c) || between 97 122 (code c)
  || between 48 57 (code c) || (code c =? 95).

(** [str.isspace] on ASCII: TAB..CR, FS..US and the blank. *)
Definition is_space (c : ascii) : bool :=
  between 9 13 (code c) || between 28 32 (code c).

Definition lower_char (c : ascii) : ascii :=
  if is_upper c then ascii_of_nat (code c + 32) else c.

(** *** Strings as character lists *)

Definition chars (s : string) : list ascii := String.list_ascii_of_string s.
Definition str (l : list ascii) : string := String.string_of_list_ascii l.

Definition lower (l : list ascii) : list ascii := map lower_char l.

Fixpoint lstrip (l : list ascii) : list ascii :=
  match l with
  | c :: l' => if is_space c then lstrip l' else l
  | [] => []
  end.

Definition rstrip (l : list ascii) : list ascii := rev (lstrip (rev l)).

Definition strip (l : list ascii) : list ascii := rstrip (lstrip l).

(** [needle in haystack] on strings. *)
Fixpoint starts_with (p l : list ascii) : bool :=
  match p, l with
  | [], _ => true
  | a :: p', b :: l' => Ascii.eqb a b && starts_with p' l'
  | _ :: _, [] => false
  end.

Fixpoint contains (needle hay : list ascii) : bool :=
  starts_with needle hay
  || match hay with
     | _ :: hay' => contains needle hay'
     | [] => false
     end.

(** [sep.join(parts)] *)
Fixpoint join (sep : list ascii) (parts : list (list ascii)) : list ascii :=
  match parts with
  | [] => []
  | [p] => p
  | p :: ps => p ++ sep ++ join sep ps
  end.

(** [s[lo:hi]] for non-negative bounds. *)
Definition slice (l : list ascii) (lo hi : nat) : list ascii :=
  take (hi - lo) (drop lo l).

(** *** The fragment of [re] used by the matcher

    A pattern is a sequence of atoms.  [Assert zs] is a zero-width group
    that holds when one of its alternatives does: [Bnd] is [\b] and
    [Behind w] is the look-behind [(?<=\bw)]. *)

Inductive assertion :=
| Bnd
| Behind (w : list ascii).

Inductive atom :=
| Lit (c : ascii)
| WordStar
| Assert (zs : list assertion).

Definition word_opt (o : option ascii) : bool :=
  match o with Some c => is_word c | None => false end.

(** [\b] between the text already passed (held reversed) and the rest. *)
Definition at_boundary (before_rev rest : list ascii) : bool :=
  xorb (word_opt (head before_rev)) (word_opt (head rest)).

Definition holds (before_rev rest : list ascii) (z : assertion) : bool :=
  match z with
  | Bnd => at_boundary before_rev rest
  | Behind w =>
      starts_with (rev w) before_rev
      && at_boundary (drop (length w) before_rev) w
  end.

(** Backtracking match of a pattern at one position: the number of
    characters consumed by the first match in the engine's order
    ([\w*] is greedy and gives characters back one at a time). *)
Fixpoint match_atoms (p : list atom)
  : list ascii -> list ascii -> option nat :=
  match p with
  | [] => fun _ _ => Some 0
  | Lit c :: p' => fun before_rev rest =>
      match rest with
      | x :: rest' =>
          if Ascii.eqb c x
          then S <$> match_atoms p' (x :: before_rev) rest'
          else None
      | [] => None
      end
  | Assert zs :: p' => fun before_rev rest =>
      if existsb (holds before_rev rest) zs
      then match_atoms p' before_rev rest
      else None
  | WordStar :: p' =>
      fix star (before_rev rest : list ascii) : option nat :=
        match rest with
        | x :: rest' =>
            if is_word x
            then match star (x :: before_rev) rest' with
                 | Some n => Some (S n)
                 | None => match_atoms p' before_rev rest
                 end
            else match_atoms p' before_rev rest
        | [] => match_atoms p' before_rev rest
        end
  end.

(** [re.search]: the leftmost position where the pattern matches, as the
    pair (start, end) of the match object. *)
Fixpoint search_from (p : list atom) (before_rev rest : list ascii)
  : option (nat * nat) :=
  match match_atoms p before_rev rest with
  | Some n => Some (length before_rev, length before_rev + n)
  | None =>
      match rest with
      | x :: rest' => search_from p (x :: before_rev) rest'
      | [] => None
      end
  end.

Definition re_search (p : list atom) (text : list ascii)
  : option (nat * nat) :=
  search_from p [] text.

(** [re.escape(s)] used as a pattern: every character is a literal. *)
Definition re_escape (s : list ascii) : list atom := map Lit s.

End Py.

Export Py.

(* ===================================================================== *)
(** ** Documents *)
(* ===================================================================== *)

(** [match_details], the dict built by [is_match]. *)
Record match_details := MatchDetails {
  measure_keywords : list string;
  product_keywords : list string;
  place_company_keywords : list string;
  groups_matched : nat;
  total_groups : nat;
  matched_text_snippets : list string;
  match_score : nat
}.

(** A raw record or a stored document. *)
Record document := Doc {
  fields : gmap string value;
  companies : option (list string);
  products : option (list string);
  match_details_of : option match_details
}.

(** [doc.get(key, dflt)] and [doc.get(key)] on the scalar entries. *)
Definition get_or (doc : document) (key : string) (dflt : value) : value :=
  default dflt (fields doc !! key).

Definition get (doc : document) (key : string) : value :=
  get_or doc key VNone.

(** [doc[key] = v] *)
Definition set_field (key : string) (v : value) (doc : document) : document :=
  Doc (<[key := v]> (fields doc)) (companies doc) (products doc)
      (match_details_of doc).

Definition set_companies (l : list string) (doc : document) : document :=
  Doc (fields doc) (Some l) (products doc) (match_details_of doc).

Definition set_products (l : list string) (doc : document) : document :=
  Doc (fields doc) (companies doc) (Some l) (match_details_of doc).

Definition set_match_details (m : match_details) (doc : document) : document :=
  Doc (fields doc) (companies doc) (products doc) (Some m).

(** A dict literal of scalar entries. *)
Definition record_of (entries : list (string * value)) : document :=
  Doc (list_to_map entries) None None None.

(* ===================================================================== *)
(** ** [matcher.py]: EURLexTradeDocumentMatcher *)
(* ===================================================================== *)

Module Matcher.

(** The instance attributes set by [__init__]: [self.measure_keywords],
    [self.product_keywords] and [self.place_company_keywords] (these names
    go to the entries of [match_details]). *)
Record matcher := {
  measure_group : list string;
  product_group : list string;
  place_company_group : list string
}.

(** The groups of [__init__], in the order of the source text. *)
Definition configured : matcher := {|
  measure_group :=
    ["antidumping"; "anti-dumping"; "countervailing duty"; "CVD";
     "anti-subsidy"; "safeguard"; "regulation"; "decision"; "review";
     "sunset review"; "circumvention"; "antitrust"; "sanctions";
     "trade defence"; "trade defense"; "dumping"; "subsidy"];
  product_group :=
    ["phosphate"; "phosphate rock"; "phosphoric acid"; "fertilizer";
     "fertiliser"; "DAP"; "MAP"; "TSP"; "SSP"; "diammonium phosphate";
     "monoammonium phosphate"; "triple superphosphate";
     "single superphosphate"; "HS25"; "HS31"; "3103"; "3105";
     "mineral fertilizer"; "chemical fertilizer"];
  place_company_group :=
    ["Morocco"; "OCP"; "Mosaic"; "Nutrien"; "Yara"; "ICL"; "Maaden";
     "Eurochem"; "Phosagro"; "CF Industries"; "CFIndustries";
     "Jordan Phosphate"; "JPMC"; "Moroccan"; "Israel Chemicals";
     "PhosAgro"; "EuroChem"; "Nutrien Ltd"; "The Mosaic Company"]
|}.

(** [_normalize_text] *)
Definition normalize_text (text : list ascii) : list ascii :=
  match text with
  | [] => []
  | _ => strip (lower text)
  end.

Definition star : ascii := "*"%char.

Definition has_wildcard (kw : list ascii) : bool :=
  existsb (Ascii.eqb star) kw.

(** [r'(?:\b|(?<=\bin)|(?<=\bfrom)|(?<=\bto)|(?<=\bof))'] *)
Definition keyword_start : atom :=
  Assert [Bnd; Behind (chars "in"); Behind (chars "from");
          Behind (chars "to"); Behind (chars "of")].

(** The pattern of the exact branch: start group, escaped keyword, [\b]. *)
Definition keyword_pattern (kw : list ascii) : list atom :=
  keyword_start :: re_escape kw ++ [Assert [Bnd]].

(** [normalized_keyword.replace('*', r'\w*')], read as a pattern.  The
    keyword is not escaped in the source; this reading is the engine's
    for every keyword whose other characters are not special in [re]
    (see [plain_keyword]). *)
Definition wildcard_atoms (kw : list ascii) : list atom :=
  map (fun c => if Ascii.eqb star c then WordStar else Lit c) kw.

Definition wildcard_pattern (kw : list ascii) : list atom :=
  Assert [Bnd] :: wildcard_atoms kw ++ [Assert [Bnd]].

(** Characters that [re] reads as operators. *)
Definition regex_meta (c : ascii) : bool :=
  existsb (Ascii.eqb c) (chars ".^$+?{}[]\|()").

Definition plain_keyword (kw : string) : bool :=
  forallb (fun c => negb (regex_meta c)) (chars kw).

Definition keyword_found (normalized_text : list ascii) (keyword : string)
  : bool :=
  let normalized_keyword := normalize_text (chars keyword) in
  if has_wildcard normalized_keyword
  then bool_decide
         (is_Some (re_search (wildcard_pattern normalized_keyword)
                             normalized_text))
  else bool_decide
         (is_Some (re_search (keyword_pattern normalized_keyword)
                             normalized_text)).

(** [_find_keyword_matches] *)
Definition find_keyword_matches (text : list ascii) (keywords : list string)
  : list string :=
  match text with
  | [] => []
  | _ =>
      let normalized_text := normalize_text text in
      List.filter (keyword_found normalized_text) keywords
  end.

(** The position of a matched keyword, as [_extract_matching_snippets]
    looks it up. *)
Definition snippet_match (normalized_text : list ascii) (keyword : string)
  : option (nat * nat) :=
  let normalized_keyword := normalize_text (chars keyword) in
  if has_wildcard normalized_keyword
  then re_search (wildcard_pattern normalized_keyword) normalized_text
  else re_search (re_escape normalized_keyword) normalized_text.

Definition ellipsis : list ascii := chars "...".

(** [_extract_matching_snippets] *)
Definition extract_matching_snippets
    (text : list ascii) (matched_keywords : list string) : list string :=
  match text, matched_keywords with
  | [], _ | _, [] => []
  | _, _ =>
      let normalized_text := normalize_text text in
      flat_map
        (fun keyword =>
           match snippet_match normalized_text keyword with
           | Some (m_start, m_end) =>
               let start := m_start - 50 in
               let stop := Nat.min (length text) (m_end + 50) in
               let snippet := strip (slice text start stop) in
               match snippet with
               | [] => []
               | _ => [str (ellipsis ++ snippet ++ ellipsis)]
               end
           | None => []
           end)
        matched_keywords
  end.

(** One operand of [" ".join([...])]: only [str] items are accepted. *)
Definition join_item (i : string) (v : value) : result (list ascii) :=
  match v with
  | VStr s => Ok (chars s)
  | VNone =>
      Raise (Exn TypeError
               ("sequence item " +:+ i
                +:+ ": expected str instance, NoneType found"))
  end.

(** [" ".join([document.get(k, '') for the listed keys])] *)
Fixpoint join_items (i : nat) (vs : list value)
  : result (list (list ascii)) :=
  match vs with
  | [] => Ok []
  | v :: vs' =>
      rbind (join_item (str [ascii_of_nat (48 + i)]) v) (fun s =>
      rbind (join_items (S i) vs') (fun ss => Ok (s :: ss)))
  end.

Definition joined_text (doc : document) (keys : list string)
  : result (list ascii) :=
  rbind (join_items 0 (map (fun k => get_or doc k (VStr "")) keys))
        (fun parts => Ok (join (chars " ") parts)).

Definition searchable_keys : list string := ["TI"; "TX"; "SU"; "AU"; "TE"].

Definition nonempty {A} (l : list A) : bool :=
  match l with [] => false | _ => true end.

Definition count_true (bs : list bool) : nat :=
  length (List.filter (fun b => b) bs).

(** [is_match] *)
Definition is_match (self : matcher) (doc : document)
  : result (bool * match_details) :=
  rbind (joined_text doc searchable_keys) (fun searchable_text =>
    let measure_matches :=
      find_keyword_matches searchable_text (measure_group self) in
    let product_matches :=
      find_keyword_matches searchable_text (product_group self) in
    let place_company_matches :=
      find_keyword_matches searchable_text (place_company_group self) in
    let matched :=
      nonempty place_company_matches
      && (nonempty measure_matches || nonempty product_matches) in
    let groups_with_matches :=
      count_true [nonempty measure_matches; nonempty product_matches;
                  nonempty place_company_matches] in
    let all_matched_keywords :=
      measure_matches ++ product_matches ++ place_company_matches in
    let snippets :=
      extract_matching_snippets searchable_text all_matched_keywords in
    Ok (matched,
        {| measure_keywords := measure_matches;
           product_keywords := product_matches;
           place_company_keywords := place_company_matches;
           groups_matched := groups_with_matches;
           total_groups := 3;
           matched_text_snippets := take 3 snippets;
           match_score := length all_matched_keywords |})).

(** [filter_documents] *)
Fixpoint filter_documents (self : matcher) (documents : list document)
  : result (list document) :=
  match documents with
  | [] => Ok []
  | doc :: rest =>
      rbind (is_match self doc) (fun '(matched, details) =>
      rbind (filter_documents self rest) (fun matched_rest =>
        if matched
        then
          let doc := set_match_details details doc in
          let doc :=
            set_field "scraped_at" (get_or doc "scraped_at" VNone) doc in
          Ok (doc :: matched_rest)
        else Ok matched_rest))
  end.

Definition mentions (text : list ascii) (keyword : string) : bool :=
  contains (normalize_text (chars keyword)) (normalize_text text).

Definition is_country (keyword : string) : bool :=
  bool_decide (keyword = "Morocco") || bool_decide (keyword = "Moroccan").

(** [extract_entities].  The source returns [list(set(companies))] and
    [list(set(products))], whose order is that of a newly built set: the
    lists below hold the same members, and their order carries no
    meaning. *)
Definition extract_entities (self : matcher) (doc : document)
  : result (list string * list string) :=
  rbind (joined_text doc ["TI"; "TX"; "SU"]) (fun text =>
    let found_companies :=
      List.filter
        (fun keyword => negb (is_country keyword) && mentions text keyword)
        (place_company_group self) in
    let found_products :=
      List.filter (mentions text) (product_group self) in
    Ok (found_companies, found_products)).

End Matcher.

(* ===================================================================== *)
(** ** [datetime.date] as used by the planner *)
(* ===================================================================== *)

Module Dates.

Local Open Scope Z_scope.

Record date := Date { year : Z; month : Z; day : Z }.

Definition within (lo hi n : Z) : bool := (lo <=? n) && (n <=? hi).

Definition is_leap (y : Z) : bool :=
  (y mod 4 =? 0) && (negb (y mod 100 =? 0) || (y mod 400 =? 0)).

Definition days_in_month (y m : Z) : Z :=
  match m with
  | 2 => if is_leap y then 29 else 28
  | 4 | 6 | 9 | 11 => 30
  | _ => 31
  end.

(** The range check of the [date] constructor (MINYEAR = 1,
    MAXYEAR = 9999). *)
Definition valid_date (y m d : Z) : bool :=
  within 1 9999 y && within 1 12 m && within 1 (days_in_month y m) d.

Definition digit (c : ascii) : option Z :=
  if is_digit c then Some (Z.of_nat (code c) - 48) else None.

Definition dash : ascii := "-"%char.
Definition blank : ascii := " "%char.

(** [%m] followed by the literal dash: [1[0-2]|0[1-9]|[1-9]]. *)
Definition parse_month (s : list ascii) : option (Z * list ascii) :=
  match s with
  | a :: b :: rest =>
      if Ascii.eqb b dash
      then
        match digit a with
        | Some m => if within 1 9 m then Some (m, rest) else None
        | None => None
        end
      else
        match digit a, digit b, rest with
        | Some m1, Some m2, c :: rest' =>
            if Ascii.eqb c dash
               && ((m1 =? 1) && within 0 2 m2 || (m1 =? 0) && within 1 9 m2)
            then Some (10 * m1 + m2, rest')
            else None
        | _, _, _ => None
        end
  | _ => None
  end.

(** [%d] up to the end of the input:
    [3[0-1]|[1-2]\d|0[1-9]|[1-9]| [1-9]]. *)
Definition parse_day (s : list ascii) : option Z :=
  match s with
  | [a] =>
      match digit a with
      | Some d => if within 1 9 d then Some d else None
      | None => None
      end
  | [a; b] =>
      match digit b with
      | Some d2 =>
          if Ascii.eqb a blank
          then if within 1 9 d2 then Some d2 else None
          else
            match digit a with
            | Some d1 =>
                if (d1 =? 3) && within 0 1 d2 || within 1 2 d1
                   || (d1 =? 0) && within 1 9 d2
                then Some (10 * d1 + d2)
                else None
            | None => None
            end
      | None => None
      end
  | _ => None
  end.

(** [datetime.strptime(s, "%Y-%m-%d").date()]; [None] is [ValueError]. *)
Definition strptime (s : string) : option date :=
  match chars s with
  | y1 :: y2 :: y3 :: y4 :: c :: rest =>
      match digit y1, digit y2, digit y3, digit y4 with
      | Some a, Some b, Some c', Some d =>
          if Ascii.eqb c dash
          then
            match parse_month rest with
            | Some (m, rest') =>
                match parse_day rest' with
                | Some dd =>
                    let y := 1000 * a + 100 * b + 10 * c' + d in
                    if valid_date y m dd then Some (Date y m dd) else None
                | None => None
                end
            | None => None
            end
          else None
      | _, _, _, _ => None
      end
  | _ => None
  end.

(** [d + timedelta(days=1)] *)
Definition add_one_day (d : date) : result date :=
  if day d <? days_in_month (year d) (month d)
  then Ok (Date (year d) (month d) (day d + 1))
  else if month d <? 12
  then Ok (Date (year d) (month d + 1) 1)
  else if year d <? 9999
  then Ok (Date (year d + 1) 1 1)
  else Raise (Exn OverflowError "date value out of range").

(** [a > b] on dates. *)
Definition date_gt (a b : date) : bool :=
  (year b <? year a)
  || (year a =? year b)
     && ((month b <? month a)
         || (month a =? month b) && (day b <? day a)).

Definition digit_char (n : Z) : ascii :=
  ascii_of_nat (48 + Z.to_nat (n mod 10)).

(** [d.isoformat()]; [d.strftime('%Y-%m-%d')] prints the same text for
    years from 1000 on. *)
Definition isoformat (d : date) : string :=
  str [digit_char (year d / 1000); digit_char (year d / 100);
       digit_char (year d / 10); digit_char (year d); dash;
       digit_char (month d / 10); digit_char (month d); dash;
       digit_char (day d / 10); digit_char (day d)].

(** [date(2024, 1, 1)], the start of the first crawl. *)
Definition epoch_start : date := Date 2024 1 1.

End Dates.

Export Dates.

(* ===================================================================== *)
(** ** [scraper.py]: EURLexTradeScraper *)
(* ===================================================================== *)

Module Scraper.

(** *** The store, the clock and the gateway *)

(** A JSON file of the data directory as the loaders see it:
    [Unreadable] is a file that exists and whose [open]/[json.load]
    raises. *)
Inductive file (A : Type) : Type :=
| Missing
| Stored (content : A)
| Unreadable.
Arguments Missing {A}.
Arguments Stored {A} content.
Arguments Unreadable {A}.

(** The dict kept in [state.json]. *)
Record crawl_state := CrawlState {
  last_checked_date : value;
  last_run : value;
  total_documents : nat
}.

Inductive level := WARNING | ERROR.

(** A call of [_save_results] or of [_save_state]. *)
Inductive store_request :=
| SaveResults (results : list document)
| SaveState (state : crawl_state).

(** What a run can change.  [log] keeps the records of level WARNING and
    above, latest first; [gateway_calls] the searches sent and
    [store_requests] the saves called, latest first; [ticks] counts the
    readings of [datetime.now()].
    [results_writable] and [state_writable] say whether [open(file, 'w')]
    succeeds and the dump completes.  The failed write of the embedding is
    the one [open] refuses, which leaves the file as it was; a write that
    fails after [open] has emptied the file is outside the embedding, and
    no statement below says what a file holds after a failed write of the
    code. *)
Record world := World {
  results_file : file (list document);
  state_file : file crawl_state;
  results_writable : bool;
  state_writable : bool;
  ticks : nat;
  gateway_calls : list (date * date * nat);
  store_requests : list store_request;
  log : list (level * string)
}.

(** What a run only reads: the calendar day, the text of the k-th
    [datetime.now().isoformat()], and the answer of
    [web_client.search_trade_regulations]. *)
Record env := Env {
  today : date;
  clock : nat -> string;
  gateway : date -> date -> nat -> result (list document)
}.

Definition with_results (f : file (list document)) (w : world) : world :=
  World f (state_file w) (results_writable w) (state_writable w)
        (ticks w) (gateway_calls w) (store_requests w) (log w).

Definition with_state (f : file crawl_state) (w : world) : world :=
  World (results_file w) f (results_writable w) (state_writable w)
        (ticks w) (gateway_calls w) (store_requests w) (log w).

Definition tick (w : world) : world :=
  World (results_file w) (state_file w) (results_writable w)
        (state_writable w) (S (ticks w)) (gateway_calls w) (store_requests w)
        (log w).

Definition record_call (c : date * date * nat) (w : world) : world :=
  World (results_file w) (state_file w) (results_writable w)
        (state_writable w) (ticks w) (c :: gateway_calls w) (store_requests w)
        (log w).

Definition logger (l : level) (msg : string) (w : world) : world :=
  World (results_file w) (state_file w) (results_writable w)
        (state_writable w) (ticks w) (gateway_calls w) (store_requests w)
        ((l, msg) :: log w).

Definition record_request (r : store_request) (w : world) : world :=
  World (results_file w) (state_file w) (results_writable w)
        (state_writable w) (ticks w) (gateway_calls w) (r :: store_requests w)
        (log w).

(** Computations of a run: a result or an exception, and the world as the
    computation left it. *)
Definition M (A : Type) : Type := world -> result A * world.

Definition ret {A} (a : A) : M A := fun w => (Ok a, w).

Definition raise {A} (e : exn) : M A := fun w => (Raise e, w).

Definition bind {A B} (m : M A) (k : A -> M B) : M B :=
  fun w =>
    match m w with
    | (Ok a, w') => k a w'
    | (Raise e, w') => (Raise e, w')
    end.

Definition lift {A} (r : result A) : M A := fun w => (r, w).

Definition effect (f : world -> world) : M unit := fun w => (Ok tt, f w).

Notation "'do' x <- m ; k" := (bind m (fun x => k))
  (at level 10, x pattern, m at level 100, k at level 200).
Notation "'perform' m ; k" := (bind m (fun _ => k))
  (at level 10, m at level 100, k at level 200).

(** [datetime.now().isoformat()] *)
Definition now (e : env) : M string :=
  fun w => (Ok (clock e (ticks w)), tick w).

(** What [open] or [json] raise on a file that cannot be read or written;
    one text stands for whatever the platform says. *)
Definition read_error : exn := Exn IOError "cannot read file".
Definition write_error : exn := Exn IOError "cannot write file".

(** [_load_results] *)
Definition load_results : M (list document) :=
  fun w =>
    match results_file w with
    | Stored results => (Ok results, w)
    | Missing => (Ok [], w)
    | Unreadable =>
        (Ok [],
         logger ERROR ("Error loading results: " +:+ exn_msg read_error) w)
    end.

(** [_save_results] *)
Definition save_results (results : list document) : M unit :=
  fun w =>
    let w := record_request (SaveResults results) w in
    if results_writable w
    then (Ok tt, with_results (Stored results) w)
    else (Ok tt,
          logger ERROR ("Error saving results: " +:+ exn_msg write_error) w).

(** The dict [{}] that [_load_state] falls back to answers [None] to every
    [get]. *)
Definition empty_state : crawl_state := CrawlState VNone VNone 0.

(** [_load_state] *)
Definition load_state : M crawl_state :=
  fun w =>
    match state_file w with
    | Stored state => (Ok state, w)
    | Missing => (Ok empty_state, w)
    | Unreadable =>
        (Ok empty_state,
         logger ERROR ("Error loading state: " +:+ exn_msg read_error) w)
    end.

(** [_save_state] *)
Definition save_state (state : crawl_state) : M unit :=
  fun w =>
    let w := record_request (SaveState state) w in
    if state_writable w
    then (Ok tt, with_state (Stored state) w)
    else (Ok tt,
          logger ERROR ("Error saving state: " +:+ exn_msg write_error) w).

(** [_initialize_data_files], on a data directory whose entries can be
    examined: the two calls of [Path.exists()] return.  (They stand
    outside any [try]; on a directory that cannot be searched they raise,
    which the embedding leaves out.) *)
Definition initialize_data_files : M unit :=
  do results <- (fun w => (Ok (results_file w), w));
  perform (match results with
       | Missing => save_results []
       | _ => ret tt
       end);
  do state <- (fun w => (Ok (state_file w), w));
  match state with
  | Missing =>
      save_state {| last_checked_date := VNone;
                    last_run := VNone;
                    total_documents := 0 |}
  | _ => ret tt
  end.

(** *** Planning *)

(** [_get_date_range], for a state whose [last_checked_date] is [None] or
    a string, as every state the program writes is.  (Only [ValueError] is
    caught: another JSON value there is outside the embedding.) *)
Definition get_date_range (e : env) : M (date * date) :=
  do state <- load_state;
  let today := today e in
  do from_date <-
    (match last_checked_date state with
     | VStr (String _ _ as text) =>
         match strptime text with
         | Some last_date => lift (add_one_day last_date)
         | None =>
             perform effect (logger WARNING
                   "Invalid last_checked_date in state, starting from 2024");
             ret (Date 2024%Z 1%Z 1%Z)
         end
     | _ => ret (Date 2024%Z 1%Z 1%Z)
     end);
  ret (from_date, today).

(** *** De-duplication *)

(** [v in s] for a set that holds non-empty strings only. *)
Definition member (v : value) (s : gset string) : bool :=
  match v with
  | VStr x => bool_decide (x ∈ s)
  | VNone => false
  end.

(** [if v: s.add(v)] *)
Definition add_if (v : value) (s : gset string) : gset string :=
  match v with
  | VStr x => if truthy v then {[x]} ∪ s else s
  | VNone => s
  end.

(** [{doc.get(key) for doc in docs if doc.get(key)}] *)
Definition key_set (key : string) (docs : list document) : gset string :=
  foldr (fun doc s => add_if (get doc key) s) ∅ docs.

Fixpoint dedup_loop (existing_dns existing_titles : gset string)
    (new : list document) : list document :=
  match new with
  | [] => []
  | doc :: rest =>
      let doc_number := get doc "DN" in
      let title := get doc "TI" in
      if truthy doc_number && member doc_number existing_dns
      then dedup_loop existing_dns existing_titles rest
      else if negb (truthy doc_number) && truthy title
              && member title existing_titles
      then dedup_loop existing_dns existing_titles rest
      else doc :: dedup_loop (add_if doc_number existing_dns)
                             (add_if title existing_titles) rest
  end.

(** [_deduplicate_documents] *)
Definition deduplicate_documents (existing new : list document)
  : list document :=
  dedup_loop (key_set "DN" existing) (key_set "TI" existing) new.

Fixpoint clean_loop (seen_dns seen_titles : gset string)
    (documents : list document) : list document :=
  match documents with
  | [] => []
  | doc :: rest =>
      let doc_number := get doc "DN" in
      let title := get doc "TI" in
      if truthy doc_number
      then
        if member doc_number seen_dns
        then clean_loop seen_dns seen_titles rest
        else doc :: clean_loop (add_if doc_number seen_dns) seen_titles rest
      else if truthy title
      then
        if member title seen_titles
        then clean_loop seen_dns seen_titles rest
        else doc :: clean_loop seen_dns (add_if title seen_titles) rest
      else doc :: clean_loop seen_dns seen_titles rest
  end.

(** [_clean_existing_duplicates] *)
Definition clean_existing_duplicates (documents : list document)
  : list document :=
  match documents with
  | [] => documents
  | _ => clean_loop ∅ ∅ documents
  end.

(** *** Enrichment *)

Definition eurlex_url (dn : value) : value :=
  match dn with
  | VStr s =>
      VStr ("https://eur-lex.europa.eu/legal-content/EN/TXT/?uri=CELEX:" +:+ s)
  | VNone => VNone
  end.

(** The body of the loop of [_enrich_documents]. *)
Definition enrich_document (e : env) (self : Matcher.matcher)
    (doc : document) : M document :=
  do stamp <- now e;
  let doc := set_field "scraped_at" (VStr stamp) doc in
  do entities <- lift (Matcher.extract_entities self doc);
  let doc := set_companies (fst entities) doc in
  let doc := set_products (snd entities) doc in
  let doc := set_field "document_number" (get_or doc "DN" (VStr "")) doc in
  let doc := set_field "title" (get_or doc "TI" (VStr "")) doc in
  let doc := set_field "publication_date" (get_or doc "DD" (VStr "")) doc in
  let doc := set_field "author" (get_or doc "AU" (VStr "")) doc in
  let doc := set_field "form" (get_or doc "FM" (VStr "")) doc in
  let doc := set_field "subject" (get_or doc "SU" (VStr "")) doc in
  let doc := set_field "text" (get_or doc "TX" (VStr "")) doc in
  let doc := set_field "text_excerpt" (get_or doc "TE" (VStr "")) doc in
  let doc := set_field "official_journal" (get_or doc "OJ" (VStr "")) doc in
  let doc :=
    if truthy (get doc "DN")
    then set_field "eurlex_url" (eurlex_url (get doc "DN")) doc
    else doc in
  ret doc.

(** [_enrich_documents] *)
Fixpoint enrich_documents (e : env) (self : Matcher.matcher)
    (documents : list document) : M (list document) :=
  match documents with
  | [] => ret []
  | doc :: rest =>
      do doc' <- enrich_document e self doc;
      do rest' <- enrich_documents e self rest;
      ret (doc' :: rest')
  end.

(** *** Ordering of the corpus *)

(** [x.get('publication_date', '')] *)
Definition sort_key (doc : document) : value :=
  get_or doc "publication_date" (VStr "").

Definition key_text (doc : document) : string :=
  match sort_key doc with VStr s => s | VNone => "" end.

Definition is_str (v : value) : bool :=
  match v with VStr _ => true | VNone => false end.

(** Stable insertion for a descending order: [doc] was ahead of all of
    [sorted] in the input and stays ahead of the keys equal to its own. *)
Fixpoint insert_newest_first (doc : document) (sorted : list document)
  : list document :=
  match sorted with
  | [] => [doc]
  | other :: rest =>
      if String.ltb (key_text doc) (key_text other)
      then other :: insert_newest_first doc rest
      else doc :: sorted
  end.

Definition stable_sort_newest_first (docs : list document) : list document :=
  foldr insert_newest_first [] docs.

(** [all_results.sort(key=lambda x: x.get('publication_date', ''),
    reverse=True)]: with two documents or more every key is compared,
    and [None] cannot be compared. *)
Definition sort_newest_first (docs : list document)
  : result (list document) :=
  if (length docs <? 2) || forallb (fun d => is_str (sort_key d)) docs
  then Ok (stable_sort_newest_first docs)
  else Raise (Exn TypeError
                "'<' not supported between instances of 'NoneType' and 'str'").

(** *** The run *)

Inductive status := success | up_to_date | error.

(** The dict returned by [scrape] ([duration_seconds], a wall-clock
    float, is left out). *)
Record report := Report {
  status_of : status;
  message : string;
  from_date : option string;
  to_date : option string;
  reported_last_checked_date : option string;
  new_documents : option nat;
  reported_total_documents : option nat;
  raw_documents_fetched : option nat;
  matched_documents : option nat;
  error_text : option string
}.

(** [web_client.search_trade_regulations(date_from, date_to, max_pages)] *)
Definition search_trade_regulations (e : env)
    (date_from date_to : date) (max_pages : nat) : M (list document) :=
  fun w =>
    (gateway e date_from date_to max_pages,
     record_call (date_from, date_to, max_pages) w).

(** The first statement of the [try] block: "Determine date range". *)
Definition plan_window (e : env)
    (force_full_2024 force_current_year : bool) : M (date * date) :=
  if force_current_year
  then ret (Date (year (today e)) 1%Z 1%Z, today e)
  else if force_full_2024
  then ret (Date 2024%Z 1%Z 1%Z, today e)
  else get_date_range e.

(** The [try] block of [scrape]. *)
Definition scrape_body (e : env) (self : Matcher.matcher)
    (force_full_2024 force_current_year : bool) : M report :=
  do window <- plan_window e force_full_2024 force_current_year;
  let '(from_date, to_date) := window in
  if date_gt from_date to_date
  then
    do existing_results <- load_results;
    do stamp <- now e;
    perform save_state
      {| last_checked_date := VStr (isoformat to_date);
         last_run := VStr stamp;
         total_documents := length existing_results |};
    ret {| status_of := up_to_date;
           message := "Already up to date! No new dates to scrape.";
           from_date := Some (isoformat from_date);
           to_date := Some (isoformat to_date);
           reported_last_checked_date := Some (isoformat to_date);
           new_documents := Some 0;
           reported_total_documents := Some (length existing_results);
           raw_documents_fetched := None;
           matched_documents := None;
           error_text := None |}
  else
    do raw_documents <- search_trade_regulations e from_date to_date 10;
    do matched <- lift (Matcher.filter_documents self raw_documents);
    do enriched_documents <- enrich_documents e self matched;
    do loaded <- load_results;
    let existing_results := clean_existing_duplicates loaded in
    let unique_new :=
      deduplicate_documents existing_results enriched_documents in
    do all_results <-
      (match unique_new with
       | _ :: _ =>
           do sorted <-
             lift (sort_newest_first (existing_results ++ unique_new));
           perform save_results sorted;
           ret sorted
       | [] => ret existing_results
       end);
    let latest_date := isoformat to_date in
    do stamp <- now e;
    perform save_state
      {| last_checked_date := VStr latest_date;
         last_run := VStr stamp;
         total_documents := length all_results |};
    do finished <- now e;
    ret {| status_of := success;
           message := "Successfully scraped " +:+ pretty (length unique_new)
                      +:+ " new documents";
           from_date := Some (isoformat from_date);
           to_date := Some (isoformat to_date);
           reported_last_checked_date := Some latest_date;
           new_documents := Some (length unique_new);
           reported_total_documents := Some (length all_results);
           raw_documents_fetched := Some (length raw_documents);
           matched_documents := Some (length matched);
           error_text := None |}.

(** [scrape]: the body under [try], and the handler of
    [except Exception]. *)
Definition scrape (e : env) (self : Matcher.matcher)
    (force_full_2024 force_current_year : bool) (w : world)
  : report * world :=
  let w := tick w in
  match scrape_body e self force_full_2024 force_current_year w with
  | (Ok r, w') => (r, w')
  | (Raise x, w') =>
      ({| status_of := error;
          message := "Scraping failed: " +:+ exn_msg x;
          from_date := None;
          to_date := None;
          reported_last_checked_date := None;
          new_documents := None;
          reported_total_documents := None;
          raw_documents_fetched := None;
          matched_documents := None;
          error_text := Some (exn_msg x) |},
       tick (logger ERROR ("Error during scraping: " +:+ exn_msg x) w'))
  end.

End Scraper.

(* ===================================================================== *)
(** ** Vocabulary of the statements *)
(* ===================================================================== *)

Module Spec.

Import Matcher Scraper.

(** *** Occurrences of a keyword in a text *)

(** A word boundary between the text [left] and the text [right]:
    exactly one of the two characters that meet is a word character. *)
Definition word_edge (left right : list ascii) : Prop :=
  word_opt (last left) <> word_opt (head right).

(** The four glued prefixes the exact branch accepts. *)
Definition glue_words : list (list ascii) :=
  [chars "in"; chars "from"; chars "to"; chars "of"].

(** [left] ends with the word [w], which itself starts at a word
    boundary. *)
Definition ends_with_glue (w left : list ascii) : Prop :=
  exists before, left = before ++ w /\ word_edge before w.

(** Where the exact branch lets a keyword start. *)
Definition keyword_start_ok (left right : list ascii) : Prop :=
  word_edge left right
  \/ exists w, w ∈ glue_words /\ ends_with_glue w left.

(** The keyword stands in the text between two word boundaries. *)
Definition bounded_occurrence (kw text : list ascii) : Prop :=
  exists pre post,
    text = pre ++ kw ++ post
    /\ word_edge pre (kw ++ post)
    /\ word_edge (pre ++ kw) post.

(** The keyword stands in the text, ends at a word boundary and starts
    at one or right after a glued "in", "from", "to" or "of". *)
Definition keyword_occurrence (kw text : list ascii) : Prop :=
  exists pre post,
    text = pre ++ kw ++ post
    /\ keyword_start_ok pre (kw ++ post)
    /\ word_edge (pre ++ kw) post.

(** [expansion kw s]: [s] is [kw] with every wildcard marker replaced by
    a run of word characters, possibly empty. *)
Inductive expansion : list ascii -> list ascii -> Prop :=
| expansion_nil : expansion [] []
| expansion_lit c kw s :
    c <> star -> expansion kw s -> expansion (c :: kw) (c :: s)
| expansion_star kw run s :
    forallb is_word run = true ->
    expansion kw s -> expansion (star :: kw) (run ++ s).

(** An expansion of the keyword stands in the text between two word
    boundaries. *)
Definition wildcard_occurrence (kw text : list ascii) : Prop :=
  exists pre mid post,
    text = pre ++ mid ++ post
    /\ expansion kw mid
    /\ word_edge pre (mid ++ post)
    /\ word_edge (pre ++ mid) post.

(** A token of the text begins with [stem]: the stem and a run of word
    characters stand between two word boundaries. *)
Definition token_with_stem (stem text : list ascii) : Prop :=
  exists pre tail post,
    text = pre ++ stem ++ tail ++ post
    /\ forallb is_word tail = true
    /\ word_edge pre (stem ++ tail ++ post)
    /\ word_edge (pre ++ stem ++ tail) post.

(** The wildcard branch reads the keyword as a pattern; the embedding
    follows the engine when no other operator occurs in it. *)
Definition supported_keyword (keyword : string) : bool :=
  negb (has_wildcard (normalize_text (chars keyword)))
  || plain_keyword keyword.

(** Every character is an ASCII character: the range on which [Py] reads
    [str.lower], [str.strip], [\w], [\b] and [\d] as Python does. *)
Definition ascii_only (text : list ascii) : bool :=
  forallb (fun c => code c <? 128) text.

(** A keyword group on which the embedding is the code: its keywords are
    ASCII, and those with a wildcard marker hold no other operator of
    [re] (the loop of the source hands them to [re] unescaped, where an
    operator changes what is matched or makes the search raise). *)
Definition supported_group (keywords : list string) : bool :=
  forallb (fun k => ascii_only (chars k) && supported_keyword k) keywords.

(** The exact branch as the specification words it: a keyword is
    reported when it stands between two word boundaries. *)
Definition reports_by_boundaries
    (text : list ascii) (keywords : list string) (keyword : string) : Prop :=
  keyword ∈ find_keyword_matches text keywords
  <-> keyword ∈ keywords
      /\ bounded_occurrence (normalize_text (chars keyword))
                            (normalize_text text).

(** *** Matches of a pattern

    [accepts p before_rev rest n]: the pattern [p] matches the first [n]
    characters of [rest], with [before_rev] the text before them, held
    reversed.  This is the set of all matches, whatever the order in
    which the engine tries them. *)
Inductive accepts : list atom -> list ascii -> list ascii -> nat -> Prop :=
| accepts_nil b r : accepts [] b r 0
| accepts_lit c p b r n :
    accepts p (c :: b) r n -> accepts (Lit c :: p) b (c :: r) (S n)
| accepts_assert zs p b r n :
    existsb (holds b r) zs = true ->
    accepts p b r n -> accepts (Assert zs :: p) b r n
| accepts_star_stop p b r n :
    accepts p b r n -> accepts (WordStar :: p) b r n
| accepts_star_step x p b r n :
    is_word x = true ->
    accepts (WordStar :: p) (x :: b) r n ->
    accepts (WordStar :: p) b (x :: r) (S n).

(** *** Identity of documents *)

Definition has_number (doc : document) : Prop := truthy (get doc "DN") = true.
Definition has_title (doc : document) : Prop := truthy (get doc "TI") = true.

Definition same_number (a b : document) : Prop := get a "DN" = get b "DN".
Definition same_title (a b : document) : Prop := get a "TI" = get b "TI".

(** [doc] repeats a document of [seen]: by its number when it has one,
    else by its title when it has one. *)
Definition duplicate_in (seen : list document) (doc : document) : Prop :=
  (has_number doc /\ exists d, d ∈ seen /\ same_number d doc)
  \/ (~ has_number doc /\ has_title doc
      /\ exists d, d ∈ seen /\ same_title d doc).

(** The same, when only the unnumbered documents of [seen] lend their
    titles. *)
Definition duplicate_in_clean (seen : list document) (doc : document) : Prop :=
  (has_number doc /\ exists d, d ∈ seen /\ same_number d doc)
  \/ (~ has_number doc /\ has_title doc
      /\ exists d, d ∈ seen /\ ~ has_number d /\ same_title d doc).

(** The test of the loop of [_deduplicate_documents] on one candidate. *)
Definition dup_test (dns titles : gset string) (doc : document) : bool :=
  truthy (get doc "DN") && member (get doc "DN") dns
  || negb (truthy (get doc "DN")) && truthy (get doc "TI")
     && member (get doc "TI") titles.

(** The test of the loop of [_clean_existing_duplicates] on one document. *)
Definition clean_test (seen_dns seen_titles : gset string) (doc : document)
  : bool :=
  if truthy (get doc "DN") then member (get doc "DN") seen_dns
  else if truthy (get doc "TI") then member (get doc "TI") seen_titles
  else false.

Definition unnumbered (docs : list document) : list document :=
  List.filter (fun d => negb (truthy (get d "DN"))) docs.

(** *** Order of the corpus *)

(** [a] may stand before [b]: its publication date is not the earlier. *)
Definition not_older (a b : document) : Prop :=
  String.leb (key_text b) (key_text a) = true.

(** *** Days *)

Definition days_before_year (y : Z) : Z :=
  (365 * (y - 1) + (y - 1) / 4 - (y - 1) / 100 + (y - 1) / 400)%Z.

(** Days of the year before the first of month [m]. *)
Definition days_before_month (y m : Z) : Z :=
  foldr (fun k acc => (days_in_month y (Z.of_nat k) + acc)%Z) 0%Z
        (seq 1 (Z.to_nat m - 1)).

(** [date.toordinal()]: day 1 is 0001-01-01. *)
Definition toordinal (d : date) : Z :=
  (days_before_year (year d) + days_before_month (year d) (month d)
   + day d)%Z.

Definition well_formed (d : date) : Prop :=
  valid_date (year d) (month d) (day d) = true.

(** *** The store *)

(** The corpus and the state a run finds in the store. *)
Definition stored_corpus (w : world) : list document :=
  match results_file w with
  | Stored docs => docs
  | _ => []
  end.

Definition stored_state (w : world) : crawl_state :=
  match state_file w with
  | Stored state => state
  | _ => empty_state
  end.

Definition watermark (w : world) : value := last_checked_date (stored_state w).

(** Nothing of the data directory differs between [w] and [w'], and no
    save was called in between. *)
Definition same_store (w w' : world) : Prop :=
  results_file w' = results_file w /\ state_file w' = state_file w
  /\ results_writable w' = results_writable w
  /\ state_writable w' = state_writable w
  /\ store_requests w' = store_requests w.

(** Between [w] and [w'] only the log may differ. *)
Definition only_logged (w w' : world) : Prop :=
  same_store w w' /\ ticks w' = ticks w
  /\ gateway_calls w' = gateway_calls w.

(** A computation that never turns the clock back. *)
Definition advances {A} (m : M A) : Prop :=
  forall w r w', m w = (r, w') -> ticks w <= ticks w'.

(** A computation that leaves the data directory as it is. *)
Definition quiet {A} (m : M A) : Prop :=
  forall w r w', m w = (r, w') -> same_store w w'.

(** A computation that has not touched the data directory when it
    raises. *)
Definition clean_raise {A} (m : M A) : Prop :=
  forall w x w', m w = (Raise x, w') -> same_store w w'.

(** A computation that never raises. *)
Definition never_raises {A} (m : M A) : Prop :=
  forall w, exists a w', m w = (Ok a, w').

(** *** Sentences of the specification, as they are worded *)

(** C4 as worded: every watermark that parses is followed by its next
    day. *)
Definition plans_day_after_watermark (e : env) (w : world) : Prop :=
  forall text last,
    watermark w = VStr text -> strptime text = Some last ->
    exists next,
      fst (plan_window e false false w) = Ok (next, today e)
      /\ toordinal next = (toordinal last + 1)%Z.


(** C6 as worded: a failed write of the corpus ends the run with status
    [error] and nothing written. *)
Definition write_failure_is_fatal (e : env) (self : matcher) (w : world)
  : Prop :=
  let '(rep, w') := scrape e self false false w in
  (ERROR, "Error saving results: cannot write file") ∈ log w' ->
  status_of rep = error
  /\ results_file w' = results_file w /\ state_file w' = state_file w.

(** C7 as worded: after a successful run the stored corpus is in
    descending order of publication date and the state counts it. *)
Definition success_leaves_counted_sorted_corpus
    (e : env) (self : matcher) (w : world) : Prop :=
  let '(rep, w') := scrape e self false false w in
  status_of rep = success ->
  Sorted not_older (stored_corpus w')
  /\ total_documents (stored_state w') = length (stored_corpus w').

(** The record with every entry that is not a string made the empty
    string. *)
Definition blank_malformed (doc : document) : document :=
  Doc (fmap (fun v => match v with VNone => VStr "" | _ => v end) (fields doc))
      (companies doc) (products doc) (match_details_of doc).

(** C8 as worded: whatever the five text entries hold, [is_match] returns
    what it returns when the entries that are not strings are empty
    strings. *)
Definition malformed_fields_read_as_empty (self : matcher) (doc : document)
  : Prop :=
  exists matched details,
    is_match self doc = Ok (matched, details)
    /\ is_match self (blank_malformed doc) = Ok (matched, details).

(** C9 as worded: a time stamp that is present survives enrichment. *)
Definition keeps_present_stamp (e : env) (self : matcher) (doc : document)
    (w : world) : Prop :=
  truthy (get doc "scraped_at") = true ->
  exists doc', fst (enrich_documents e self [doc] w) = Ok [doc']
               /\ get doc' "scraped_at" = get doc "scraped_at".

End Spec.

(* ===================================================================== *)
(** ** Sample inputs *)
(* ===================================================================== *)

Module Samples.

Import Matcher Scraper.

(** The end-to-end example of the specification. *)
Definition phosphate_record : document :=
  record_of
    [("TI", VStr "Antidumping regulation on phosphate imports from Morocco");
     ("TX", VStr "...OCP and fertilizer trade measures...");
     ("AU", VStr "European Commission");
     ("DD", VStr "2024-01-15")].

(** The text blob [is_match] builds from [phosphate_record]. *)
Definition phosphate_text : list ascii :=
  chars ("Antidumping regulation on phosphate imports from Morocco "
         +:+ "...OCP and fertilizer trade measures...  European Commission ").

(** A record as the gateway builds it: numbered, stamped on retrieval. *)
Definition gateway_record : document :=
  record_of
    [("TI", VStr "Regulation on phosphate imports from Morocco");
     ("DN", VStr "32024R0001");
     ("DD", VStr "2024-01-15");
     ("AU", VStr "European Union");
     ("scraped_at", VStr "2024-06-10T08:00:00")].

(** A record whose title entry holds [None]. *)
Definition untitled_record : document := record_of [("TI", VNone)].

(** Two stored documents with one number, and an unnumbered document that
    repeats the title of a numbered one. *)
Definition stored_a : document :=
  record_of [("DN", VStr "32024R0001"); ("TI", VStr "Regulation A");
             ("publication_date", VStr "2024-01-15")].

Definition stored_a_again : document :=
  record_of [("DN", VStr "32024R0001"); ("TI", VStr "Regulation A (copy)");
             ("publication_date", VStr "2024-01-15")].

Definition unnumbered_a : document :=
  record_of [("TI", VStr "Regulation A")].

Definition stored_b : document :=
  record_of [("DN", VStr "32024D0002"); ("TI", VStr "Decision B");
             ("publication_date", VStr "2024-03-01")].

Definition june_10 : date := Date 2024 6 10.

Definition sample_clock (k : nat) : string := "2024-06-10T09:00:0" +:+ pretty k.

(** A gateway that finds nothing, one that finds [gateway_record], and one
    that raises. *)
Definition quiet_env : env := Env june_10 sample_clock (fun _ _ _ => Ok []).

Definition busy_env : env :=
  Env june_10 sample_clock (fun _ _ _ => Ok [gateway_record]).

Definition failing_env : env :=
  Env june_10 sample_clock
      (fun _ _ _ => Raise (Exn IOError "gateway unreachable")).

(** The data directory right after [__init__]. *)
Definition fresh_world : world :=
  World (Stored []) (Stored empty_state) true true 0 [] [] [].

Definition world_with_watermark (text : string) : world :=
  World (Stored []) (Stored (CrawlState (VStr text) VNone 0))
        true true 0 [] [] [].

(** The data directory before the first construction of the scraper. *)
Definition new_directory_world : world :=
  World Missing Missing true true 0 [] [] [].

(** The corpus file cannot be written. *)
Definition read_only_world : world :=
  World (Stored []) (Stored empty_state) false true 0 [] [] [].


(** The corpus file holds a document twice. *)
Definition world_with_duplicates : world :=
  World (Stored [stored_a; stored_a_again]) (Stored empty_state)
        true true 0 [] [] [].

End Samples.

(* ===================================================================== *)
(** ** [scraper.py]: statistics, filters and the CSV export *)
(* ===================================================================== *)

Module Reports.

Import Matcher Scraper.

(** *** Counting tables *)

(** [==] on the scalars used as dict keys. *)
Definition value_eqb (a b : value) : bool :=
  match a, b with
  | VNone, VNone => true
  | VStr x, VStr y => String.eqb x y
  | _, _ => false
  end.

(** [table[key] = table.get(key, 0) + 1] on a dict, kept as the list of
    its items in insertion order. *)
Fixpoint bump {K} (eqb : K -> K -> bool) (key : K) (table : list (K * nat))
  : list (K * nat) :=
  match table with
  | [] => [(key, 1)]
  | (k, n) :: rest =>
      if eqb k key then (k, S n) :: rest else (k, n) :: bump eqb key rest
  end.

(** The counting loop over a sequence of keys. *)
Definition tally {K} (eqb : K -> K -> bool) (keys : list K) : list (K * nat) :=
  foldl (fun table key => bump eqb key table) [] keys.

(** Stable insertion for a descending order of counts. *)
Fixpoint insert_by_count {K} (item : K * nat) (sorted : list (K * nat))
  : list (K * nat) :=
  match sorted with
  | [] => [item]
  | other :: rest =>
      if snd item <? snd other
      then other :: insert_by_count item rest
      else item :: sorted
  end.

(** [dict(sorted(table.items(), key=lambda x: x[1], reverse=True))] *)
Definition sorted_by_count {K} (table : list (K * nat)) : list (K * nat) :=
  foldr insert_by_count [] table.

(** [[doc.get(key) for doc in docs if doc.get(key)]] *)
Definition truthy_values (key : string) (docs : list document) : list string :=
  omap (fun doc =>
          match get doc key with
          | VStr s => if truthy (VStr s) then Some s else None
          | VNone => None
          end)
       docs.

(** [min(dates) if dates else None] and [max(dates) if dates else None] *)
Definition least (l : list string) : option string :=
  match l with
  | [] => None
  | x :: rest => Some (foldl (fun m y => if String.ltb y m then y else m) x rest)
  end.

Definition greatest (l : list string) : option string :=
  match l with
  | [] => None
  | x :: rest => Some (foldl (fun m y => if String.ltb m y then y else m) x rest)
  end.

(** The dict returned by [get_statistics]. *)
Record statistics := Statistics {
  stat_total_documents : nat;
  stat_last_run : value;
  stat_last_checked_date : value;
  earliest : option string;
  latest : option string;
  document_types : list (value * nat);
  authors : list (value * nat);
  company_counts : list (string * nat);
  product_counts : list (string * nat)
}.

(** [get_statistics].  On documents of the embedding nothing under its
    [try] raises. *)
Definition get_statistics : M statistics :=
  do results <- load_results;
  do state <- load_state;
  match results with
  | [] =>
      ret {| stat_total_documents := 0;
             stat_last_run := last_run state;
             stat_last_checked_date := last_checked_date state;
             earliest := None;
             latest := None;
             document_types := [];
             authors := [];
             company_counts := [];
             product_counts := [] |}
  | _ =>
      let dates := truthy_values "publication_date" results in
      let doc_types :=
        tally value_eqb
              (map (fun doc => get_or doc "form" (VStr "Unknown")) results) in
      let authors :=
        tally value_eqb
              (map (fun doc => get_or doc "author" (VStr "Unknown")) results) in
      let companies :=
        tally String.eqb
              (flat_map (fun doc => default [] (companies doc)) results) in
      let products :=
        tally String.eqb
              (flat_map (fun doc => default [] (products doc)) results) in
      ret {| stat_total_documents := length results;
             stat_last_run := last_run state;
             stat_last_checked_date := last_checked_date state;
             earliest := least dates;
             latest := greatest dates;
             document_types := sorted_by_count doc_types;
             authors := sorted_by_count authors;
             company_counts := sorted_by_count companies;
             product_counts := sorted_by_count products |}
  end.

(** *** Filters *)

(** The exceptions of the reporting code: those of [Py], and
    [AttributeError]. *)
Inductive failure :=
| AttributeError (msg : string)
| BuiltinError (e : exn).

(** [str(e)] *)
Definition failure_msg (x : failure) : string :=
  match x with
  | AttributeError msg => msg
  | BuiltinError e => exn_msg e
  end.

Inductive attempt (A : Type) : Type :=
| Returns (a : A)
| Fails (x : failure).
Arguments Returns {A} a.
Arguments Fails {A} x.

Definition abind {A B} (r : attempt A) (k : A -> attempt B) : attempt B :=
  match r with Returns a => k a | Fails x => Fails x end.

(** [filters.get(key)] when it is truthy. *)
Definition setting (filters : gmap string value) (key : string)
  : option string :=
  match filters !! key with
  | Some (VStr s) => if truthy (VStr s) then Some s else None
  | _ => None
  end.

(** [doc.get('publication_date', '') >= bound] *)
Definition not_before (bound : string) (doc : document) : attempt bool :=
  match get_or doc "publication_date" (VStr "") with
  | VStr d => Returns (String.leb bound d)
  | VNone =>
      Fails (BuiltinError (Exn TypeError
        "'>=' not supported between instances of 'NoneType' and 'str'"))
  end.

(** [doc.get('publication_date', '') <= bound] *)
Definition not_after (bound : string) (doc : document) : attempt bool :=
  match get_or doc "publication_date" (VStr "") with
  | VStr d => Returns (String.leb d bound)
  | VNone =>
      Fails (BuiltinError (Exn TypeError
        "'<=' not supported between instances of 'NoneType' and 'str'"))
  end.

(** [needle in v.lower()] *)
Definition lowered_has (needle : list ascii) (v : value) : attempt bool :=
  match v with
  | VStr s => Returns (contains needle (lower (chars s)))
  | VNone => Fails (AttributeError "'NoneType' object has no attribute 'lower'")
  end.

(** [any(needle in item.lower() for item in items)] *)
Definition some_lowered_has (needle : list ascii) (items : list string) : bool :=
  existsb (fun item => contains needle (lower (chars item))) items.

Definition author_has (author : string) (doc : document) : attempt bool :=
  lowered_has (lower (chars author)) (get_or doc "author" (VStr "")).

Definition company_has (company : string) (doc : document) : attempt bool :=
  Returns (some_lowered_has (lower (chars company))
                            (default [] (companies doc))).

Definition product_has (product : string) (doc : document) : attempt bool :=
  Returns (some_lowered_has (lower (chars product))
                            (default [] (products doc))).

(** [search_term in title.lower() or search_term in text.lower()] *)
Definition search_has (search : string) (doc : document) : attempt bool :=
  let search_term := lower (chars search) in
  abind (lowered_has search_term (get_or doc "title" (VStr ""))) (fun found =>
    if found then Returns true
    else lowered_has search_term (get_or doc "text" (VStr ""))).

(** [[doc for doc in docs if test(doc)]] *)
Fixpoint keep_if (test : document -> attempt bool) (docs : list document)
  : attempt (list document) :=
  match docs with
  | [] => Returns []
  | doc :: rest =>
      abind (test doc) (fun keep =>
      abind (keep_if test rest) (fun kept =>
        Returns (if keep then doc :: kept else kept)))
  end.

(** One [if filters.get(key): filtered = [...]] step. *)
Definition filter_step (filters : gmap string value) (key : string)
    (test : string -> document -> attempt bool) (filtered : list document)
  : attempt (list document) :=
  match setting filters key with
  | Some s => keep_if (test s) filtered
  | None => Returns filtered
  end.

(** [_apply_filters] *)
Definition apply_filters (results : list document)
    (filters : gmap string value) : attempt (list document) :=
  abind (filter_step filters "start_date" not_before results) (fun filtered =>
  abind (filter_step filters "end_date" not_after filtered) (fun filtered =>
  abind (filter_step filters "author" author_has filtered) (fun filtered =>
  abind (filter_step filters "company" company_has filtered) (fun filtered =>
  abind (filter_step filters "product" product_has filtered) (fun filtered =>
  filter_step filters "search" search_has filtered))))).

(** *** CSV *)

Definition dquote : ascii := ascii_of_nat 34.
Definition comma : ascii := ","%char.
Definition LF : ascii := ascii_of_nat 10.
Definition CR : ascii := ascii_of_nat 13.

(** [s.replace(old, new)] for single characters. *)
Definition replace_char (old new : ascii) (l : list ascii) : list ascii :=
  map (fun c => if Ascii.eqb c old then new else c) l.

Definition needs_quotes (c : ascii) : bool :=
  Ascii.eqb c dquote || Ascii.eqb c comma || Ascii.eqb c LF || Ascii.eqb c CR.

(** [str_value.replace] of every double quote by two of them. *)
Definition double_quotes (l : list ascii) : list ascii :=
  flat_map (fun c => if Ascii.eqb c dquote then [dquote; dquote] else [c]) l.

(** [escape_csv_value], the helper defined in the loop of [export_csv]. *)
Definition escape_csv_value (v : value) : list ascii :=
  match v with
  | VNone => []
  | VStr s =>
      match chars s with
      | [] => []
      | str_value =>
          if existsb needs_quotes str_value
          then dquote :: double_quotes str_value ++ [dquote]
          else str_value
      end
  end.

(** [doc.get(key, '').replace('\n', ' ').replace('\r', ' ')] *)
Definition cleaned (doc : document) (key : string) : attempt (list ascii) :=
  match get_or doc key (VStr "") with
  | VStr s => Returns (replace_char CR blank (replace_char LF blank (chars s)))
  | VNone =>
      Fails (AttributeError "'NoneType' object has no attribute 'replace'")
  end.

(** ['; '.join(items)] *)
Definition semicolons (items : list string) : list ascii :=
  join (chars "; ") (map chars items).

(** [match_details.get(key, dflt)] with
    [match_details = doc.get('match_details', {})]. *)
Definition detail {A} (doc : document) (entry : match_details -> A) (dflt : A)
  : A :=
  match match_details_of doc with
  | Some m => entry m
  | None => dflt
  end.

(** A cell of a row as [','.join] finds it: a string, or [None]. *)
Definition cell (v : value) : option (list ascii) :=
  match v with
  | VStr s => Some (chars s)
  | VNone => None
  end.

(** The items of [','.join(row)], checked from the left. *)
Fixpoint checked_cells (i : nat) (row : list (option (list ascii)))
  : attempt (list (list ascii)) :=
  match row with
  | [] => Returns []
  | Some s :: rest =>
      abind (checked_cells (S i) rest) (fun ss => Returns (s :: ss))
  | None :: _ =>
      Fails (BuiltinError (Exn TypeError
        ("sequence item " +:+ pretty i
         +:+ ": expected str instance, NoneType found")))
  end.

(** The body of the loop of [export_csv]: the line of one document. *)
Definition csv_line (doc : document) : attempt (list ascii) :=
  abind (cleaned doc "title") (fun title =>
  abind (cleaned doc "text_excerpt") (fun excerpt =>
    let text_excerpt := take 200 excerpt in
    let measure_keywords := semicolons (detail doc measure_keywords []) in
    let product_keywords := semicolons (detail doc product_keywords []) in
    let place_keywords := semicolons (detail doc place_company_keywords []) in
    let matched_snippets :=
      semicolons (detail doc matched_text_snippets []) in
    let company_list := default [] (companies doc) in
    let product_list := default [] (products doc) in
    let row :=
      [cell (get_or doc "publication_date" (VStr ""));
       Some (escape_csv_value (VStr (str title)));
       cell (get_or doc "form" (VStr ""));
       cell (get_or doc "document_number" (VStr ""));
       Some (escape_csv_value (get_or doc "author" (VStr "")));
       cell (get_or doc "eurlex_url" (VStr ""));
       Some (semicolons company_list);
       Some (semicolons product_list);
       Some (escape_csv_value (VStr (str text_excerpt)));
       cell (get_or doc "scraped_at" (VStr ""));
       Some measure_keywords;
       Some product_keywords;
       Some place_keywords;
       Some (detail doc (fun m => chars (pretty (groups_matched m))) []);
       Some (detail doc (fun m => chars (pretty (total_groups m))) []);
       Some (escape_csv_value (VStr (str matched_snippets)))] in
    abind (checked_cells 0 row) (fun cells =>
      Returns (join [comma] cells)))).

Fixpoint csv_lines (results : list document) : attempt (list (list ascii)) :=
  match results with
  | [] => Returns []
  | doc :: rest =>
      abind (csv_line doc) (fun line =>
      abind (csv_lines rest) (fun lines => Returns (line :: lines)))
  end.

Definition csv_header : string :=
  "Publication Date,Title,Type,Document Number,Author,EUR-Lex URL,Companies,Products,Excerpts,Scraped At,Measure Keywords,Product Keywords,Place/Company Keywords,Groups Matched,Total Groups,Matched Text Snippets".

(** The [try] block of [export_csv] after the load; [filters] is [None]
    for a call without the argument. *)
Definition csv_text (results : list document)
    (filters : option (gmap string value)) : attempt (list ascii) :=
  abind (match filters with
         | Some f =>
             if size f =? 0 then Returns results else apply_filters results f
         | None => Returns results
         end) (fun results =>
  match results with
  | [] => Returns []
  | _ =>
      abind (csv_lines results) (fun lines =>
        Returns (join [LF] (chars csv_header :: lines)))
  end).

(** [export_csv] *)
Definition export_csv (filters : option (gmap string value)) : M string :=
  do results <- load_results;
  match csv_text results filters with
  | Returns text => ret (str text)
  | Fails x =>
      perform effect (logger ERROR ("Error exporting CSV: " +:+ failure_msg x));
      ret ("Error exporting data: " +:+ failure_msg x)
  end.

End Reports.

(* ===================================================================== *)
(** ** [adapters/eurlex_web.py]: EURLexWebClient *)
(* ===================================================================== *)

Module WebClient.

(** What the client does on the network, in the order it does it. *)
Inductive event :=
| Get (search_params : gmap string string)
| Sleep.

(** [build_trade_regulation_search]; [qid] is the text of the millisecond
    time stamp and [today] the day of [date.today()]. *)
Definition build_trade_regulation_search (today : date) (qid : string)
    (date_from date_to : date) (page page_size : nat) : gmap string string :=
  let params : gmap string string :=
    list_to_map [("SUBDOM_INIT", "ALL_ALL"); ("DTS_SUBDOM", "ALL_ALL");
                 ("textScope0", "ti"); ("DTS_DOM", "ALL"); ("lang", "en");
                 ("type", "advanced")] in
  let filter_year :=
    if (2024 <=? year date_from)%Z then year date_from else year today in
  let params := <["whOJ" := "YEAR_OJ_OLD=" +:+ pretty filter_year]> params in
  let params := <["whOJAba" := "YEAR_OJ_ABA=" +:+ pretty filter_year]> params in
  let params := <["qid" := qid]> params in
  let params := <["andText0" := "Morocco"]> params in
  if 1 <? page then <["page" := pretty page]> params else params.

(** The loop of [search_documents] from page [page_num] on, with [count]
    pages left.  [fetch] stands for the request and the parse of its
    answer: [session.get], [raise_for_status] and
    [_parse_search_results]. *)
Fixpoint search_pages
    (fetch : gmap string string -> result (list document))
    (search_params : gmap string string) (page_num count : nat)
  : list document * list event :=
  match count with
  | 0 => ([], [])
  | S count' =>
      let search_params := <["page" := pretty page_num]> search_params in
      match fetch search_params with
      | Ok [] => ([], [Get search_params])
      | Ok documents =>
          let '(more, events) :=
            search_pages fetch search_params (S page_num) count' in
          (documents ++ more, Get search_params :: Sleep :: events)
      | Raise _ => ([], [Get search_params])
      end
  end.

(** [search_documents] *)
Definition search_documents
    (fetch : gmap string string -> result (list document))
    (search_params : gmap string string) (max_pages : nat)
  : list document * list event :=
  search_pages fetch search_params 1 max_pages.

(** [search_trade_regulations] of the web client. *)
Definition search_trade_regulations
    (fetch : gmap string string -> result (list document))
    (today : date) (qid : string) (date_from date_to : date)
    (max_pages : nat) : list document * list event :=
  let search_params :=
    build_trade_regulation_search today qid date_from date_to 1 20 in
  search_documents fetch search_params max_pages.

End WebClient.

(* ===================================================================== *)
(** ** [run_scraper.py]: the [--clean-duplicates] command *)
(* ===================================================================== *)

Module Cli.

Import Scraper Reports.

Inductive clean_outcome :=
| NothingStored
| NoDuplicates
| Cleaned (before after : nat).

(** [len(values) - len(set(values))] *)
Definition repeats (values : list string) : nat :=
  length values - size (list_to_set values : gset string).

(** [EURLexTradeScraper.__init__], where [mkdir(exist_ok=True)] finds the
    data directory or makes it: the year is read off the clock and the
    data files are initialised. *)
Definition construct : M unit :=
  perform effect tick;
  initialize_data_files.

(** The branch of [main] under [args.clean_duplicates], entered with the
    scraper constructed. *)
Definition clean_duplicates : M clean_outcome :=
  do existing_results <- load_results;
  match existing_results with
  | [] => ret NothingStored
  | _ =>
      let dn_duplicates := repeats (truthy_values "DN" existing_results) in
      let title_duplicates := repeats (truthy_values "TI" existing_results) in
      let total_duplicates := dn_duplicates + title_duplicates in
      if total_duplicates =? 0
      then ret NoDuplicates
      else
        let cleaned_results := clean_existing_duplicates existing_results in
        perform save_results cleaned_results;
        ret (Cleaned (length existing_results) (length cleaned_results))
  end.

(** [main] with [--clean-duplicates] as its only option: the scraper is
    constructed, then the branch runs. *)
Definition main_clean_duplicates : M clean_outcome :=
  perform construct;
  clean_duplicates.

End Cli.

(* ===================================================================== *)
(** ** Vocabulary of the further statements *)
(* ===================================================================== *)

Module Invariants.

Import Matcher Scraper Spec Reports.

(** [s] stands somewhere in [t]. *)
Definition factor (s t : list ascii) : Prop :=
  exists pre post, t = pre ++ s ++ post.

(** The verdict of [is_match], when it returns one. *)
Definition matches (self : matcher) (doc : document) : bool :=
  match is_match self doc with
  | Ok (true, _) => true
  | _ => false
  end.

(** [doc'] is [doc] as [filter_documents] hands it on: the details of the
    match attached, every other entry as it reads in [doc]. *)
Definition annotated (self : matcher) (doc doc' : document) : Prop :=
  exists details,
    is_match self doc = Ok (true, details)
    /\ match_details_of doc' = Some details
    /\ (forall key, get doc' key = get doc key)
    /\ companies doc' = companies doc
    /\ products doc' = products doc.

(** The five text entries hold strings, where they are present. *)
Definition text_entries_are_strings (doc : document) : Prop :=
  Forall (fun k => fields doc !! k <> Some VNone) searchable_keys.

(** *** Identities in a corpus *)

(** What a scalar adds to a list of truthy values. *)
Definition truthy_text (v : value) : list string :=
  match v with
  | VStr s => if truthy (VStr s) then [s] else []
  | VNone => []
  end.

(** No number occurs twice, and no title occurs twice among the documents
    without a number. *)
Definition distinct_identities (docs : list document) : Prop :=
  NoDup (truthy_values "DN" docs)
  /\ NoDup (truthy_values "TI" (unnumbered docs)).

(** The same against numbers and titles already seen. *)
Definition distinct_from (dns titles : gset string) (docs : list document)
  : Prop :=
  distinct_identities docs
  /\ (forall x, x ∈ truthy_values "DN" docs -> x ∉ dns)
  /\ (forall x, x ∈ truthy_values "TI" (unnumbered docs) -> x ∉ titles).

(** A document the merge can recognise: it has a number or a title. *)
Definition identifiable (doc : document) : Prop :=
  has_number doc \/ has_title doc.

(** *** Enrichment *)

(** The entries [_enrich_documents] copies, with the raw key of each. *)
Definition canonical_keys : list (string * string) :=
  [("document_number", "DN"); ("title", "TI"); ("publication_date", "DD");
   ("author", "AU"); ("form", "FM"); ("subject", "SU"); ("text", "TX");
   ("text_excerpt", "TE"); ("official_journal", "OJ")].

(** One canonical entry copied from its raw key, and the address entry;
    [enriched] is the loop body of [_enrich_documents] written with
    them. *)
Definition copy_entry (doc : document) (entry : string * string) : document :=
  set_field (fst entry) (get_or doc (snd entry) (VStr "")) doc.

Definition with_url (doc : document) : document :=
  if truthy (get doc "DN")
  then set_field "eurlex_url" (eurlex_url (get doc "DN")) doc
  else doc.

Definition enriched (stamp : string) (entities : list string * list string)
    (doc : document) : document :=
  with_url
    (foldl copy_entry
           (set_products (snd entities)
              (set_companies (fst entities)
                 (set_field "scraped_at" (VStr stamp) doc)))
           canonical_keys).

(** [doc'] is [doc] enriched at the clock reading [stamp]. *)
Definition enriched_at (self : matcher) (stamp : string)
    (doc doc' : document) : Prop :=
  get doc' "scraped_at" = VStr stamp
  /\ Forall (fun '(key, raw) => get doc' key = get_or doc raw (VStr ""))
            canonical_keys
  /\ fields doc' !! "eurlex_url"
     = (if truthy (get doc "DN") then Some (eurlex_url (get doc "DN"))
        else fields doc !! "eurlex_url")
  /\ (forall key,
        key ∉ "scraped_at" :: "eurlex_url" :: canonical_keys.*1 ->
        fields doc' !! key = fields doc !! key)
  /\ extract_entities self doc = Ok (default [] (companies doc'),
                                     default [] (products doc'))
  /\ is_Some (companies doc') /\ is_Some (products doc')
  /\ match_details_of doc' = match_details_of doc
  /\ is_match self doc' = is_match self doc.

(** *** Counting tables *)

(** How often [k] occurs among [keys]. *)
Definition occurrences {K} (eqb : K -> K -> bool) (k : K) (keys : list K)
  : nat :=
  length (List.filter (eqb k) keys).

(** [a] may stand before [b] in a table sorted by count. *)
Definition counts_down {K} (a b : K * nat) : Prop := snd b <= snd a.

(** [table] counts [keys]: one item for each key that occurs, with the
    number of its occurrences, the larger counts first. *)
Definition counts_of {K} (eqb : K -> K -> bool) (keys : list K)
    (table : list (K * nat)) : Prop :=
  NoDup (table.*1)
  /\ (forall k n, (k, n) ∈ table <-> k ∈ keys /\ n = occurrences eqb k keys)
  /\ sum_list (table.*2) = length keys
  /\ Sorted counts_down table.

(** [lo] and [hi] bound the non-empty list [dates] and belong to it;
    both are absent when the list is empty. *)
Definition bounds_of (dates : list string) (lo hi : option string) : Prop :=
  match lo, hi with
  | None, None => dates = []
  | Some lo, Some hi =>
      lo ∈ dates /\ hi ∈ dates
      /\ forall d, d ∈ dates ->
           String.leb lo d = true /\ String.leb d hi = true
  | _, _ => False
  end.

(** *** Filters and the export *)

(** The six steps of [_apply_filters], in order. *)
Definition filter_tests : list (string * (string -> document -> attempt bool)) :=
  [("start_date", not_before); ("end_date", not_after);
   ("author", author_has); ("company", company_has);
   ("product", product_has); ("search", search_has)].

(** The verdict of a test that returned [True]. *)
Definition holds_true (r : attempt bool) : bool :=
  match r with
  | Returns b => b
  | Fails _ => false
  end.

(** [doc] passes every step whose filter is set. *)
Definition passes (filters : gmap string value) (doc : document) : bool :=
  forallb (fun '(key, test) =>
             match setting filters key with
             | Some s => holds_true (test s doc)
             | None => true
             end)
          filter_tests.

(** The entries the filters read hold strings, where they are present. *)
Definition filterable (doc : document) : Prop :=
  Forall (fun k => fields doc !! k <> Some VNone)
         ["publication_date"; "author"; "title"; "text"].

(** A cell of a CSV line read back: the quotes around it removed and the
    doubled quotes inside it made single. *)
Fixpoint undouble (l : list ascii) : list ascii :=
  match l with
  | [] => []
  | a :: tail =>
      match tail with
      | b :: rest =>
          if Ascii.eqb a dquote && Ascii.eqb b dquote
          then dquote :: undouble rest
          else a :: undouble tail
      | [] => [a]
      end
  end.

Definition csv_unquote (cell : list ascii) : list ascii :=
  match cell with
  | q :: body => if Ascii.eqb q dquote then undouble (removelast body) else cell
  | [] => []
  end.

(** The entries [export_csv] puts in a line as they are. *)
Definition exportable (doc : document) : Prop :=
  Forall (fun k => fields doc !! k <> Some VNone)
         ["publication_date"; "title"; "form"; "document_number";
          "eurlex_url"; "text_excerpt"; "scraped_at"].

(** *** Pages of a search *)

(** The query for page [i], and what the page holds: nothing when the
    request fails. *)
Definition page_query (search_params : gmap string string) (i : nat)
  : gmap string string :=
  <["page" := pretty i]> search_params.

Definition page_documents
    (fetch : gmap string string -> result (list document))
    (search_params : gmap string string) (i : nat) : list document :=
  match fetch (page_query search_params i) with
  | Ok documents => documents
  | Raise _ => []
  end.

(** The year [build_trade_regulation_search] asks for. *)
Definition search_year (today date_from : date) : Z :=
  if (2024 <=? year date_from)%Z then year date_from else year today.

(** *** The run *)

(** A computation that sends nothing to the gateway. *)
Definition silent {A} (m : M A) : Prop :=
  forall w r w', m w = (r, w') -> gateway_calls w' = gateway_calls w.

(** A computation that leaves the two write permissions as they are. *)
Definition keeps_permissions {A} (m : M A) : Prop :=
  forall w r w', m w = (r, w') ->
    results_writable w' = results_writable w
    /\ state_writable w' = state_writable w.

End Invariants.

(** A string literal is not among the literals of a list. *)
Ltac not_in_list :=
  rewrite ?not_elem_of_cons; repeat split; try done; apply not_elem_of_nil.

(** A string literal is among the literals of a list. *)
Ltac in_list :=
  repeat first [apply list_elem_of_here | apply list_elem_of_further].

(* ===================================================================== *)
(** ** The pattern engine finds a match exactly when one exists *)
(* ===================================================================== *)

Import Matcher Scraper Spec.

Section Regex.

Lemma match_atoms_star p b r :
  match_atoms (WordStar :: p) b r =
  match r with
  | x :: r' =>
      if is_word x
      then match match_atoms (WordStar :: p) (x :: b) r' with
           | Some n => Some (S n)
           | None => match_atoms p b r
           end
      else match_atoms p b r
  | [] => match_atoms p b r
  end.
Proof. destruct r; reflexivity. Qed.

Lemma match_atoms_sound p : forall b r n,
  match_atoms p b r = Some n -> accepts p b r n.
Proof.
  induction p as [|a p IH]; intros b r n H.
  - simpl in H. injection H as <-. constructor.
  - destruct a as [c| |zs].
    + simpl in H. destruct r as [|x r]; [discriminate|].
      destruct (Ascii.eqb c x) eqn:E; [|discriminate].
      apply Ascii.eqb_eq in E. subst x.
      destruct (match_atoms p (c :: b) r) as [m|] eqn:Hm; [|discriminate].
      simpl in H. injection H as <-. constructor. by apply IH.
    + revert b n H. induction r as [|x r IHr]; intros b n H.
      * rewrite match_atoms_star in H. apply accepts_star_stop. by apply IH.
      * rewrite match_atoms_star in H.
        destruct (is_word x) eqn:Hw.
        -- destruct (match_atoms (WordStar :: p) (x :: b) r) as [m|] eqn:Hm.
           ++ injection H as <-. apply accepts_star_step; [done|]. by apply IHr.
           ++ apply accepts_star_stop. by apply IH.
        -- apply accepts_star_stop. by apply IH.
    + simpl in H. destruct (existsb (holds b r) zs) eqn:E; [|discriminate].
      constructor; [done|]. by apply IH.
Qed.

Lemma match_atoms_complete p b r n :
  accepts p b r n -> is_Some (match_atoms p b r).
Proof.
  induction 1 as [b r|c p b r n _ IH|zs p b r n Hz _ IH|p b r n _ IH
                  |x p b r n Hw _ IH].
  - by eexists.
  - simpl. rewrite Ascii.eqb_refl. destruct IH as [m ->]. by eexists.
  - simpl. by rewrite Hz.
  - rewrite match_atoms_star. destruct r as [|x r]; [done|].
    destruct (is_word x); [|done].
    destruct (match_atoms (WordStar :: p) (x :: b) r); [by eexists|done].
  - rewrite match_atoms_star, Hw. destruct IH as [m ->]. by eexists.
Qed.

Lemma search_from_sound p : forall r b s e,
  search_from p b r = Some (s, e) ->
  exists r1 r2 n,
    r = r1 ++ r2 /\ s = length b + length r1 /\ e = s + n
    /\ accepts p (rev r1 ++ b) r2 n.
Proof.
  induction r as [|x r IH]; intros b s e H; simpl in H.
  - destruct (match_atoms p b []) as [n|] eqn:Hm; [|discriminate].
    injection H as <- <-. exists [], [], n. simpl.
    repeat split; [lia|]. by apply match_atoms_sound.
  - destruct (match_atoms p b (x :: r)) as [n|] eqn:Hm.
    + injection H as <- <-. exists [], (x :: r), n. simpl.
      repeat split; [lia|]. by apply match_atoms_sound.
    + apply IH in H as (r1 & r2 & n & -> & -> & -> & Hacc).
      exists (x :: r1), r2, n. simpl. repeat split; [lia|].
      by rewrite <- app_assoc.
Qed.

Lemma search_from_complete p : forall r1 r2 b n,
  accepts p (rev r1 ++ b) r2 n -> is_Some (search_from p b (r1 ++ r2)).
Proof.
  induction r1 as [|x r1 IH]; intros r2 b n H; simpl in *.
  - apply match_atoms_complete in H as [m Hm].
    destruct r2; simpl; rewrite Hm; by eexists.
  - destruct (match_atoms p b (x :: r1 ++ r2)); [by eexists|].
    apply (IH r2 (x :: b) n). by rewrite <- app_assoc in H.
Qed.

Lemma re_search_iff p text :
  is_Some (re_search p text) <->
  exists pre rest n, text = pre ++ rest /\ accepts p (rev pre) rest n.
Proof.
  unfold re_search. split.
  - intros [[s e] H].
    apply search_from_sound in H as (r1 & r2 & n & -> & _ & _ & H).
    exists r1, r2, n. by rewrite app_nil_r in H.
  - intros (pre & rest & n & -> & H).
    apply (search_from_complete p pre rest [] n).
    by rewrite app_nil_r.
Qed.


Lemma head_rev (l : list ascii) : head (rev l) = last l.
Proof.
  induction l as [|x l IH] using rev_ind; [done|].
  by rewrite rev_app_distr, last_snoc.
Qed.

Lemma at_boundary_edge pre rest :
  at_boundary (rev pre) rest = true <-> word_edge pre rest.
Proof.
  unfold at_boundary, word_edge. rewrite head_rev.
  destruct (word_opt (last pre)), (word_opt (head rest)); simpl; split;
    congruence.
Qed.

Lemma starts_with_iff p : forall l,
  starts_with p l = true <-> exists t, l = p ++ t.
Proof.
  induction p as [|a p IH]; intros l; simpl.
  - split; [eauto|done].
  - destruct l as [|b l].
    + split; [done|]. intros [t Ht]. discriminate.
    + rewrite andb_true_iff, Ascii.eqb_eq, IH. split.
      * intros [-> [t ->]]. eauto.
      * intros [t Ht]. injection Ht as -> ->. eauto.
Qed.

Lemma holds_bnd pre rest :
  holds (rev pre) rest Bnd = true <-> word_edge pre rest.
Proof. apply at_boundary_edge. Qed.

Lemma holds_behind w pre rest :
  holds (rev pre) rest (Behind w) = true <-> ends_with_glue w pre.
Proof.
  unfold holds, ends_with_glue. rewrite andb_true_iff, starts_with_iff. split.
  - intros [[t Ht] Hb].
    assert (pre = rev t ++ w) as ->.
    { rewrite <- (rev_involutive pre), Ht, rev_app_distr.
      by rewrite rev_involutive. }
    exists (rev t). split; [done|].
    rewrite rev_app_distr, rev_involutive in Hb.
    rewrite <- (length_rev w), drop_app_length in Hb.
    apply at_boundary_edge. by rewrite rev_involutive.
  - intros (before & -> & He). rewrite rev_app_distr. split; [eauto|].
    rewrite <- (length_rev w), drop_app_length. by apply at_boundary_edge.
Qed.

Lemma accepts_lits kw p : forall b r n,
  accepts (re_escape kw ++ p) b r n <->
  exists r' m,
    r = kw ++ r' /\ n = length kw + m /\ accepts p (rev kw ++ b) r' m.
Proof.
  induction kw as [|c kw IH]; intros b r n; simpl.
  - split; [intros H; by exists r, n|]. by intros (r' & m & -> & -> & H).
  - split.
    + intros H. inversion H as [|c' p' b' r0 n0 H'| | |]; subst.
      apply IH in H' as (r' & m & -> & -> & H').
      exists r', m. repeat split. by rewrite <- app_assoc.
    + intros (r' & m & -> & -> & H). simpl. constructor. apply IH.
      exists r', m. repeat split. by rewrite <- app_assoc in H.
Qed.

Lemma accepts_final_bnd b r n :
  accepts [Assert [Bnd]] b r n <-> n = 0 /\ at_boundary b r = true.
Proof.
  split.
  - intros H. inversion H as [| |zs p b' r' n' Hz H'| |]; subst.
    inversion H'; subst. simpl in Hz. rewrite orb_false_r in Hz. done.
  - intros [-> Hb]. constructor; [simpl; by rewrite Hb|constructor].
Qed.

(** The start group followed by the escaped keyword and [\b]. *)
Lemma accepts_guarded zs kw pre rest n :
  accepts (Assert zs :: re_escape kw ++ [Assert [Bnd]]) (rev pre) rest n <->
  existsb (holds (rev pre) rest) zs = true
  /\ exists post,
       rest = kw ++ post /\ n = length kw /\ word_edge (pre ++ kw) post.
Proof.
  split.
  - intros H. inversion H as [| |zs' p b' r' n' Hz H'| |]; subst.
    split; [done|].
    apply accepts_lits in H' as (post & m & -> & -> & H').
    apply accepts_final_bnd in H' as [-> Hb].
    exists post. repeat split; [lia|].
    rewrite <- rev_app_distr in Hb. by apply at_boundary_edge.
  - intros [Hz (post & -> & -> & He)]. constructor; [done|].
    apply accepts_lits. exists post, 0. repeat split; [lia|].
    apply accepts_final_bnd. split; [done|].
    rewrite <- rev_app_distr. by apply at_boundary_edge.
Qed.

Lemma keyword_start_holds pre rest :
  existsb (holds (rev pre) rest)
    [Bnd; Behind (chars "in"); Behind (chars "from");
     Behind (chars "to"); Behind (chars "of")] = true
  <-> keyword_start_ok pre rest.
Proof.
  unfold keyword_start_ok, glue_words.
  cbn [existsb]. rewrite !orb_true_iff, holds_bnd, !holds_behind. split.
  - intros [H|[H|[H|[H|[H|H]]]]]; [by left|right..|done]; eexists;
      (split; [|exact H]); set_solver.
  - intros [H|(w & Hw & H)]; [by left|].
    right. rewrite !elem_of_cons in Hw.
    destruct Hw as [->|[->|[->|[->|Hw]]]]; [tauto..|by apply elem_of_nil in Hw].
Qed.

Lemma keyword_search_iff kw text :
  is_Some (re_search (keyword_pattern kw) text) <-> keyword_occurrence kw text.
Proof.
  rewrite re_search_iff.
  unfold keyword_pattern, keyword_start, keyword_occurrence.
  split.
  - intros (pre & rest & n & -> & H).
    apply accepts_guarded in H as [Hz (post & -> & -> & He)].
    exists pre, post. repeat split; [|done]. by apply keyword_start_holds.
  - intros (pre & post & -> & Hs & He).
    exists pre, (kw ++ post), (length kw). split; [done|].
    apply accepts_guarded. split; [by apply keyword_start_holds|].
    by exists post.
Qed.

Lemma bounded_search_iff kw text :
  is_Some (re_search (Assert [Bnd] :: re_escape kw ++ [Assert [Bnd]]) text)
  <-> bounded_occurrence kw text.
Proof.
  rewrite re_search_iff. unfold bounded_occurrence. split.
  - intros (pre & rest & n & -> & H).
    apply accepts_guarded in H as [Hz (post & -> & -> & He)].
    exists pre, post. repeat split; [|done].
    simpl in Hz. rewrite orb_false_r in Hz. by apply at_boundary_edge.
  - intros (pre & post & -> & Hs & He).
    exists pre, (kw ++ post), (length kw). split; [done|].
    apply accepts_guarded. split; [|by exists post].
    simpl. rewrite orb_false_r. by apply at_boundary_edge.
Qed.


Lemma wildcard_atoms_cons c kw :
  wildcard_atoms (c :: kw) =
  (if Ascii.eqb star c then WordStar else Lit c) :: wildcard_atoms kw.
Proof. reflexivity. Qed.

Lemma expansion_star_cons kw x s :
  is_word x = true ->
  expansion (star :: kw) s -> expansion (star :: kw) (x :: s).
Proof.
  intros Hx H.
  inversion H as [|c kw' s' Hne|kw' run s' Hrun Hs]; subst; [done|].
  apply (expansion_star kw (x :: run) s'); [|done]. simpl. by rewrite Hx.
Qed.

Lemma accepts_wildcard_sound p q b r n :
  accepts q b r n ->
  forall kw, q = wildcard_atoms kw ++ p ->
  exists mid r' m,
    r = mid ++ r' /\ expansion kw mid /\ n = length mid + m
    /\ accepts p (rev mid ++ b) r' m.
Proof.
  assert (Hnil : forall b r n, accepts p b r n ->
            exists mid r' m, r = mid ++ r' /\ expansion [] mid
              /\ n = length mid + m /\ accepts p (rev mid ++ b) r' m).
  { intros b0 r0 n0 H0. exists [], r0, n0. repeat split; [constructor|done]. }
  induction 1 as [b r|c q b r n H IH|zs q b r n Hz H IH|q b r n H IH
                  |x q b r n Hw H IH]; intros kw Hq.
  - destruct kw as [|c kw].
    2: { by destruct (Ascii.eqb star c) eqn:E;
           rewrite wildcard_atoms_cons, E in Hq. }
    simpl in Hq. subst p. apply Hnil. constructor.
  - destruct kw as [|c' kw].
    { simpl in Hq. subst p. apply Hnil. by constructor. }
    rewrite wildcard_atoms_cons in Hq.
    destruct (Ascii.eqb star c') eqn:E; [discriminate|].
    injection Hq as <- ->.
    destruct (IH kw eq_refl) as (mid & r' & m & -> & Hexp & -> & Hacc).
    exists (c :: mid), r', m. repeat split.
    + constructor; [|done]. intros ->. by rewrite Ascii.eqb_refl in E.
    + simpl. by rewrite <- app_assoc.
  - destruct kw as [|c' kw].
    { simpl in Hq. subst p. apply Hnil. by constructor. }
    rewrite wildcard_atoms_cons in Hq. by destruct (Ascii.eqb star c').
  - destruct kw as [|c' kw].
    { simpl in Hq. subst p. apply Hnil. by apply accepts_star_stop. }
    rewrite wildcard_atoms_cons in Hq.
    destruct (Ascii.eqb star c') eqn:E; [|discriminate].
    apply Ascii.eqb_eq in E. subst c'. injection Hq as ->.
    destruct (IH kw eq_refl) as (mid & r' & m & -> & Hexp & -> & Hacc).
    exists mid, r', m. repeat split; [|done].
    by apply (expansion_star kw [] mid).
  - destruct kw as [|c' kw].
    { simpl in Hq. subst p. apply Hnil. by apply accepts_star_step. }
    destruct (IH (c' :: kw) Hq) as (mid & r' & m & -> & Hexp & -> & Hacc).
    rewrite wildcard_atoms_cons in Hq.
    destruct (Ascii.eqb star c') eqn:E; [|discriminate].
    apply Ascii.eqb_eq in E. subst c'.
    exists (x :: mid), r', m. repeat split.
    + by apply expansion_star_cons.
    + simpl. by rewrite <- app_assoc.
Qed.

Lemma accepts_star_run p run : forall b r n,
  forallb is_word run = true ->
  accepts (WordStar :: p) (rev run ++ b) r n ->
  accepts (WordStar :: p) b (run ++ r) (length run + n).
Proof.
  induction run as [|x run IH]; intros b r n Hrun H; [done|].
  simpl in Hrun. apply andb_true_iff in Hrun as [Hx Hrun].
  simpl. apply accepts_star_step; [done|]. apply IH; [done|].
  simpl in H. by rewrite <- app_assoc in H.
Qed.

Lemma accepts_wildcard_complete p kw mid :
  expansion kw mid ->
  forall b r m,
  accepts p (rev mid ++ b) r m ->
  accepts (wildcard_atoms kw ++ p) b (mid ++ r) (length mid + m).
Proof.
  induction 1 as [|c kw s Hne _ IH|kw run s Hrun _ IH]; intros b r m H.
  - done.
  - rewrite wildcard_atoms_cons.
    destruct (Ascii.eqb star c) eqn:E.
    { apply Ascii.eqb_eq in E. by subst c. }
    simpl. constructor. apply IH. simpl in H. by rewrite <- app_assoc in H.
  - rewrite wildcard_atoms_cons, Ascii.eqb_refl.
    rewrite <- app_assoc, length_app, <- Nat.add_assoc.
    apply accepts_star_run; [done|]. apply accepts_star_stop.
    apply IH. by rewrite rev_app_distr, <- app_assoc in H.
Qed.

Lemma wildcard_search_iff kw text :
  is_Some (re_search (wildcard_pattern kw) text) <-> wildcard_occurrence kw text.
Proof.
  rewrite re_search_iff. unfold wildcard_pattern, wildcard_occurrence. split.
  - intros (pre & rest & n & -> & H).
    inversion H as [| |zs p b' r' n' Hz H'| |]; subst.
    simpl in Hz. rewrite orb_false_r in Hz.
    apply (accepts_wildcard_sound [Assert [Bnd]]) with (kw := kw) in H'; [|done].
    destruct H' as (mid & post & m & -> & Hexp & -> & Hacc).
    apply accepts_final_bnd in Hacc as [-> Hb].
    exists pre, mid, post. repeat split; [done|by apply at_boundary_edge|].
    rewrite <- rev_app_distr in Hb. by apply at_boundary_edge.
  - intros (pre & mid & post & -> & Hexp & Hs & He).
    exists pre, (mid ++ post), (length mid + 0). split; [done|].
    constructor. { simpl. rewrite orb_false_r. by apply at_boundary_edge. }
    apply accepts_wildcard_complete; [done|].
    apply accepts_final_bnd. split; [done|].
    rewrite <- rev_app_distr. by apply at_boundary_edge.
Qed.


Lemma no_edge_in_empty_text (l r : list ascii) : l ++ r = [] -> ~ word_edge l r.
Proof. intros H. apply app_eq_nil in H as [-> ->]. by intros []. Qed.

Lemma keyword_occurrence_empty kw : ~ keyword_occurrence kw [].
Proof.
  intros (pre & post & H & _ & He). symmetry in H.
  apply app_eq_nil in H as [-> H]. apply app_eq_nil in H as [-> ->].
  by apply (no_edge_in_empty_text [] []) in He.
Qed.

Lemma wildcard_occurrence_empty kw : ~ wildcard_occurrence kw [].
Proof.
  intros (pre & mid & post & H & _ & _ & He). symmetry in H.
  apply app_eq_nil in H as [-> H]. apply app_eq_nil in H as [-> ->].
  by apply (no_edge_in_empty_text [] []) in He.
Qed.

Lemma keyword_found_iff nt keyword :
  keyword_found nt keyword = true <->
  if has_wildcard (normalize_text (chars keyword))
  then wildcard_occurrence (normalize_text (chars keyword)) nt
  else keyword_occurrence (normalize_text (chars keyword)) nt.
Proof.
  unfold keyword_found.
  destruct (has_wildcard (normalize_text (chars keyword)));
    rewrite bool_decide_eq_true.
  - apply wildcard_search_iff.
  - apply keyword_search_iff.
Qed.

Lemma find_keyword_matches_iff text keywords keyword :
  keyword ∈ find_keyword_matches text keywords <->
  keyword ∈ keywords /\ keyword_found (normalize_text text) keyword = true.
Proof.
  unfold find_keyword_matches. destruct text as [|c text].
  - split; [by intros ?%elem_of_nil|]. intros [_ H].
    apply keyword_found_iff in H. simpl in H.
    destruct (has_wildcard _).
    + by apply wildcard_occurrence_empty in H.
    + by apply keyword_occurrence_empty in H.
  - rewrite !list_elem_of_In. apply filter_In.
Qed.

Lemma has_wildcard_cons c kw :
  has_wildcard (c :: kw) = Ascii.eqb star c || has_wildcard kw.
Proof. reflexivity. Qed.

Lemma expansion_literal stem :
  has_wildcard stem = false -> forall s, expansion stem s <-> s = stem.
Proof.
  induction stem as [|c stem IH]; intros Hs s.
  - split; [by inversion 1|intros ->; constructor].
  - rewrite has_wildcard_cons in Hs. apply orb_false_iff in Hs as [Hc Hs]. split.
    + inversion 1 as [|c' kw' s' Hne Hexp|]; subst.
      * f_equal. by apply IH.
      * by rewrite Ascii.eqb_refl in Hc.
    + intros ->. constructor; [|by apply IH]. intros ->.
      by rewrite Ascii.eqb_refl in Hc.
Qed.

Lemma expansion_app k1 : forall k2 s1 s2,
  expansion k1 s1 -> expansion k2 s2 -> expansion (k1 ++ k2) (s1 ++ s2).
Proof.
  intros k2 s1 s2 H1 H2. induction H1 as [|c kw s Hne _ IH|kw run s Hrun _ IH]; simpl.
  - done.
  - by constructor.
  - rewrite <- app_assoc. by constructor.
Qed.

Lemma expansion_stem stem mid :
  has_wildcard stem = false ->
  expansion (stem ++ [star]) mid <->
  exists tail, mid = stem ++ tail /\ forallb is_word tail = true.
Proof.
  intros Hs. split.
  - revert mid. induction stem as [|c stem IH]; intros mid H.
    + simpl in H. inversion H as [| |kw run s Hrun Hnil]; subst; [done|].
      inversion Hnil; subst. exists run. by rewrite app_nil_r.
    + rewrite has_wildcard_cons in Hs. apply orb_false_iff in Hs as [Hc Hs].
      simpl in H. inversion H as [|c' kw' s' Hne Hexp|]; subst.
      * destruct (IH Hs _ Hexp) as (tail & -> & Ht). by exists tail.
      * by rewrite Ascii.eqb_refl in Hc.
  - intros (tail & -> & Ht). apply expansion_app.
    + by apply expansion_literal.
    + rewrite <- (app_nil_r tail). constructor; [done|constructor].
Qed.

Lemma wildcard_stem_occurrence stem text :
  has_wildcard stem = false ->
  wildcard_occurrence (stem ++ [star]) text <-> token_with_stem stem text.
Proof.
  intros Hs. unfold wildcard_occurrence, token_with_stem. split.
  - intros (pre & mid & post & -> & Hexp & H1 & H2).
    apply expansion_stem in Hexp as (tail & -> & Ht); [|done].
    exists pre, tail, post. by rewrite <- !app_assoc in *.
  - intros (pre & tail & post & -> & Ht & H1 & H2).
    exists pre, (stem ++ tail), post. rewrite <- !app_assoc.
    repeat split; [|done..]. apply expansion_stem; eauto.
Qed.

Lemma has_wildcard_app k1 k2 :
  has_wildcard (k1 ++ k2) = has_wildcard k1 || has_wildcard k2.
Proof. apply existsb_app. Qed.

(** C2, amended.  For an ASCII text and a group of ASCII keywords of which
    those with a wildcard marker hold no other operator of [re]:
    [_find_keyword_matches] reports a keyword exactly when it is in the
    group and, in the lower-cased and stripped text, the lower-cased and
    stripped keyword
    - without wildcard marker: stands ending at a word boundary and
      starting at a word boundary or right after a glued "in", "from",
      "to" or "of" that starts at a word boundary;
    - with wildcard markers: has an expansion (each marker replaced by a
      run of word characters) standing between two word boundaries.
    For a stem followed by one marker this is exactly when a token of the
    text begins with the whole stem.
    The two hypotheses bound the statement to the inputs on which the
    embedding is the code: beyond ASCII the classes of [re] are wider, and
    a wildcard keyword goes to [re] unescaped. *)
Theorem find_keyword_matches_reports
    (text : list ascii) (keywords : list string) (keyword : string) :
  ascii_only text = true ->
  supported_group keywords = true ->
  let nt := normalize_text text in
  let nk := normalize_text (chars keyword) in
  (keyword ∈ find_keyword_matches text keywords <->
   keyword ∈ keywords
   /\ if has_wildcard nk then wildcard_occurrence nk nt
      else keyword_occurrence nk nt)
  /\ (forall stem, nk = stem ++ [star] -> has_wildcard stem = false ->
      (keyword ∈ find_keyword_matches text keywords <->
       keyword ∈ keywords /\ token_with_stem stem nt)).
Proof.
  intros _ _ nt nk. split.
  - rewrite find_keyword_matches_iff. by rewrite keyword_found_iff.
  - intros stem Hnk Hstem.
    rewrite find_keyword_matches_iff, keyword_found_iff. fold nk.
    rewrite Hnk at 1. rewrite has_wildcard_app, has_wildcard_cons.
    rewrite Ascii.eqb_refl, orb_true_r. fold nt. rewrite Hnk.
    by rewrite wildcard_stem_occurrence.
Qed.

End Regex.

(* ===================================================================== *)
(** ** The decision of [is_match] *)
(* ===================================================================== *)

Section Decision.

Lemma nonempty_true {A} (l : list A) : nonempty l = true <-> l <> [].
Proof. destruct l; simpl; split; congruence. Qed.

Lemma nonempty_false {A} (l : list A) : nonempty l = false <-> l = [].
Proof. destruct l; simpl; split; congruence. Qed.

(** C1.  Whenever the five text entries can be joined into the text blob,
    [is_match] returns a pair whose three keyword lists are the per-group
    matches in that blob and whose boolean is true exactly when the
    place/company list is non-empty and the measure list or the product
    list is non-empty; so it is false when only the place/company group
    matched, and false when the place/company group did not match. *)
Theorem is_match_decision_rule
    (self : matcher) (doc : document) (text : list ascii) :
  joined_text doc searchable_keys = Ok text ->
  exists (matched : bool) (details : match_details),
    is_match self doc = Ok (matched, details)
    /\ measure_keywords details = find_keyword_matches text (measure_group self)
    /\ product_keywords details = find_keyword_matches text (product_group self)
    /\ place_company_keywords details
       = find_keyword_matches text (place_company_group self)
    /\ (matched = true <->
        place_company_keywords details <> []
        /\ (measure_keywords details <> [] \/ product_keywords details <> []))
    /\ (place_company_keywords details <> [] ->
        measure_keywords details = [] -> product_keywords details = [] ->
        matched = false)
    /\ (place_company_keywords details = [] -> matched = false).
Proof.
  intros Htext. unfold is_match. rewrite Htext. cbn [rbind].
  eexists _, _. split; [reflexivity|].
  cbn [measure_keywords product_keywords place_company_keywords].
  do 3 (split; [reflexivity|]). split; [split|split].
  - intros [Hp Hm]%andb_true_iff. split; [by apply nonempty_true|].
    apply orb_true_iff in Hm as [Hm|Hm]; [left|right]; by apply nonempty_true.
  - intros [Hp Hm]. apply andb_true_iff. split; [by apply nonempty_true|].
    apply orb_true_iff. destruct Hm as [Hm|Hm]; [left|right]; by apply nonempty_true.
  - intros _ -> ->. simpl. apply andb_false_r.
  - intros ->. reflexivity.
Qed.

Lemma join_items_ok vs : forall i,
  Forall (fun v => is_str v = true) vs ->
  exists parts, join_items i vs = Ok parts.
Proof.
  induction vs as [|v vs IH]; intros i Hall; simpl.
  - by eexists.
  - inversion Hall as [|v' vs' Hv Hvs]; subst.
    destruct v as [|s]; [discriminate|]. simpl.
    destruct (IH (S i) Hvs) as [parts ->]. simpl. by eexists.
Qed.

Lemma joined_text_ok doc keys :
  Forall (fun k => fields doc !! k <> Some VNone) keys ->
  exists text, joined_text doc keys = Ok text.
Proof.
  intros Hall. unfold joined_text.
  destruct (join_items_ok (map (fun k => get_or doc k (VStr "")) keys) 0) as [parts ->].
  - apply Forall_map. eapply Forall_impl; [exact Hall|].
    intros k Hk. simpl in *. unfold get_or.
    destruct (fields doc !! k) as [[|s]|]; [by destruct Hk|done..].
  - by eexists.
Qed.

Lemma get_or_set_absent doc k k' :
  fields doc !! k = None ->
  get_or (set_field k (VStr "") doc) k' (VStr "") = get_or doc k' (VStr "").
Proof.
  intros Hk. unfold get_or, set_field. simpl.
  destruct (decide (k = k')) as [<-|Hne].
  - by rewrite lookup_insert_eq, Hk.
  - by rewrite lookup_insert_ne.
Qed.

Lemma joined_text_set_absent doc k keys :
  fields doc !! k = None ->
  joined_text (set_field k (VStr "") doc) keys = joined_text doc keys.
Proof.
  intros Hk. unfold joined_text. f_equal. f_equal.
  apply map_ext. intros k'. by apply get_or_set_absent.
Qed.

(** C8, amended.  On every record in which none of the five text entries
    holds [None], [is_match] returns a (bool, details) pair; an entry that
    is absent behaves as the empty string: setting it to [""] does not
    change the result. *)
Theorem is_match_total_on_strings (self : matcher) (doc : document) :
  Forall (fun k => fields doc !! k <> Some VNone) searchable_keys ->
  (exists (matched : bool) (details : match_details),
     is_match self doc = Ok (matched, details))
  /\ (forall k, fields doc !! k = None ->
      is_match self (set_field k (VStr "") doc) = is_match self doc).
Proof.
  intros Hall. split.
  - destruct (joined_text_ok doc searchable_keys Hall) as [text Htext].
    unfold is_match. rewrite Htext. simpl. by eexists _, _.
  - intros k Hk. unfold is_match. by rewrite joined_text_set_absent.
Qed.

End Decision.

(* ===================================================================== *)
(** ** Merging and cleaning *)
(* ===================================================================== *)

Section Identity.

Lemma truthy_VStr v : truthy v = true <-> exists x, v = VStr x /\ x <> "".
Proof.
  destruct v as [|[|a s]]; simpl; split; try done.
  - intros (x & [=] & _).
  - intros (x & [= <-] & Hx). done.
  - intros _. by eexists.
Qed.

Lemma member_iff v s : member v s = true <-> exists x, v = VStr x /\ x ∈ s.
Proof.
  destruct v as [|x]; simpl.
  - split; [done|]. by intros (x & [=] & _).
  - rewrite bool_decide_eq_true. split; [by eauto|]. by intros (y & [= <-] & H).
Qed.

Lemma member_empty v : member v ∅ = false.
Proof. destruct v as [|x]; [done|]. simpl. by apply bool_decide_eq_false. Qed.

Lemma elem_of_add_if y v s :
  y ∈ add_if v s <-> y ∈ s \/ (v = VStr y /\ y <> "").
Proof.
  destruct v as [|[|a x]]; simpl.
  - split; [by left|]. by intros [H|[[=] _]].
  - split; [by left|]. intros [H|[[= <-] H]]; done.
  - rewrite elem_of_union, elem_of_singleton. split.
    + intros [->|H]; [right|by left]. done.
    + intros [H|[[= <-] _]]; [by right|by left].
Qed.

Lemma add_if_union v s1 s2 : add_if v s1 ∪ s2 = s1 ∪ add_if v s2.
Proof.
  apply set_eq. intros y. rewrite !elem_of_union, !elem_of_add_if. tauto.
Qed.

Lemma add_if_member v s : truthy v = true -> member v s = true -> add_if v s = s.
Proof.
  intros Ht (x & -> & Hx)%member_iff. apply set_eq. intros y.
  rewrite elem_of_add_if. split; [|by left].
  intros [H|[[= <-] _]]; done.
Qed.

Lemma add_if_falsy v s : truthy v = false -> add_if v s = s.
Proof. destruct v as [|[|a x]]; simpl; done. Qed.

Lemma elem_of_key_set key docs y :
  y ∈ key_set key docs <->
  exists d, d ∈ docs /\ get d key = VStr y /\ y <> "".
Proof.
  induction docs as [|d docs IH]; simpl.
  - split; [by intros ?%elem_of_empty|]. by intros (d & ?%elem_of_nil & _).
  - rewrite elem_of_add_if, IH. split.
    + intros [(d' & Hd' & H)|H]; [exists d'|exists d]; split; auto; by constructor.
    + intros (d' & Hd' & H). apply elem_of_cons in Hd' as [->|Hd']; [by right|].
      left. eauto.
Qed.

Lemma key_set_app key l1 l2 :
  key_set key (l1 ++ l2) = key_set key l1 ∪ key_set key l2.
Proof.
  apply set_eq. intros y. rewrite elem_of_union, !elem_of_key_set.
  split.
  - intros (d & [Hd|Hd]%elem_of_app & H); [left|right]; eauto.
  - intros [(d & Hd & H)|(d & Hd & H)]; exists d; (split; [|done]);
      apply elem_of_app; auto.
Qed.

Lemma key_set_cons key d l : key_set key (d :: l) = add_if (get d key) (key_set key l).
Proof. reflexivity. Qed.

(** A value found in the key set of [seen] is the value of one of its
    documents, and conversely for truthy values. *)
Lemma member_key_set key seen v :
  truthy v = true ->
  member v (key_set key seen) = true <-> exists d, d ∈ seen /\ get d key = v.
Proof.
  intros Ht. rewrite member_iff. split.
  - intros (x & -> & (d & Hd & Hg & _)%elem_of_key_set). eauto.
  - intros (d & Hd & Hg). apply truthy_VStr in Ht as (x & -> & Hx).
    exists x. split; [done|]. apply elem_of_key_set. eauto.
Qed.

Lemma dedup_loop_cons dns titles doc rest :
  dedup_loop dns titles (doc :: rest) =
  if dup_test dns titles doc
  then dedup_loop dns titles rest
  else doc :: dedup_loop (add_if (get doc "DN") dns)
                         (add_if (get doc "TI") titles) rest.
Proof.
  unfold dup_test. simpl.
  destruct (truthy (get doc "DN") && member (get doc "DN") dns); [done|].
  simpl. by destruct (negb _ && _ && _).
Qed.

Lemma dedup_loop_snoc new : forall dns titles doc,
  dedup_loop dns titles (new ++ [doc]) =
  dedup_loop dns titles new
  ++ (if dup_test (dns ∪ key_set "DN" (dedup_loop dns titles new))
                  (titles ∪ key_set "TI" (dedup_loop dns titles new)) doc
      then [] else [doc]).
Proof.
  induction new as [|d new IH]; intros dns titles doc.
  - simpl app at 1. rewrite dedup_loop_cons. simpl.
    by rewrite !(right_id_L ∅ (∪)).
  - rewrite <- app_comm_cons, !dedup_loop_cons.
    destruct (dup_test dns titles d); [apply IH|].
    rewrite IH, !key_set_cons, !add_if_union. done.
Qed.

Lemma dup_test_iff existing kept doc :
  dup_test (key_set "DN" existing ∪ key_set "DN" kept)
           (key_set "TI" existing ∪ key_set "TI" kept) doc = true
  <-> duplicate_in (existing ++ kept) doc.
Proof.
  unfold dup_test, duplicate_in, has_number, has_title, same_number, same_title.
  rewrite <- !key_set_app. rewrite orb_true_iff, !andb_true_iff, negb_true_iff.
  split.
  - intros [[Ht Hm]|[[Hn Ht] Hm]]; [left|right].
    + split; [done|]. by apply member_key_set in Hm.
    + split; [by rewrite Hn|]. split; [done|]. by apply member_key_set in Hm.
  - intros [[Ht Hm]|(Hn & Ht & Hm)]; [left|right].
    + split; [done|]. by apply member_key_set.
    + split; [split; [by apply not_true_is_false|done]|]. by apply member_key_set.
Qed.

(** C3.  [_deduplicate_documents] keeps the candidates in order and
    decides each one against the existing corpus together with the
    candidates of the same batch kept so far: the candidate is dropped
    exactly when it has a number that one of those documents has, or has
    no number and a title that one of those documents has; otherwise it is
    kept, and from then on counts among the documents seen. *)
Theorem deduplicate_documents_drops_duplicates (existing : list document) :
  deduplicate_documents existing [] = []
  /\ forall (before : list document) (doc : document),
       let kept := deduplicate_documents existing before in
       (duplicate_in (existing ++ kept) doc ->
        deduplicate_documents existing (before ++ [doc]) = kept)
       /\ (~ duplicate_in (existing ++ kept) doc ->
           deduplicate_documents existing (before ++ [doc]) = kept ++ [doc]).
Proof.
  split; [done|]. intros before doc kept.
  unfold deduplicate_documents in *. rewrite dedup_loop_snoc. fold kept.
  pose proof (dup_test_iff existing kept doc) as Hiff.
  destruct (dup_test _ _ doc).
  - split; [intros _; apply app_nil_r|]. intros Hn. destruct Hn. by apply Hiff.
  - split; [|done]. intros Hd. apply Hiff in Hd. done.
Qed.


Lemma clean_loop_cons s t doc rest :
  clean_loop s t (doc :: rest) =
  if clean_test s t doc
  then clean_loop s t rest
  else doc :: clean_loop (add_if (get doc "DN") s)
                         (if truthy (get doc "DN") then t
                          else add_if (get doc "TI") t) rest.
Proof.
  unfold clean_test. simpl.
  destruct (truthy (get doc "DN")) eqn:Hn.
  - by destruct (member (get doc "DN") s).
  - rewrite (add_if_falsy _ s Hn).
    destruct (truthy (get doc "TI")) eqn:Ht.
    + by destruct (member (get doc "TI") t).
    + by rewrite (add_if_falsy _ t Ht).
Qed.

Lemma clean_test_dropped s t doc :
  clean_test s t doc = true ->
  add_if (get doc "DN") s = s
  /\ (if truthy (get doc "DN") then t else add_if (get doc "TI") t) = t.
Proof.
  unfold clean_test. destruct (truthy (get doc "DN")) eqn:Hn.
  - intros Hm. split; [by apply add_if_member|done].
  - destruct (truthy (get doc "TI")) eqn:Ht; [|done].
    intros Hm. split; [by apply add_if_falsy|by apply add_if_member].
Qed.

Lemma unnumbered_cons d docs :
  key_set "TI" (unnumbered (d :: docs)) =
  if truthy (get d "DN") then key_set "TI" (unnumbered docs)
  else add_if (get d "TI") (key_set "TI" (unnumbered docs)).
Proof. unfold unnumbered. simpl. by destruct (truthy (get d "DN")). Qed.

Lemma clean_loop_snoc docs : forall s t doc,
  clean_loop s t (docs ++ [doc]) =
  clean_loop s t docs
  ++ (if clean_test (s ∪ key_set "DN" docs)
                    (t ∪ key_set "TI" (unnumbered docs)) doc
      then [] else [doc]).
Proof.
  induction docs as [|d docs IH]; intros s t doc.
  - simpl app at 1. rewrite clean_loop_cons. simpl.
    rewrite !(right_id_L ∅ (∪)). by destruct (clean_test s t doc).
  - rewrite <- app_comm_cons, !clean_loop_cons, key_set_cons, unnumbered_cons.
    rewrite <- add_if_union.
    assert (Ht : (if truthy (get d "DN") then t else add_if (get d "TI") t)
                 ∪ key_set "TI" (unnumbered docs)
                 = t ∪ (if truthy (get d "DN") then key_set "TI" (unnumbered docs)
                        else add_if (get d "TI") (key_set "TI" (unnumbered docs)))).
    { destruct (truthy (get d "DN")); [done|apply add_if_union]. }
    rewrite <- Ht.
    destruct (clean_test s t d) eqn:Hd.
    + apply clean_test_dropped in Hd as [-> ->]. apply IH.
    + by rewrite IH.
Qed.

Lemma clean_existing_duplicates_loop docs :
  clean_existing_duplicates docs = clean_loop ∅ ∅ docs.
Proof. by destruct docs. Qed.

Lemma elem_of_unnumbered d docs :
  d ∈ unnumbered docs <-> d ∈ docs /\ ~ has_number d.
Proof.
  unfold unnumbered, has_number. rewrite !list_elem_of_In, filter_In, negb_true_iff.
  by rewrite not_true_iff_false.
Qed.

Lemma clean_test_iff before doc :
  clean_test (∅ ∪ key_set "DN" before) (∅ ∪ key_set "TI" (unnumbered before)) doc
  = true
  <-> duplicate_in_clean before doc.
Proof.
  rewrite !(left_id_L ∅ (∪)).
  unfold clean_test, duplicate_in_clean, has_number, has_title, same_number,
    same_title.
  destruct (truthy (get doc "DN")) eqn:Hn.
  - rewrite member_key_set by done. split; [by left|].
    by intros [[_ H]|[H _]].
  - destruct (truthy (get doc "TI")) eqn:Ht.
    + rewrite member_key_set by done. split.
      * intros (d & [Hd Hk]%elem_of_unnumbered & Hg). right.
        split; [done|]. split; [done|]. eauto.
      * intros [[H _]|(_ & _ & d & Hd & Hk & Hg)]; [done|].
        exists d. split; [|done]. by apply elem_of_unnumbered.
    + split; [done|]. by intros [[H _]|(_ & H & _)].
Qed.

(** C10.  [_clean_existing_duplicates] drops a document exactly when an
    earlier document of the corpus has its number, or when it has no
    number and an earlier document without a number has its title.  A
    numbered document does not lend its title: an unnumbered document that
    repeats the title of an earlier numbered one is kept by the clean-up,
    while [_deduplicate_documents] drops it from the same batch. *)
Theorem clean_existing_duplicates_keeps_first :
  (forall (before : list document) (doc : document),
     let kept := clean_existing_duplicates before in
     (duplicate_in_clean before doc ->
      clean_existing_duplicates (before ++ [doc]) = kept)
     /\ (~ duplicate_in_clean before doc ->
         clean_existing_duplicates (before ++ [doc]) = kept ++ [doc]))
  /\ (forall numbered unnumbered_doc : document,
        has_number numbered -> ~ has_number unnumbered_doc ->
        has_title unnumbered_doc -> same_title numbered unnumbered_doc ->
        clean_existing_duplicates [numbered; unnumbered_doc]
          = [numbered; unnumbered_doc]
        /\ deduplicate_documents [] [numbered; unnumbered_doc] = [numbered]).
Proof.
  split.
  - intros before doc kept. unfold kept.
    rewrite !clean_existing_duplicates_loop, clean_loop_snoc.
    pose proof (clean_test_iff before doc) as Hiff.
    destruct (clean_test _ _ doc).
    + split; [intros _; apply app_nil_r|]. intros Hn. destruct Hn. by apply Hiff.
    + split; [|done]. intros Hd. apply Hiff in Hd. done.
  - intros a b Ha Hb Ht Hsame. split.
    + pose proof (clean_existing_duplicates_loop [a; b]) as ->.
      change [a; b] with ([a] ++ [b]). rewrite clean_loop_snoc.
      pose proof (clean_test_iff [a] b) as Hiff.
      destruct (clean_test _ _ b).
      * destruct Hiff as [Hiff _]. destruct (Hiff eq_refl) as [[H _]|(_ & _ & d & Hd & Hk & _)].
        -- done.
        -- apply list_elem_of_singleton in Hd as ->. done.
      * rewrite clean_loop_cons. unfold clean_test at 1.
        unfold has_number in Ha. by rewrite Ha, member_empty.
    + unfold deduplicate_documents. change [a; b] with ([a] ++ [b]).
      rewrite dedup_loop_snoc, dedup_loop_cons.
      assert (Hfresh : dup_test (key_set "DN" []) (key_set "TI" []) a = false).
      { unfold dup_test. simpl. by rewrite !member_empty, !andb_false_r. }
      rewrite Hfresh. simpl dedup_loop.
      pose proof (dup_test_iff [] [a] b) as Hiff. simpl app in Hiff.
      destruct (dup_test _ _ b); [done|].
      destruct Hiff as [_ Hiff]. discriminate Hiff.
      right. split; [done|]. split; [done|]. exists a. split; [by constructor|done].
Qed.

End Identity.

(* ===================================================================== *)
(** ** Planning and the run *)
(* ===================================================================== *)

Section Calendar.

Local Open Scope Z_scope.

Lemma within_iff lo hi n : within lo hi n = true <-> lo <= n <= hi.
Proof. unfold within. rewrite andb_true_iff, !Z.leb_le. tauto. Qed.

Lemma strptime_well_formed s d : strptime s = Some d -> well_formed d.
Proof.
  unfold strptime, well_formed. intros H.
  destruct (chars s) as [|y1 [|y2 [|y3 [|y4 [|c rest]]]]]; try discriminate.
  destruct (digit y1), (digit y2), (digit y3), (digit y4); try discriminate.
  destruct (Ascii.eqb c dash); [|discriminate].
  destruct (parse_month rest) as [[m rest']|]; [|discriminate].
  destruct (parse_day rest') as [dd|]; [|discriminate].
  destruct (valid_date _ m dd) eqn:Hv; [|discriminate].
  by injection H as <-.
Qed.

Lemma days_before_next_year y :
  days_before_year (y + 1) =
  days_before_year y + 365 + (if is_leap y then 1 else 0).
Proof.
  unfold days_before_year, is_leap.
  replace (y + 1 - 1) with y by lia.
  destruct (y mod 4 =? 0) eqn:H4; destruct (y mod 100 =? 0) eqn:H100;
    destruct (y mod 400 =? 0) eqn:H400; simpl;
    rewrite ?Z.eqb_eq, ?Z.eqb_neq in *;
    Z.div_mod_to_equations; lia.
Qed.

Lemma add_one_day_next d :
  well_formed d -> d <> Date 9999 12 31 ->
  exists next,
    add_one_day d = Ok next
    /\ toordinal next = toordinal d + 1
    /\ well_formed next.
Proof.
  destruct d as [y m dd]. unfold well_formed, valid_date, add_one_day, toordinal.
  simpl. rewrite !andb_true_iff, !within_iff. intros [[Hy Hm] Hd] Hmax.
  assert (Hcases : m = 1 \/ m = 2 \/ m = 3 \/ m = 4 \/ m = 5 \/ m = 6 \/ m = 7
                   \/ m = 8 \/ m = 9 \/ m = 10 \/ m = 11 \/ m = 12) by lia.
  destruct (dd <? days_in_month y m) eqn:Hlt.
  - apply Z.ltb_lt in Hlt. eexists. split; [done|]. simpl.
    rewrite !andb_true_iff, !within_iff. lia.
  - apply Z.ltb_ge in Hlt. assert (dd = days_in_month y m) as -> by lia.
    destruct (m <? 12) eqn:Hm12.
    + apply Z.ltb_lt in Hm12. eexists. split; [done|]. simpl.
      rewrite !andb_true_iff, !within_iff.
      split; [|split; [lia|]].
      * unfold days_before_month, days_in_month.
        destruct Hcases as [->|[->|[->|[->|[->|[->|[->|[->|[->|[->|[->| ->]]]]]]]]]]];
          simpl; try lia; destruct (is_leap y); lia.
      * unfold days_in_month.
        destruct Hcases as [->|[->|[->|[->|[->|[->|[->|[->|[->|[->|[->| ->]]]]]]]]]]];
          simpl; try lia; destruct (is_leap y); lia.
    + apply Z.ltb_ge in Hm12. assert (m = 12) as -> by lia. simpl in *.
      destruct (y <? 9999) eqn:Hy9.
      * apply Z.ltb_lt in Hy9. eexists. split; [done|]. simpl.
        rewrite !andb_true_iff, !within_iff. split; [|lia].
        rewrite days_before_next_year. unfold days_before_month, days_in_month.
        simpl. destruct (is_leap y); lia.
      * apply Z.ltb_ge in Hy9. destruct Hmax. f_equal. lia.
Qed.

End Calendar.

Section Frame.

Lemma same_store_refl w : same_store w w.
Proof. by repeat split. Qed.

Lemma same_store_trans w1 w2 w3 :
  same_store w1 w2 -> same_store w2 w3 -> same_store w1 w3.
Proof.
  intros (? & ? & ? & ? & ?) (? & ? & ? & ? & ?). repeat split; congruence.
Qed.

Lemma same_store_tick w : same_store w (tick w).
Proof. by repeat split. Qed.

Lemma same_store_logger l msg w : same_store w (logger l msg w).
Proof. by repeat split. Qed.

Lemma same_store_record_call c w : same_store w (record_call c w).
Proof. by repeat split. Qed.

Lemma quiet_ret {A} (a : A) : quiet (ret a).
Proof. intros w r w' [= <- <-]. apply same_store_refl. Qed.

Lemma quiet_lift {A} (r : result A) : quiet (lift r).
Proof. intros w r' w' [= <- <-]. apply same_store_refl. Qed.

Lemma quiet_now e : quiet (now e).
Proof. intros w r w' [= <- <-]. apply same_store_tick. Qed.

Lemma quiet_log l msg : quiet (effect (logger l msg)).
Proof. intros w r w' [= <- <-]. apply same_store_logger. Qed.

Lemma quiet_bind {A B} (m : M A) (k : A -> M B) :
  quiet m -> (forall a, quiet (k a)) -> quiet (bind m k).
Proof.
  intros Hm Hk w r w' H. unfold bind in H.
  destruct (m w) as [[a|x] w1] eqn:E.
  - eapply same_store_trans; [by eapply Hm|by eapply Hk].
  - injection H as <- <-. by eapply Hm.
Qed.

Lemma quiet_load_results : quiet load_results.
Proof.
  intros w r w' H. unfold load_results in H.
  destruct (results_file w); injection H as <- <-;
    auto using same_store_refl, same_store_logger.
Qed.

Lemma quiet_load_state : quiet load_state.
Proof.
  intros w r w' H. unfold load_state in H.
  destruct (state_file w); injection H as <- <-;
    auto using same_store_refl, same_store_logger.
Qed.

Lemma quiet_search e a b n : quiet (search_trade_regulations e a b n).
Proof. intros w r w' [= <- <-]. apply same_store_record_call. Qed.

Lemma quiet_get_date_range e : quiet (get_date_range e).
Proof.
  unfold get_date_range. apply quiet_bind; [apply quiet_load_state|].
  intros state. apply quiet_bind; [|intros; apply quiet_ret].
  destruct (last_checked_date state) as [|[|c s]]; try apply quiet_ret.
  destruct (strptime _); [apply quiet_lift|].
  apply quiet_bind; [apply quiet_log|intros; apply quiet_ret].
Qed.

Lemma quiet_plan_window e f c : quiet (plan_window e f c).
Proof.
  unfold plan_window. destruct c; [apply quiet_ret|].
  destruct f; [apply quiet_ret|apply quiet_get_date_range].
Qed.

Lemma quiet_enrich_document e self doc : quiet (enrich_document e self doc).
Proof.
  unfold enrich_document. apply quiet_bind; [apply quiet_now|].
  intros stamp. apply quiet_bind; [apply quiet_lift|].
  intros entities. apply quiet_ret.
Qed.

Lemma quiet_enrich_documents e self docs : quiet (enrich_documents e self docs).
Proof.
  induction docs as [|doc docs IH]; simpl; [apply quiet_ret|].
  apply quiet_bind; [apply quiet_enrich_document|].
  intros doc'. apply quiet_bind; [apply IH|]. intros; apply quiet_ret.
Qed.

Lemma never_raises_ret {A} (a : A) : never_raises (ret a).
Proof. intros w. by eexists _, _. Qed.

Lemma never_raises_now e : never_raises (now e).
Proof. intros w. by eexists _, _. Qed.

Lemma never_raises_bind {A B} (m : M A) (k : A -> M B) :
  never_raises m -> (forall a, never_raises (k a)) -> never_raises (bind m k).
Proof.
  intros Hm Hk w. destruct (Hm w) as (a & w1 & E). unfold bind. rewrite E.
  apply Hk.
Qed.

Lemma never_raises_load_results : never_raises load_results.
Proof.
  intros w. unfold load_results. destruct (results_file w); by eexists _, _.
Qed.

Lemma never_raises_load_state : never_raises load_state.
Proof.
  intros w. unfold load_state. destruct (state_file w); by eexists _, _.
Qed.

Lemma never_raises_save_results docs : never_raises (save_results docs).
Proof.
  intros w. unfold save_results. simpl.
  destruct (results_writable w); by eexists _, _.
Qed.

Lemma never_raises_save_state st : never_raises (save_state st).
Proof.
  intros w. unfold save_state. simpl.
  destruct (state_writable w); by eexists _, _.
Qed.

Lemma clean_raise_quiet {A} (m : M A) : quiet m -> clean_raise m.
Proof. intros H w x w' E. by eapply H. Qed.

Lemma clean_raise_never {A} (m : M A) : never_raises m -> clean_raise m.
Proof. intros H w x w' E. destruct (H w) as (a & w1 & E'). congruence. Qed.

Lemma clean_raise_after_quiet {A B} (m : M A) (k : A -> M B) :
  quiet m -> (forall a, clean_raise (k a)) -> clean_raise (bind m k).
Proof.
  intros Hm Hk w x w' H. unfold bind in H.
  destruct (m w) as [[a|y] w1] eqn:E.
  - eapply same_store_trans; [by eapply Hm|by eapply Hk].
  - injection H as <- <-. by eapply Hm.
Qed.

Lemma clean_raise_before_total {A B} (m : M A) (k : A -> M B) :
  clean_raise m -> (forall a, never_raises (k a)) -> clean_raise (bind m k).
Proof.
  intros Hm Hk w x w' H. unfold bind in H.
  destruct (m w) as [[a|y] w1] eqn:E.
  - destruct (Hk a w1) as (b & w2 & E'). congruence.
  - injection H as <- <-. by eapply Hm.
Qed.

(** Whenever the [try] block raises, the data directory is as the run
    found it. *)
Lemma clean_raise_scrape_body e self f c : clean_raise (scrape_body e self f c).
Proof.
  unfold scrape_body.
  apply clean_raise_after_quiet; [apply quiet_plan_window|].
  intros [from_d to_d]. destruct (date_gt from_d to_d).
  - apply clean_raise_never.
    apply never_raises_bind; [apply never_raises_load_results|]. intros existing.
    apply never_raises_bind; [apply never_raises_now|]. intros stamp.
    apply never_raises_bind; [apply never_raises_save_state|]. intros _.
    apply never_raises_ret.
  - apply clean_raise_after_quiet; [apply quiet_search|]. intros raw.
    apply clean_raise_after_quiet; [apply quiet_lift|]. intros matched.
    apply clean_raise_after_quiet; [apply quiet_enrich_documents|]. intros enriched.
    apply clean_raise_after_quiet; [apply quiet_load_results|]. intros loaded.
    apply clean_raise_before_total.
    + destruct (deduplicate_documents _ enriched); [apply clean_raise_never, never_raises_ret|].
      apply clean_raise_after_quiet; [apply quiet_lift|]. intros sorted.
      apply clean_raise_never.
      apply never_raises_bind; [apply never_raises_save_results|]. intros _.
      apply never_raises_ret.
    + intros all_results.
      apply never_raises_bind; [apply never_raises_now|]. intros stamp.
      apply never_raises_bind; [apply never_raises_save_state|]. intros _.
      apply never_raises_bind; [apply never_raises_now|]. intros finished.
      apply never_raises_ret.
Qed.

(** C6, amended.  When the [try] block of [scrape] raises, the run reports
    status [error] with the text of the exception; no save has been
    called, and the corpus file and the state file are as the run found
    them.  The four store helpers never raise: a failed read or write is
    logged inside the helper. *)
Theorem scrape_failure_leaves_store
    (e : env) (self : matcher) (force_full_2024 force_current_year : bool)
    (w w1 : world) (x : exn) :
  scrape_body e self force_full_2024 force_current_year (tick w)
    = (Raise x, w1) ->
  let '(rep, w') := scrape e self force_full_2024 force_current_year w in
  status_of rep = error
  /\ error_text rep = Some (exn_msg x)
  /\ message rep = "Scraping failed: " +:+ exn_msg x
  /\ results_file w' = results_file w
  /\ state_file w' = state_file w
  /\ store_requests w' = store_requests w
  /\ (forall docs, never_raises (save_results docs))
  /\ (forall state, never_raises (save_state state))
  /\ never_raises load_results
  /\ never_raises load_state.
Proof.
  intros Hbody. unfold scrape. rewrite Hbody.
  apply clean_raise_scrape_body in Hbody as (Hr & Hs & _ & _ & Hq).
  repeat split; try done.
  - apply never_raises_save_results.
  - apply never_raises_save_state.
  - apply never_raises_load_results.
  - apply never_raises_load_state.
Qed.


Lemma bind_Ok_inv {A B} (m : M A) (k : A -> M B) w b w' :
  bind m k w = (Ok b, w') ->
  exists a w1, m w = (Ok a, w1) /\ k a w1 = (Ok b, w').
Proof.
  unfold bind. destruct (m w) as [[a|x] w1]; [eauto|discriminate].
Qed.

Lemma load_state_result w : fst (load_state w) = Ok (stored_state w).
Proof. unfold load_state, stored_state. by destruct (state_file w). Qed.

Lemma load_results_result w : fst (load_results w) = Ok (stored_corpus w).
Proof. unfold load_results, stored_corpus. by destruct (results_file w). Qed.

Lemma get_date_range_unfold e w :
  get_date_range e w =
  (let '(r, w1) := load_state w in
   match last_checked_date (stored_state w) with
   | VStr (String _ _ as text) =>
       match strptime text with
       | Some last =>
           match add_one_day last with
           | Ok next => (Ok (next, today e), w1)
           | Raise x => (Raise x, w1)
           end
       | None =>
           (Ok (epoch_start, today e),
            logger WARNING
              "Invalid last_checked_date in state, starting from 2024" w1)
       end
   | _ => (Ok (epoch_start, today e), w1)
   end).
Proof.
  unfold get_date_range, bind. pose proof (load_state_result w) as Hl.
  destruct (load_state w) as [r w1]. simpl in Hl. subst r.
  destruct (last_checked_date (stored_state w)) as [|[|c s]]; try done.
  destruct (strptime (String c s)) as [last|]; [|done].
  unfold lift. by destruct (add_one_day last).
Qed.

(** C4, amended.  For a state whose watermark is [None] or a string: with
    no override flag the planned window (the one of [_get_date_range]) has
    [to_date = today], and as [from_date]: the day after the watermark
    when the watermark parses as a date other than 9999-12-31; 2024-01-01
    when the watermark is absent or empty; 2024-01-01 when it is an ASCII
    string that does not parse, with a warning logged and nothing
    raised. *)
Theorem get_date_range_window (e : env) (w : world) :
  (forall text last,
     watermark w = VStr text -> strptime text = Some last ->
     last <> Date 9999 12 31 ->
     exists next,
       fst (plan_window e false false w) = Ok (next, today e)
       /\ toordinal next = (toordinal last + 1)%Z
       /\ well_formed next)
  /\ (truthy (watermark w) = false ->
      fst (plan_window e false false w) = Ok (epoch_start, today e))
  /\ (forall text,
        watermark w = VStr text -> ascii_only (chars text) = true ->
        strptime text = None ->
        fst (plan_window e false false w) = Ok (epoch_start, today e)
        /\ (text <> "" ->
            (WARNING, "Invalid last_checked_date in state, starting from 2024")
              ∈ log (snd (plan_window e false false w)))).
Proof.
  unfold watermark, plan_window. rewrite get_date_range_unfold.
  destruct (load_state w) as [r w1]. split; [|split].
  - intros text last Hw Hp Hmax. rewrite Hw.
    destruct text as [|c s]; [discriminate|]. rewrite Hp.
    destruct (add_one_day_next last) as (next & -> & Hord & Hwf);
      [by eapply strptime_well_formed|done|].
    by exists next.
  - intros Hf. by destruct (last_checked_date (stored_state w)) as [|[|c s]].
  - intros text Hw _ Hp. rewrite Hw. destruct text as [|c s]; [done|].
    rewrite Hp. split; [done|]. intros _. simpl. by left.
Qed.

Lemma plan_window_frame e f c w r w' :
  plan_window e f c w = (r, w') -> only_logged w w'.
Proof.
  intros H. split; [by eapply quiet_plan_window|].
  unfold plan_window in H. destruct c; [by injection H as <- <-|].
  destruct f; [by injection H as <- <-|].
  rewrite get_date_range_unfold in H. unfold load_state in H.
  destruct (state_file w);
    destruct (last_checked_date _) as [|[|a s]]; try (by injection H as <- <-);
    destruct (strptime _); try (by injection H as <- <-);
    destruct (add_one_day _); by injection H as <- <-.
Qed.

Lemma load_results_frame w :
  exists w', load_results w = (Ok (stored_corpus w), w') /\ only_logged w w'.
Proof.
  unfold load_results, stored_corpus.
  destruct (results_file w) eqn:E; eexists; (split; [reflexivity|]);
    repeat split; done.
Qed.



Section Ordering.

Lemma ltb_leb a b : String.ltb a b = true -> String.leb a b = true.
Proof. unfold String.ltb, String.leb. by destruct (String.compare a b). Qed.

Lemma not_ltb_leb a b : String.ltb a b = false -> String.leb b a = true.
Proof.
  unfold String.ltb, String.leb. rewrite (String.compare_antisym a b).
  by destruct (String.compare b a).
Qed.

Lemma insert_newest_first_perm doc sorted :
  insert_newest_first doc sorted ≡ₚ doc :: sorted.
Proof.
  induction sorted as [|other rest IH]; simpl; [done|].
  destruct (String.ltb _ _); [|done]. rewrite IH. apply Permutation_swap.
Qed.

Lemma stable_sort_newest_first_perm docs :
  stable_sort_newest_first docs ≡ₚ docs.
Proof.
  induction docs as [|doc docs IH]; simpl; [done|].
  rewrite insert_newest_first_perm. by rewrite IH.
Qed.

Lemma insert_newest_first_sorted doc sorted :
  Sorted not_older sorted -> Sorted not_older (insert_newest_first doc sorted).
Proof.
  induction 1 as [|other rest Hs IH Hhd]; simpl.
  - repeat constructor.
  - destruct (String.ltb (key_text doc) (key_text other)) eqn:Hlt.
    + constructor; [done|].
      destruct Hhd as [|next rest Hnext]; simpl.
      * constructor. by apply ltb_leb.
      * destruct (String.ltb (key_text doc) (key_text next));
          constructor; [done|by apply ltb_leb].
    + constructor; [by constructor|]. constructor. by apply not_ltb_leb.
Qed.

Lemma stable_sort_newest_first_sorted docs :
  Sorted not_older (stable_sort_newest_first docs).
Proof.
  induction docs as [|doc docs IH]; simpl; [constructor|].
  by apply insert_newest_first_sorted.
Qed.

Lemma ltb_irrefl a : String.ltb a a = false.
Proof.
  unfold String.ltb. pose proof (String.compare_antisym a a) as H.
  by destruct (String.compare a a).
Qed.

(** Documents of one publication date keep the order they had. *)
Lemma insert_newest_first_stable key doc sorted :
  List.filter (fun d => String.eqb (key_text d) key)
              (insert_newest_first doc sorted)
  = List.filter (fun d => String.eqb (key_text d) key) (doc :: sorted).
Proof.
  induction sorted as [|other rest IH]; [done|].
  cbn [insert_newest_first].
  destruct (String.ltb (key_text doc) (key_text other)) eqn:Hlt; [|done].
  cbn [List.filter] in *. rewrite IH.
  destruct (String.eqb (key_text doc) key) eqn:Hd; [|done].
  destruct (String.eqb (key_text other) key) eqn:Ho; [|done].
  apply String.eqb_eq in Hd, Ho. rewrite Hd, Ho in Hlt.
  by rewrite ltb_irrefl in Hlt.
Qed.

Lemma stable_sort_newest_first_stable key docs :
  List.filter (fun d => String.eqb (key_text d) key)
              (stable_sort_newest_first docs)
  = List.filter (fun d => String.eqb (key_text d) key) docs.
Proof.
  induction docs as [|doc docs IH]; [done|].
  cbn [stable_sort_newest_first foldr].
  rewrite insert_newest_first_stable. cbn [List.filter].
  fold (stable_sort_newest_first docs). by rewrite IH.
Qed.

Lemma sort_newest_first_Ok docs sorted :
  sort_newest_first docs = Ok sorted -> sorted = stable_sort_newest_first docs.
Proof.
  unfold sort_newest_first. destruct (_ || _); [|discriminate].
  by intros [= <-].
Qed.

End Ordering.

Section Run.

Lemma advances_bind {A B} (m : M A) (k : A -> M B) :
  advances m -> (forall a, advances (k a)) -> advances (bind m k).
Proof.
  intros Hm Hk w r w' H. unfold bind in H.
  destruct (m w) as [[a|x] w1] eqn:E.
  - etrans; [by eapply Hm|by eapply Hk].
  - injection H as <- <-. by eapply Hm.
Qed.

Lemma advances_enrich_documents e self docs :
  advances (enrich_documents e self docs).
Proof.
  induction docs as [|doc docs IH]; simpl.
  - by intros w r w' [= <- <-].
  - apply advances_bind.
    + unfold enrich_document. apply advances_bind.
      * intros w r w' [= <- <-]. simpl. lia.
      * intros stamp. apply advances_bind; [by intros w r w' [= <- <-]|].
        intros entities. by intros w r w' [= <- <-].
    + intros doc'. apply advances_bind; [apply IH|].
      by intros rest w r w' [= <- <-].
Qed.

Lemma plan_window_today e f c w from_d to_d w1 :
  plan_window e f c w = (Ok (from_d, to_d), w1) -> to_d = today e.
Proof.
  unfold plan_window. destruct c; [by intros [= _ <- _]|].
  destruct f; [by intros [= _ <- _]|].
  rewrite get_date_range_unfold. destruct (load_state w) as [r w0].
  destruct (last_checked_date _) as [|[|a s]]; try (by intros [= _ <- _]).
  destruct (strptime _); try (by intros [= _ <- _]).
  destruct (add_one_day _); [by intros [= _ <- _]|discriminate].
Qed.

(** C7, amended.  After a successful run, let [existing] be the stored
    corpus after the clean-up, [unique_new] the enriched matches of the
    gateway's answer that the merge keeps, and [merged] be
    [existing ++ unique_new].
    The run saves the state with [last_checked_date = today], a clock
    reading of this run and the length of [merged]; when [unique_new] is
    not empty it first saves [merged] in stable descending order of
    publication date: sorted, a permutation of [merged] in which the
    documents of one date keep their order.  Each save reaches its file
    when that file can be written; nothing is said of a file whose write
    fails.  When [unique_new] is empty the corpus is not saved and its
    file is left as it was. *)
Theorem scrape_success_persists
    (e : env) (self : matcher) (force_full_2024 force_current_year : bool)
    (w : world) :
  let '(rep, w') := scrape e self force_full_2024 force_current_year w in
  status_of rep = success ->
  exists (from_d : date) (raw matched enriched : list document)
         (w3 : world) (k : nat),
    let existing := clean_existing_duplicates (stored_corpus w) in
    let unique_new := deduplicate_documents existing enriched in
    let merged := existing ++ unique_new in
    let sorted := stable_sort_newest_first merged in
    let new_state :=
      {| last_checked_date := VStr (isoformat (today e));
         last_run := VStr (clock e k);
         total_documents := length merged |} in
    gateway e from_d (today e) 10 = Ok raw
    /\ filter_documents self raw = Ok matched
    /\ fst (enrich_documents e self matched w3) = Ok enriched
    /\ ticks w < k
    /\ to_date rep = Some (isoformat (today e))
    /\ new_documents rep = Some (length unique_new)
    /\ reported_total_documents rep = Some (length merged)
    /\ Sorted not_older sorted
    /\ sorted ≡ₚ merged
    /\ (forall date,
         List.filter (fun d => String.eqb (key_text d) date) sorted
         = List.filter (fun d => String.eqb (key_text d) date) merged)
    /\ store_requests w' =
         SaveState new_state
         :: match unique_new with
            | [] => store_requests w
            | _ :: _ => SaveResults sorted :: store_requests w
            end
    /\ (state_writable w = true -> state_file w' = Stored new_state)
    /\ (unique_new <> [] -> results_writable w = true ->
        results_file w' = Stored sorted
        /\ total_documents new_state = length (stored_corpus w'))
    /\ (unique_new = [] -> results_file w' = results_file w).
Proof.
  unfold scrape.
  destruct (scrape_body _ _ _ _ (tick w)) as [[rep|x] w'] eqn:Hbody;
    [|discriminate].
  intros Hstatus. unfold scrape_body in Hbody.
  apply bind_Ok_inv in Hbody as ([from_d to_d] & w1 & Hplan & Hbody).
  pose proof (plan_window_today _ _ _ _ _ _ _ Hplan) as ->.
  apply plan_window_frame in Hplan as (Hs1 & Ht1 & _).
  destruct (date_gt from_d (today e)).
  { apply bind_Ok_inv in Hbody as (? & ? & _ & Hbody).
    apply bind_Ok_inv in Hbody as (? & ? & _ & Hbody).
    apply bind_Ok_inv in Hbody as (? & ? & _ & Hbody).
    injection Hbody as <- _. discriminate. }
  apply bind_Ok_inv in Hbody as (raw & w2 & Hsearch & Hbody).
  apply bind_Ok_inv in Hbody as (matched & w3 & Hfilter & Hbody).
  apply bind_Ok_inv in Hbody as (enriched & w4 & Henrich & Hbody).
  apply bind_Ok_inv in Hbody as (loaded & w5x & Hload & Hbody).
  apply bind_Ok_inv in Hbody as (all_results & w6 & Hmid & Hbody).
  apply bind_Ok_inv in Hbody as (stamp & w7 & Hnow & Hbody).
  apply bind_Ok_inv in Hbody as ([] & w8 & Hsave & Hbody).
  apply bind_Ok_inv in Hbody as (finished & w9 & Hnow2 & Hbody).
  injection Hbody as <- <-. clear Hstatus.
  assert (Hgw : gateway e from_d (today e) 10 = Ok raw)
    by (by injection Hsearch).
  assert (Hfl : filter_documents self raw = Ok matched)
    by (by injection Hfilter).
  assert (Hen : fst (enrich_documents e self matched w3) = Ok enriched)
    by (by rewrite Henrich).
  (* the store is untouched up to the load *)
  pose proof (quiet_search _ _ _ _ _ _ _ Hsearch) as Hs2.
  pose proof (quiet_lift _ _ _ _ Hfilter) as Hs3.
  pose proof (quiet_enrich_documents _ _ _ _ _ _ Henrich) as Hs4.
  destruct (load_results_frame w4) as (w5 & Hload' & Hs5 & Ht5 & _).
  rewrite Hload' in Hload. injection Hload as <- <-.
  assert (Hs04 : same_store w w4).
  { apply (same_store_trans _ (tick w)); [apply same_store_tick|].
    apply (same_store_trans _ w1); [done|].
    apply (same_store_trans _ w2); [done|].
    by apply (same_store_trans _ w3). }
  assert (Hs : same_store w w5) by by apply (same_store_trans _ w4).
  destruct Hs as (Hrf & Hsf & Hrw5 & Hsw5 & Hreq).
  assert (Hcorpus : stored_corpus w4 = stored_corpus w).
  { unfold stored_corpus. by rewrite (proj1 Hs04). }
  rewrite Hcorpus in *.
  (* the clock has only moved on *)
  assert (Hticks : ticks w < ticks w5).
  { injection Hsearch as _ <-. injection Hfilter as _ <-.
    apply advances_enrich_documents in Henrich. simpl in *. lia. }
  set (existing := clean_existing_duplicates (stored_corpus w)) in *.
  set (unique_new := deduplicate_documents existing enriched) in *.
  injection Hnow as <- <-. injection Hnow2 as <- <-.
  unfold save_state in Hsave.
  exists from_d, raw, matched, enriched, w3, (ticks w5).
  fold existing. fold unique_new.
  pose proof (stable_sort_newest_first_perm (existing ++ unique_new)) as Hperm.
  pose proof (stable_sort_newest_first_sorted (existing ++ unique_new)) as Hsorted.
  pose proof (fun date =>
    stable_sort_newest_first_stable date (existing ++ unique_new)) as Hstable.
  destruct unique_new as [|doc unique_rest] eqn:Hnew.
  - injection Hmid as <- <-. simpl in Hsave. rewrite Hsw5 in Hsave.
    rewrite app_nil_r in *. cbn zeta.
    destruct (state_writable w); injection Hsave as <-; simpl;
      rewrite Hreq; repeat split; done.
  - apply bind_Ok_inv in Hmid as (sorted & w5a & Hsort & Hmid).
    injection Hsort as Hsort <-. apply sort_newest_first_Ok in Hsort as ->.
    apply bind_Ok_inv in Hmid as ([] & w5b & Hsaver & Hmid).
    injection Hmid as <- <-. unfold save_results in Hsaver.
    simpl in Hsaver. rewrite Hrw5 in Hsaver.
    cbn zeta. rewrite (Permutation_length Hperm) in *.
    destruct (results_writable w); injection Hsaver as <-;
      simpl in Hsave; rewrite Hsw5 in Hsave;
      destruct (state_writable w); injection Hsave as <-; simpl;
      rewrite Hreq; repeat split; try done;
      unfold stored_corpus; simpl; by rewrite (Permutation_length Hperm).
Qed.

Lemma get_set_field key v doc : get (set_field key v doc) key = v.
Proof. unfold get, get_or, set_field. simpl. by rewrite lookup_insert_eq. Qed.

Lemma get_set_field_ne key key' v doc :
  key <> key' -> get (set_field key v doc) key' = get doc key'.
Proof. intros Hne. unfold get, get_or, set_field. simpl. by rewrite lookup_insert_ne. Qed.

(** The loop body of [_enrich_documents] always stamps the document with
    the current reading of the clock. *)
Lemma enrich_document_restamps
    (e : env) (self : matcher) (doc doc' : document) (w w' : world) :
  enrich_document e self doc w = (Ok doc', w') ->
  get doc' "scraped_at" = VStr (clock e (ticks w)).
Proof.
  unfold enrich_document. intros H.
  apply bind_Ok_inv in H as (stamp & w1 & Hnow & H).
  injection Hnow as <- <-.
  apply bind_Ok_inv in H as (entities & w2 & _ & H).
  injection H as <- _.
  destruct (truthy _);
    rewrite ?get_set_field_ne by done; unfold set_products, set_companies, get, get_or;
    simpl; rewrite ?lookup_insert_ne by done; by rewrite lookup_insert_eq.
Qed.

End Run.

End Frame.

(* ===================================================================== *)
(** ** The statements at sample inputs *)
(* ===================================================================== *)

Section AtSamples.

Import Samples.

Lemma configured_keywords_have_no_wildcard :
  forallb (fun k => negb (has_wildcard (normalize_text (chars k))))
          (measure_group configured ++ product_group configured
           ++ place_company_group configured) = true.
Proof. vm_compute. reflexivity. Qed.

(** The three configured groups are within the reach of the statement on
    the search. *)
Lemma configured_groups_are_supported :
  supported_group (measure_group configured) = true
  /\ supported_group (product_group configured) = true
  /\ supported_group (place_company_group configured) = true.
Proof. repeat split; vm_compute; reflexivity. Qed.

(** The end-to-end example of the specification. *)
Lemma phosphate_record_matches :
  exists details,
    is_match configured phosphate_record = Ok (true, details)
    /\ groups_matched details = 3
    /\ measure_keywords details = ["antidumping"; "regulation"]
    /\ product_keywords details = ["phosphate"; "fertilizer"]
    /\ place_company_keywords details = ["Morocco"; "OCP"].
Proof. eexists. split; [vm_compute; reflexivity|]. by repeat split. Qed.

Lemma is_match_decision_rule_witness :
  joined_text phosphate_record searchable_keys = Ok phosphate_text
  /\ exists matched details,
       is_match configured phosphate_record = Ok (matched, details)
       /\ (matched = true <->
           place_company_keywords details <> []
           /\ (measure_keywords details <> []
               \/ product_keywords details <> [])).
Proof.
  assert (H : joined_text phosphate_record searchable_keys = Ok phosphate_text)
    by (vm_compute; reflexivity).
  split; [exact H|].
  destruct (is_match_decision_rule configured phosphate_record phosphate_text H)
    as (matched & details & Hm & _ & _ & _ & Hrule & _).
  exists matched, details. split; [exact Hm|exact Hrule].
Defined.

(** C2 as worded fails: "Morocco" glued to "in" is reported although it
    does not stand between two word boundaries. *)
Lemma glued_keyword_counterexample :
  ~ reports_by_boundaries (chars "goods inMorocco")
      (place_company_group configured) "Morocco".
Proof.
  intros [Hreport _].
  assert (Hin : "Morocco" ∈ find_keyword_matches (chars "goods inMorocco")
                  (place_company_group configured)).
  { assert (find_keyword_matches (chars "goods inMorocco")
              (place_company_group configured) = ["Morocco"]) as ->
      by (vm_compute; reflexivity).
    by constructor. }
  apply Hreport in Hin as [_ Hocc].
  apply bounded_search_iff in Hocc as [pos Hpos].
  vm_compute in Hpos. discriminate.
Qed.

Lemma find_keyword_matches_reports_witness :
  ascii_only (chars "Import of Fertilizers fromMorocco") = true
  /\ supported_group ["fertiliz*"; "Morocco"] = true
  /\ token_with_stem (chars "fertiliz")
       (normalize_text (chars "Import of Fertilizers fromMorocco")).
Proof.
  split; [reflexivity|]. split; [reflexivity|].
  destruct (find_keyword_matches_reports
              (chars "Import of Fertilizers fromMorocco")
              ["fertiliz*"; "Morocco"] "fertiliz*" eq_refl eq_refl)
    as [_ Hstem].
  apply (Hstem (chars "fertiliz")); [reflexivity..|].
  assert (find_keyword_matches (chars "Import of Fertilizers fromMorocco")
            ["fertiliz*"; "Morocco"] = ["fertiliz*"; "Morocco"]) as ->
    by (vm_compute; reflexivity).
  by constructor.
Defined.

(** A batch against a corpus: the second copy of a number and the
    repeated title go, and within the batch the first of two wins. *)
Lemma deduplicate_documents_sample :
  deduplicate_documents [stored_a]
    [stored_a_again; stored_b; unnumbered_a; stored_b]
  = [stored_b].
Proof. vm_compute. reflexivity. Qed.

Lemma clean_existing_duplicates_sample :
  clean_existing_duplicates
    [stored_a; stored_a_again; unnumbered_a; stored_b; unnumbered_a]
  = [stored_a; unnumbered_a; stored_b].
Proof. vm_compute. reflexivity. Qed.

Lemma deduplicate_documents_drops_duplicates_witness :
  duplicate_in ([stored_a] ++ deduplicate_documents [stored_a] [stored_b])
               unnumbered_a
  /\ deduplicate_documents [stored_a] ([stored_b] ++ [unnumbered_a])
     = deduplicate_documents [stored_a] [stored_b].
Proof.
  assert (Hdup : duplicate_in
                   ([stored_a] ++ deduplicate_documents [stored_a] [stored_b])
                   unnumbered_a).
  { right. split; [by vm_compute|]. split; [by vm_compute|].
    exists stored_a. split; [by constructor|by vm_compute]. }
  split; [exact Hdup|].
  destruct (deduplicate_documents_drops_duplicates [stored_a]) as [_ Hstep].
  exact (proj1 (Hstep [stored_b] unnumbered_a) Hdup).
Defined.

Lemma clean_existing_duplicates_keeps_first_witness :
  has_number stored_a /\ ~ has_number unnumbered_a
  /\ has_title unnumbered_a /\ same_title stored_a unnumbered_a
  /\ clean_existing_duplicates [stored_a; unnumbered_a]
     = [stored_a; unnumbered_a]
  /\ deduplicate_documents [] [stored_a; unnumbered_a] = [stored_a].
Proof.
  assert (H1 : has_number stored_a) by by vm_compute.
  assert (H2 : ~ has_number unnumbered_a) by by vm_compute.
  assert (H3 : has_title unnumbered_a) by by vm_compute.
  assert (H4 : same_title stored_a unnumbered_a) by by vm_compute.
  repeat (split; [assumption|]).
  exact (proj2 clean_existing_duplicates_keeps_first
           stored_a unnumbered_a H1 H2 H3 H4).
Defined.

(** The planning examples of the specification: the watermark 2024-06-01
    gives 2024-06-02, no watermark gives 2024-01-01. *)
Lemma plan_window_samples :
  fst (plan_window quiet_env false false (world_with_watermark "2024-06-01"))
    = Ok (Date 2024 6 2, june_10)
  /\ fst (plan_window quiet_env false false fresh_world)
     = Ok (Date 2024 1 1, june_10).
Proof. split; vm_compute; reflexivity. Qed.

Lemma get_date_range_window_witness :
  watermark (world_with_watermark "2024-06-01") = VStr "2024-06-01"
  /\ strptime "2024-06-01" = Some (Date 2024 6 1)
  /\ Date 2024 6 1 <> Date 9999 12 31
  /\ (exists next,
        fst (plan_window quiet_env false false
               (world_with_watermark "2024-06-01")) = Ok (next, june_10)
        /\ toordinal next = (toordinal (Date 2024 6 1) + 1)%Z)
  /\ watermark (world_with_watermark "2024-13-01") = VStr "2024-13-01"
  /\ ascii_only (chars "2024-13-01") = true
  /\ strptime "2024-13-01" = None
  /\ fst (plan_window quiet_env false false
            (world_with_watermark "2024-13-01")) = Ok (epoch_start, june_10).
Proof.
  split; [reflexivity|]. split; [reflexivity|]. split; [discriminate|].
  split.
  - destruct (proj1 (get_date_range_window quiet_env
                       (world_with_watermark "2024-06-01"))
                "2024-06-01" (Date 2024 6 1) eq_refl eq_refl)
      as (next & Hplan & Hord & _); [discriminate|].
    exists next. split; [exact Hplan|exact Hord].
  - split; [reflexivity|]. split; [reflexivity|]. split; [reflexivity|].
    exact (proj1 (proj2 (proj2 (get_date_range_window quiet_env
                                  (world_with_watermark "2024-13-01")))
                    "2024-13-01" eq_refl eq_refl eq_refl)).
Defined.

(** C4 as worded fails: the watermark 9999-12-31 parses as a date and the
    planner raises [OverflowError]. *)
Lemma last_day_watermark_counterexample :
  ~ plans_day_after_watermark quiet_env (world_with_watermark "9999-12-31").
Proof.
  intros H.
  destruct (H "9999-12-31" (Date 9999 12 31) eq_refl eq_refl) as (next & Hr & _).
  vm_compute in Hr. discriminate.
Qed.



(** C6 as worded fails: the corpus file cannot be written, the failure is
    logged, and the run ends with status [success] and an advanced
    state. *)
Lemma swallowed_write_failure_counterexample :
  ~ write_failure_is_fatal busy_env configured read_only_world.
Proof.
  unfold write_failure_is_fatal.
  destruct (scrape busy_env configured false false read_only_world)
    as [rep w'] eqn:E.
  vm_compute in E. injection E as <- <-.
  intros H. destruct H as [Hstatus _]; [by constructor|discriminate].
Qed.

Lemma scrape_failure_leaves_store_witness :
  scrape_body failing_env configured false false (tick fresh_world)
    = (Raise (Exn IOError "gateway unreachable"),
       snd (scrape_body failing_env configured false false (tick fresh_world)))
  /\ status_of (fst (scrape failing_env configured false false fresh_world))
     = error
  /\ state_file (snd (scrape failing_env configured false false fresh_world))
     = state_file fresh_world.
Proof.
  assert (Hbody : scrape_body failing_env configured false false
                    (tick fresh_world)
            = (Raise (Exn IOError "gateway unreachable"),
               snd (scrape_body failing_env configured false false
                      (tick fresh_world))))
    by (vm_compute; reflexivity).
  split; [exact Hbody|].
  pose proof (scrape_failure_leaves_store failing_env configured false false
                fresh_world _ _ Hbody) as H.
  destruct (scrape failing_env configured false false fresh_world) as [rep w'].
  destruct H as (Hstatus & _ & _ & _ & Hstate & _).
  split; [exact Hstatus|exact Hstate].
Defined.

(** C7 as worded fails: the store holds one document twice and the
    gateway finds nothing; the run succeeds, the corpus file keeps both
    copies and the state counts one document. *)
Lemma uncounted_duplicates_counterexample :
  ~ success_leaves_counted_sorted_corpus quiet_env configured
      world_with_duplicates.
Proof.
  unfold success_leaves_counted_sorted_corpus.
  destruct (scrape quiet_env configured false false world_with_duplicates)
    as [rep w'] eqn:E.
  vm_compute in E. injection E as <- <-.
  intros H. destruct (H eq_refl) as [_ Hcount]. vm_compute in Hcount.
  discriminate.
Qed.

Lemma scrape_success_persists_witness :
  status_of (fst (scrape busy_env configured false false fresh_world))
    = success
  /\ exists enriched k,
       ticks fresh_world < k
       /\ state_file (snd (scrape busy_env configured false false fresh_world))
       = Stored
           {| last_checked_date := VStr (isoformat (today busy_env));
              last_run := VStr (clock busy_env k);
              total_documents :=
                length (clean_existing_duplicates (stored_corpus fresh_world)
                        ++ deduplicate_documents
                             (clean_existing_duplicates
                                (stored_corpus fresh_world)) enriched) |}.
Proof.
  assert (Hstatus : status_of (fst (scrape busy_env configured false false
                                      fresh_world)) = success)
    by (vm_compute; reflexivity).
  split; [exact Hstatus|].
  pose proof (scrape_success_persists busy_env configured false false
                fresh_world) as H.
  destruct (scrape busy_env configured false false fresh_world) as [rep w'].
  destruct (H Hstatus)
    as (from_d & raw & matched & enriched & w3 & k
        & _ & _ & _ & Hk & _ & _ & _ & _ & _ & _ & _ & Hstate & _).
  exists enriched, k. split; [exact Hk|exact (Hstate eq_refl)].
Defined.

(** C8 as worded fails: a title that holds [None] makes [is_match]
    raise. *)
Lemma none_title_counterexample :
  ~ malformed_fields_read_as_empty configured untitled_record.
Proof.
  intros (matched & details & H & _). vm_compute in H. discriminate.
Qed.

Lemma is_match_total_on_strings_witness :
  Forall (fun k => fields phosphate_record !! k <> Some VNone) searchable_keys
  /\ exists matched details,
       is_match configured phosphate_record = Ok (matched, details).
Proof.
  assert (H : Forall (fun k => fields phosphate_record !! k <> Some VNone)
                     searchable_keys).
  { repeat constructor; vm_compute; discriminate. }
  split; [exact H|].
  exact (proj1 (is_match_total_on_strings configured phosphate_record H)).
Defined.

(** C9 at the failing input: the record enters [_enrich_documents] with
    the stamp the gateway gave it and leaves with the current reading of
    the clock. *)
Theorem enrich_documents_overwrites_stamp :
  get gateway_record "scraped_at" = VStr "2024-06-10T08:00:00"
  /\ (exists doc',
        fst (enrich_documents busy_env configured [gateway_record] fresh_world)
          = Ok [doc']
        /\ get doc' "scraped_at" = VStr "2024-06-10T09:00:00")
  /\ ~ keeps_present_stamp busy_env configured gateway_record fresh_world.
Proof.
  split; [vm_compute; reflexivity|]. split.
  - eexists. split; [vm_compute; reflexivity|]. vm_compute. reflexivity.
  - intros H. destruct (H eq_refl) as (doc' & Hdoc & Hstamp).
    vm_compute in Hdoc. injection Hdoc as <-. vm_compute in Hstamp.
    discriminate.
Qed.

End AtSamples.

(* ===================================================================== *)
(** ** The matcher beyond the decision rule *)
(* ===================================================================== *)

Import Reports Invariants.

Section Normalisation.

Lemma lower_char_idem c : lower_char (lower_char c) = lower_char c.
Proof. by destruct c as [[] [] [] [] [] [] [] []]. Qed.

Lemma is_space_lower_char c : is_space (lower_char c) = is_space c.
Proof. by destruct c as [[] [] [] [] [] [] [] []]. Qed.

Lemma lower_app l1 l2 : lower (l1 ++ l2) = lower l1 ++ lower l2.
Proof. apply map_app. Qed.

Lemma lower_idem l : lower (lower l) = lower l.
Proof.
  unfold lower. rewrite map_map. apply map_ext. intros c. apply lower_char_idem.
Qed.

Lemma forallb_is_space_lower pad :
  forallb is_space (lower pad) = forallb is_space pad.
Proof.
  induction pad as [|c pad IH]; [done|]. simpl.
  by rewrite is_space_lower_char, IH.
Qed.

Lemma lstrip_spaces pad : forallb is_space pad = true -> lstrip pad = [].
Proof.
  induction pad as [|c pad IH]; [done|]. simpl.
  intros [Hc Hp]%andb_true_iff. rewrite Hc. auto.
Qed.

Lemma lstrip_pad pad l : forallb is_space pad = true -> lstrip (pad ++ l) = lstrip l.
Proof.
  induction pad as [|c pad IH]; [done|]. simpl.
  intros [Hc Hp]%andb_true_iff. rewrite Hc. auto.
Qed.

Lemma lstrip_app l pad :
  forallb is_space pad = true ->
  lstrip (l ++ pad) = lstrip l ++ pad \/ (lstrip l = [] /\ lstrip (l ++ pad) = []).
Proof.
  intros Hp. induction l as [|c l IH]; simpl.
  - right. split; [done|]. by apply lstrip_spaces.
  - destruct (is_space c); [done|]. by left.
Qed.

Lemma rstrip_pad l pad : forallb is_space pad = true -> rstrip (l ++ pad) = rstrip l.
Proof.
  intros Hp. unfold rstrip. rewrite rev_app_distr, lstrip_pad; [done|].
  rewrite forallb_forall in *. intros c Hc. apply Hp. by apply in_rev.
Qed.

Lemma strip_pad pad1 l pad2 :
  forallb is_space pad1 = true -> forallb is_space pad2 = true ->
  strip (pad1 ++ l ++ pad2) = strip l.
Proof.
  intros H1 H2. unfold strip. rewrite lstrip_pad by done.
  destruct (lstrip_app l pad2 H2) as [->|[-> ->]]; [|done].
  by apply rstrip_pad.
Qed.

Lemma normalize_text_strip text : normalize_text text = strip (lower text).
Proof. by destruct text. Qed.

Lemma keyword_found_empty keyword : keyword_found [] keyword = false.
Proof.
  apply not_true_is_false. rewrite keyword_found_iff.
  destruct (has_wildcard _).
  - apply wildcard_occurrence_empty.
  - apply keyword_occurrence_empty.
Qed.

Lemma find_keyword_matches_filter text keywords :
  find_keyword_matches text keywords
  = List.filter (keyword_found (normalize_text text)) keywords.
Proof.
  destruct text as [|c text]; [|done]. simpl.
  induction keywords as [|k keywords IH]; [done|]. simpl.
  by rewrite keyword_found_empty.
Qed.

(** X1.  [_find_keyword_matches] reads the text through
    [_normalize_text] only: the keywords reported do not change when the
    case of letters changes or when whitespace is put around the text. *)
Theorem find_keyword_matches_ignores_case_and_padding
    (text text' pad1 pad2 : list ascii) (keywords : list string) :
  forallb is_space pad1 = true -> forallb is_space pad2 = true ->
  lower text' = lower text ->
  find_keyword_matches (pad1 ++ text' ++ pad2) keywords
  = find_keyword_matches text keywords.
Proof.
  intros H1 H2 Hl. rewrite !find_keyword_matches_filter.
  rewrite !normalize_text_strip, !lower_app, Hl.
  rewrite strip_pad; [done| |]; by rewrite forallb_is_space_lower.
Qed.

End Normalisation.

Section Mentions.

Lemma contains_factor needle : forall hay,
  contains needle hay = true <-> factor needle hay.
Proof.
  induction hay as [|c hay IH]; simpl.
  - rewrite orb_false_r, starts_with_iff. split.
    + intros (t & Ht). exists [], t. done.
    + intros (pre & post & H). symmetry in H.
      apply app_eq_nil in H as [-> H]. exists post. done.
  - rewrite orb_true_iff, starts_with_iff, IH. split.
    + intros [(t & Ht)|(pre & post & ->)].
      * by exists [], t.
      * by exists (c :: pre), post.
    + intros ([|x pre] & post & H).
      * left. by exists post.
      * right. injection H as -> ->. by exists pre, post.
Qed.

(** X2.  A keyword without a wildcard that [_find_keyword_matches] reports
    in a text is also found in it by the substring test of
    [extract_entities], which is the looser one: it asks for no word
    boundary. *)
Theorem reported_keyword_is_mentioned
    (text : list ascii) (keywords : list string) (keyword : string) :
  has_wildcard (normalize_text (chars keyword)) = false ->
  keyword ∈ find_keyword_matches text keywords ->
  mentions text keyword = true.
Proof.
  intros Hw [_ Hf]%find_keyword_matches_iff.
  apply keyword_found_iff in Hf. rewrite Hw in Hf.
  destruct Hf as (pre & post & Ht & _). unfold mentions.
  apply contains_factor. by exists pre, post.
Qed.

End Mentions.

Section Details.

Lemma flat_map_at_most_one {A B} (f : A -> list B) (l : list A) :
  (forall a, length (f a) <= 1) -> length (flat_map f l) <= length l.
Proof.
  intros Hf. induction l as [|a l IH]; [done|]. simpl.
  rewrite length_app. specialize (Hf a). lia.
Qed.

Lemma extract_matching_snippets_length text keywords :
  length (extract_matching_snippets text keywords) <= length keywords.
Proof.
  unfold extract_matching_snippets.
  destruct text as [|c text]; [simpl; lia|].
  destruct keywords as [|k keywords]; [simpl; lia|].
  apply flat_map_at_most_one. intros keyword.
  destruct (snippet_match _ _) as [[m_start m_end]|]; [|simpl; lia].
  destruct (strip _); simpl; lia.
Qed.

Lemma filter_sublist {A} (f : A -> bool) (l : list A) :
  sublist (List.filter f l) l.
Proof.
  induction l as [|a l IH]; simpl; [constructor|].
  destruct (f a); by constructor.
Qed.

Lemma find_keyword_matches_sublist text keywords :
  sublist (find_keyword_matches text keywords) keywords.
Proof. rewrite find_keyword_matches_filter. apply filter_sublist. Qed.

(** X3.  The details [is_match] returns are consistent with its verdict:
    three groups in all, the number of groups matched is the number of
    non-empty keyword lists, the score is the number of keywords
    reported, each list is drawn from its group in the group's order, at
    most three snippets are kept and no more than one per keyword; a
    match has at least two groups matched and three groups matched make
    a match. *)
Theorem is_match_details_consistent
    (self : matcher) (doc : document) (matched : bool) (d : match_details) :
  is_match self doc = Ok (matched, d) ->
  total_groups d = 3
  /\ groups_matched d
     = count_true [nonempty (measure_keywords d);
                   nonempty (product_keywords d);
                   nonempty (place_company_keywords d)]
  /\ match_score d
     = length (measure_keywords d) + length (product_keywords d)
       + length (place_company_keywords d)
  /\ sublist (measure_keywords d) (measure_group self)
  /\ sublist (product_keywords d) (product_group self)
  /\ sublist (place_company_keywords d) (place_company_group self)
  /\ length (matched_text_snippets d) <= 3
  /\ length (matched_text_snippets d) <= match_score d
  /\ (matched = true -> 2 <= groups_matched d <= 3)
  /\ (groups_matched d = 3 -> matched = true)
  /\ (match_score d = 0 <-> groups_matched d = 0).
Proof.
  unfold is_match. destruct (joined_text doc searchable_keys) as [text|x];
    [|discriminate].
  simpl. intros [= <- <-]. simpl.
  set (m := find_keyword_matches text (measure_group self)).
  set (p := find_keyword_matches text (product_group self)).
  set (c := find_keyword_matches text (place_company_group self)).
  pose proof (extract_matching_snippets_length text (m ++ p ++ c)) as Hlen.
  rewrite !length_app in *.
  repeat split; try apply find_keyword_matches_sublist.
  - lia.
  - rewrite length_take. lia.
  - rewrite length_take. lia.
  - destruct m, p, c; simpl in *; try done; vm_compute; lia.
  - destruct m, p, c; simpl in *; try done; vm_compute; lia.
  - destruct m, p, c; simpl in *; try done; vm_compute; lia.
  - destruct m, p, c; simpl in *; try done; vm_compute; lia.
  - destruct m, p, c; simpl in *; try done; vm_compute; lia.
Qed.

Lemma lstrip_suffix l : exists pad, l = pad ++ lstrip l.
Proof.
  induction l as [|c l [pad IH]]; simpl; [by exists []|].
  destruct (is_space c); [|by exists []].
  exists (c :: pad). simpl. by f_equal.
Qed.

Lemma lstrip_length l : length (lstrip l) <= length l.
Proof.
  destruct (lstrip_suffix l) as [pad H]. rewrite H at 2.
  rewrite length_app. lia.
Qed.

Lemma factor_strip l : factor (strip l) l.
Proof.
  unfold strip, rstrip.
  destruct (lstrip_suffix l) as [pad1 H1].
  destruct (lstrip_suffix (rev (lstrip l))) as [pad2 H2].
  exists pad1, (rev pad2). rewrite H1 at 1. f_equal.
  rewrite <- rev_app_distr, <- H2. by rewrite rev_involutive.
Qed.

Lemma strip_length l : length (strip l) <= length l.
Proof.
  destruct (factor_strip l) as (pre & post & H). rewrite H at 2.
  rewrite !length_app. lia.
Qed.

Lemma factor_slice l lo hi : factor (slice l lo hi) l.
Proof.
  unfold slice. exists (take lo l), (drop (hi - lo) (drop lo l)).
  by rewrite take_drop, take_drop.
Qed.

Lemma factor_trans a b c : factor a b -> factor b c -> factor a c.
Proof.
  intros (p1 & q1 & ->) (p2 & q2 & ->).
  exists (p2 ++ p1), (q1 ++ q2). by rewrite <- !app_assoc.
Qed.

Lemma slice_length l lo hi : length (slice l lo hi) <= hi - lo.
Proof. unfold slice. rewrite length_take. lia. Qed.

Lemma re_search_literal kw text s e :
  re_search (re_escape kw) text = Some (s, e) -> e = s + length kw.
Proof.
  intros H. apply search_from_sound in H as (r1 & r2 & n & _ & _ & -> & Ha).
  rewrite <- (app_nil_r (re_escape kw)) in Ha.
  apply accepts_lits in Ha as (r' & m & _ & -> & Ha).
  inversion Ha. lia.
Qed.

(** X4.  Every snippet of [_extract_matching_snippets] belongs to one of
    the keywords given: it is a piece of the text, not empty and with no
    whitespace cut off at its ends, between two ellipses; for a keyword
    without a wildcard the piece is at most 100 characters longer than
    the keyword. *)
Theorem extract_matching_snippets_shape
    (text : list ascii) (keywords : list string) (snippet : string) :
  snippet ∈ extract_matching_snippets text keywords ->
  exists keyword body,
    keyword ∈ keywords
    /\ snippet = str (ellipsis ++ body ++ ellipsis)
    /\ body <> []
    /\ factor body text
    /\ (has_wildcard (normalize_text (chars keyword)) = false ->
        length body <= length (normalize_text (chars keyword)) + 100).
Proof.
  unfold extract_matching_snippets.
  destruct text as [|c0 text0] eqn:Htext; [by intros ?%elem_of_nil|].
  rewrite <- Htext. clear Htext.
  destruct keywords as [|k0 keywords0] eqn:Hk; [by intros ?%elem_of_nil|].
  rewrite <- Hk. clear Hk.
  rewrite list_elem_of_In, in_flat_map. intros (keyword & Hin & Hs).
  apply list_elem_of_In in Hin. exists keyword.
  destruct (snippet_match _ keyword) as [[m_start m_end]|] eqn:Hm;
    [|by destruct Hs].
  destruct (strip (slice text (m_start - 50) (Nat.min (length text) (m_end + 50))))
    as [|b body] eqn:Hb; [by destruct Hs|].
  destruct Hs as [<-|[]]. exists (b :: body).
  split; [done|]. split; [done|]. split; [done|]. split.
  - rewrite <- Hb. eapply factor_trans; [apply factor_strip|apply factor_slice].
  - intros Hw. unfold snippet_match in Hm. rewrite Hw in Hm.
    apply re_search_literal in Hm as ->.
    rewrite <- Hb. etrans; [apply strip_length|].
    etrans; [apply slice_length|]. lia.
Qed.

(** X27.  [extract_entities] lists keywords of the two groups, and never
    the country names "Morocco" and "Moroccan" among the companies.  A
    keyword is listed exactly when it is in its group and its normalised
    form stands somewhere in the normalised title, text and subject; so
    every product keyword without a wildcard that [_find_keyword_matches]
    reports in that text is listed.  The statement is about membership
    only: the order of the two lists is left open by the source. *)
Theorem extract_entities_lists_mentions
    (self : matcher) (doc : document) (found_companies found_products : list string) :
  extract_entities self doc = Ok (found_companies, found_products) ->
  ("Morocco" ∉ found_companies)
  /\ ("Moroccan" ∉ found_companies)
  /\ exists text,
       joined_text doc ["TI"; "TX"; "SU"] = Ok text
       /\ (forall k,
             k ∈ found_products <->
             k ∈ product_group self
             /\ factor (normalize_text (chars k)) (normalize_text text))
       /\ (forall k,
             k ∈ found_companies <->
             k ∈ place_company_group self
             /\ k <> "Morocco" /\ k <> "Moroccan"
             /\ factor (normalize_text (chars k)) (normalize_text text))
       /\ (forall k,
             has_wildcard (normalize_text (chars k)) = false ->
             k ∈ find_keyword_matches text (product_group self) ->
             k ∈ found_products).
Proof.
  unfold extract_entities.
  destruct (joined_text doc ["TI"; "TX"; "SU"]) as [text|x]; [|discriminate].
  simpl. intros [= <- <-].
  assert (Hc : forall k,
            k ∈ List.filter
                  (fun keyword => negb (is_country keyword) && mentions text keyword)
                  (place_company_group self) <->
            k ∈ place_company_group self
            /\ k <> "Morocco" /\ k <> "Moroccan"
            /\ factor (normalize_text (chars k)) (normalize_text text)).
  { intros k. rewrite list_elem_of_In, filter_In, <- list_elem_of_In.
    rewrite andb_true_iff, negb_true_iff. unfold is_country, mentions.
    rewrite orb_false_iff, !bool_decide_eq_false, contains_factor. tauto. }
  assert (Hp : forall k,
            k ∈ List.filter (mentions text) (product_group self) <->
            k ∈ product_group self
            /\ factor (normalize_text (chars k)) (normalize_text text)).
  { intros k. rewrite list_elem_of_In, filter_In, <- list_elem_of_In.
    unfold mentions. by rewrite contains_factor. }
  split; [intros H; apply Hc in H; tauto|].
  split; [intros H; apply Hc in H; tauto|].
  exists text. split; [done|]. split; [done|]. split; [done|].
  intros k Hw Hin. apply Hp. split.
  - by apply find_keyword_matches_iff in Hin as [Hin _].
  - apply find_keyword_matches_iff in Hin as [_ Hf].
    apply keyword_found_iff in Hf. rewrite Hw in Hf.
    destruct Hf as (pre & post & Ht & _). by exists pre, post.
Qed.

End Details.

Section Filter.

Lemma join_items_Ok_inv vs : forall i parts,
  join_items i vs = Ok parts -> Forall (fun v => is_str v = true) vs.
Proof.
  induction vs as [|v vs IH]; intros i parts H; [constructor|].
  simpl in H. destruct v as [|s]; [discriminate|]. simpl in H.
  destruct (join_items (S i) vs) as [ss|x] eqn:E; [|discriminate].
  constructor; [done|]. by eapply IH.
Qed.

Lemma joined_text_Ok_iff doc keys :
  is_ok (joined_text doc keys) = true
  <-> Forall (fun k => fields doc !! k <> Some VNone) keys.
Proof.
  split.
  - unfold joined_text.
    destruct (join_items 0 _) as [parts|x] eqn:E; [|discriminate].
    intros _. apply join_items_Ok_inv in E.
    rewrite Forall_map in E. eapply Forall_impl; [exact E|].
    intros k Hk. simpl in Hk. unfold get_or in Hk. intros Hn.
    rewrite Hn in Hk. done.
  - intros H. by destruct (joined_text_ok doc keys H) as [text ->].
Qed.

Lemma is_match_Ok_iff self doc :
  is_ok (is_match self doc) = true <-> text_entries_are_strings doc.
Proof.
  unfold text_entries_are_strings. rewrite <- joined_text_Ok_iff.
  unfold is_match. by destruct (joined_text doc searchable_keys).
Qed.

Lemma get_annotate details doc key :
  get (set_field "scraped_at" (get_or (set_match_details details doc)
                                      "scraped_at" VNone)
                 (set_match_details details doc)) key
  = get doc key.
Proof.
  unfold get, get_or, set_field, set_match_details. simpl.
  destruct (decide (key = "scraped_at")) as [->|Hne].
  - rewrite lookup_insert_eq. done.
  - by rewrite lookup_insert_ne.
Qed.

Lemma filter_documents_length self docs : forall out,
  filter_documents self docs = Ok out -> length out <= length docs.
Proof.
  induction docs as [|doc docs IH]; intros out H; simpl in H.
  - by injection H as <-.
  - destruct (is_match self doc) as [[matched details]|x]; [|discriminate].
    simpl in H. destruct (filter_documents self docs) as [rest|x];
      [|discriminate].
    specialize (IH rest eq_refl). simpl in H.
    destruct matched; injection H as <-; simpl; lia.
Qed.

(** X5.  [filter_documents] returns exactly when every record has strings
    under the five text keys that are present, so one record with [None]
    there loses the batch.  When it returns, it hands on the records
    [is_match] accepts, in their order, each with the details of its
    match attached and every other entry reading as before; [scraped_at]
    is kept when present. *)
Theorem filter_documents_keeps_matches (self : matcher) (docs : list document) :
  (is_ok (filter_documents self docs) = true
   <-> Forall text_entries_are_strings docs)
  /\ (forall out,
        filter_documents self docs = Ok out ->
        Forall2 (annotated self) (List.filter (matches self) docs) out
        /\ length out <= length docs).
Proof.
  split.
  - induction docs as [|doc docs IH]; simpl.
    + split; [constructor|done].
    + rewrite Forall_cons, <- IH, <- (is_match_Ok_iff self).
      destruct (is_match self doc) as [[matched details]|x]; simpl;
        [|by split; [|intros [? _]]].
      destruct (filter_documents self docs) as [rest|x]; simpl;
        [|by split; [|intros [_ ?]]].
      by destruct matched.
  - induction docs as [|doc docs IH]; intros out H; simpl in *.
    + injection H as <-. split; [constructor|done].
    + unfold matches at 1.
      destruct (is_match self doc) as [[matched details]|x] eqn:Hm;
        [|discriminate].
      simpl in H. destruct (filter_documents self docs) as [rest|x];
        [|discriminate].
      destruct (IH rest eq_refl) as [IH1 IH2]. simpl in H.
      destruct matched; injection H as <-.
      * split; [|simpl; lia]. constructor; [|done].
        exists details. split; [done|]. split; [done|].
        split; [|done]. intros key. apply get_annotate.
      * split; [done|lia].
Qed.

End Filter.

(* ===================================================================== *)
(** ** Identities in the corpus *)
(* ===================================================================== *)

Section Distinct.

Lemma truthy_values_cons key d l :
  truthy_values key (d :: l) = truthy_text (get d key) ++ truthy_values key l.
Proof.
  unfold truthy_values, truthy_text. simpl.
  by destruct (get d key) as [|[|a s]].
Qed.

Lemma truthy_values_app key l1 l2 :
  truthy_values key (l1 ++ l2) = truthy_values key l1 ++ truthy_values key l2.
Proof. apply omap_app. Qed.

Lemma elem_of_truthy_text x v : x ∈ truthy_text v <-> v = VStr x /\ x <> "".
Proof.
  destruct v as [|[|a s]]; simpl.
  - split; [by intros ?%elem_of_nil|by intros [[=] _]].
  - split; [by intros ?%elem_of_nil|]. by intros [[= <-] H].
  - rewrite list_elem_of_singleton. split; [by intros ->|by intros [[= <-] _]].
Qed.

Lemma truthy_text_cases v :
  (truthy v = true /\ exists x, v = VStr x /\ x <> "" /\ truthy_text v = [x])
  \/ (truthy v = false /\ truthy_text v = []).
Proof.
  destruct v as [|[|a s]]; simpl; [by right|by right|].
  left. split; [done|]. by eexists.
Qed.

Lemma elem_of_truthy_values x key docs :
  x ∈ truthy_values key docs <-> x ∈ key_set key docs.
Proof.
  induction docs as [|d docs IH].
  - simpl. split; [by intros ?%elem_of_nil|by intros ?%elem_of_empty].
  - rewrite truthy_values_cons, key_set_cons, elem_of_app, elem_of_add_if.
    rewrite IH, elem_of_truthy_text. tauto.
Qed.

Lemma unnumbered_cons_list d docs :
  unnumbered (d :: docs) =
  if truthy (get d "DN") then unnumbered docs else d :: unnumbered docs.
Proof. unfold unnumbered. simpl. by destruct (truthy (get d "DN")). Qed.

Lemma unnumbered_app l1 l2 :
  unnumbered (l1 ++ l2) = unnumbered l1 ++ unnumbered l2.
Proof. apply List.filter_app. Qed.

Lemma dup_test_clean_test dns titles doc :
  dup_test dns titles doc = clean_test dns titles doc.
Proof.
  unfold dup_test, clean_test.
  destruct (truthy (get doc "DN")); simpl; [by rewrite orb_false_r|].
  by destruct (truthy (get doc "TI")).
Qed.

(** The loops' invariant, one document at a time. *)
Lemma distinct_from_cons dns titles doc rest :
  distinct_from dns titles (doc :: rest)
  <-> clean_test dns titles doc = false
      /\ distinct_from (add_if (get doc "DN") dns)
                       (if truthy (get doc "DN") then titles
                        else add_if (get doc "TI") titles) rest.
Proof.
  unfold distinct_from, distinct_identities, clean_test.
  rewrite truthy_values_cons, unnumbered_cons_list.
  destruct (truthy_text_cases (get doc "DN"))
    as [(Hn & x & Hx & Hne & Hl)|(Hn & Hl)]; rewrite Hn, Hl.
  - rewrite Hx. simpl app. simpl member. rewrite NoDup_cons.
    rewrite bool_decide_eq_false.
    setoid_rewrite elem_of_cons. setoid_rewrite elem_of_add_if.
    split.
    + intros ((( Hnx & HN) & HT) & HD & HTT).
      split; [by apply HD; left|]. split; [done|]. split; [|done].
      intros y Hy [Hin|[[= ->] _]]; [apply (HD y); [by right|done]|done].
    + intros (HxD & (HN & HT) & HD & HTT).
      split; [split; [|done]|split; [|done]].
      * split; [|done]. intros Hin. apply (HD x Hin). by right.
      * intros y [->|Hy]; [done|]. intros Hin. apply (HD y Hy). by left.
  - simpl app. rewrite (add_if_falsy _ dns Hn). rewrite truthy_values_cons.
    destruct (truthy_text_cases (get doc "TI"))
      as [(Ht & x & Hx & Hne & Hl')|(Ht & Hl')]; rewrite Ht, Hl'.
    + rewrite Hx. simpl app. simpl member. rewrite NoDup_cons.
      rewrite bool_decide_eq_false.
      setoid_rewrite elem_of_cons. setoid_rewrite elem_of_add_if.
      split.
      * intros ((HN & Hnx & HT) & HD & HTT).
        split; [by apply HTT; left|]. split; [done|]. split; [done|].
        intros y Hy [Hin|[[= ->] _]]; [apply (HTT y); [by right|done]|done].
      * intros (HxT & (HN & HT) & HD & HTT).
        split; [split; [done|]|split; [done|]].
        -- split; [|done]. intros Hin. apply (HTT x Hin). right. done.
        -- intros y [->|Hy]; [done|]. intros Hin. apply (HTT y Hy). by left.
    + simpl app. rewrite (add_if_falsy _ titles Ht). tauto.
Qed.

Lemma distinct_from_nil dns titles : distinct_from dns titles [].
Proof.
  repeat split; try constructor; by intros x ?%elem_of_nil.
Qed.

Lemma distinct_from_weaken dns titles dns' titles' docs :
  distinct_from dns titles docs -> dns' ⊆ dns -> titles' ⊆ titles ->
  distinct_from dns' titles' docs.
Proof.
  intros (H & HD & HT) Hd Ht. split; [done|]. split.
  - intros x Hx Hin. apply (HD x Hx). by apply Hd.
  - intros x Hx Hin. apply (HT x Hx). by apply Ht.
Qed.

Lemma subseteq_add_if v (s : gset string) : s ⊆ add_if v s.
Proof. intros x Hx. apply elem_of_add_if. by left. Qed.

Lemma clean_loop_sublist docs : forall s t, sublist (clean_loop s t docs) docs.
Proof.
  induction docs as [|doc docs IH]; intros s t; [constructor|].
  rewrite clean_loop_cons. destruct (clean_test s t doc); by constructor.
Qed.

Lemma dedup_loop_sublist new : forall s t, sublist (dedup_loop s t new) new.
Proof.
  induction new as [|doc new IH]; intros s t; [constructor|].
  rewrite dedup_loop_cons. destruct (dup_test s t doc); by constructor.
Qed.

Lemma clean_loop_distinct docs : forall s t,
  distinct_from s t (clean_loop s t docs).
Proof.
  induction docs as [|doc docs IH]; intros s t; [apply distinct_from_nil|].
  rewrite clean_loop_cons. destruct (clean_test s t doc) eqn:E; [apply IH|].
  apply distinct_from_cons. split; [done|]. apply IH.
Qed.

Lemma clean_loop_fixed docs : forall s t,
  clean_loop s t docs = docs <-> distinct_from s t docs.
Proof.
  induction docs as [|doc docs IH]; intros s t.
  - split; [intros _; apply distinct_from_nil|done].
  - rewrite clean_loop_cons, distinct_from_cons.
    destruct (clean_test s t doc) eqn:E.
    + split; [|by intros [? _]]. intros H.
      pose proof (sublist_length _ _ (clean_loop_sublist docs s t)) as Hlen.
      rewrite H in Hlen. simpl in Hlen. lia.
    + rewrite <- IH. split; [by intros [= ->]|by intros [_ ->]].
Qed.

Lemma dedup_loop_distinct new : forall s t,
  distinct_from s t (dedup_loop s t new).
Proof.
  induction new as [|doc new IH]; intros s t; [apply distinct_from_nil|].
  rewrite dedup_loop_cons. destruct (dup_test s t doc) eqn:E; [apply IH|].
  apply distinct_from_cons. split; [by rewrite <- dup_test_clean_test|].
  eapply distinct_from_weaken; [apply IH|done|].
  destruct (truthy (get doc "DN")); [apply subseteq_add_if|done].
Qed.

Lemma distinct_from_empty docs :
  distinct_from ∅ ∅ docs <-> distinct_identities docs.
Proof.
  split; [by intros [H _]|]. intros H. split; [done|].
  split; intros x _; apply not_elem_of_empty.
Qed.

(** X6.  [_clean_existing_duplicates] returns a part of the corpus, in its
    order, in which no number occurs twice and no title occurs twice
    among the documents without a number.  It returns a corpus as it is
    exactly when the corpus is already so; cleaning twice is cleaning
    once. *)
Theorem clean_existing_duplicates_idempotent (docs : list document) :
  sublist (clean_existing_duplicates docs) docs
  /\ distinct_identities (clean_existing_duplicates docs)
  /\ (clean_existing_duplicates docs = docs <-> distinct_identities docs)
  /\ clean_existing_duplicates (clean_existing_duplicates docs)
     = clean_existing_duplicates docs.
Proof.
  rewrite !clean_existing_duplicates_loop.
  split; [apply clean_loop_sublist|]. split; [apply clean_loop_distinct|].
  split.
  - rewrite clean_loop_fixed. apply distinct_from_empty.
  - apply clean_loop_fixed, clean_loop_distinct.
Qed.

Lemma distinct_identities_app l1 l2 :
  distinct_identities l1 ->
  distinct_from (key_set "DN" l1) (key_set "TI" l1) l2 ->
  distinct_identities (l1 ++ l2).
Proof.
  intros [HN1 HT1] ([HN2 HT2] & HD & HT). split.
  - rewrite truthy_values_app. apply NoDup_app. split; [done|]. split; [|done].
    intros x Hx Hx2. apply (HD x Hx2). by apply elem_of_truthy_values.
  - rewrite unnumbered_app, truthy_values_app. apply NoDup_app.
    split; [done|]. split; [|done].
    intros x Hx Hx2. apply (HT x Hx2).
    apply elem_of_truthy_values, elem_of_key_set in Hx as (d & Hd & Hg).
    apply elem_of_key_set. exists d. split; [|done].
    by apply elem_of_unnumbered in Hd as [Hd _].
Qed.

Lemma unnumbered_perm l1 l2 : l1 ≡ₚ l2 -> unnumbered l1 ≡ₚ unnumbered l2.
Proof.
  induction 1 as [|d l1 l2 _ IH|d1 d2 l|l1 l2 l3 _ IH1 _ IH2].
  - done.
  - rewrite !unnumbered_cons_list. destruct (truthy _); by rewrite IH.
  - rewrite !unnumbered_cons_list.
    destruct (truthy (get d1 "DN")), (truthy (get d2 "DN")); try done.
    apply Permutation_swap.
  - by etrans.
Qed.

Lemma distinct_identities_perm l1 l2 :
  l1 ≡ₚ l2 -> distinct_identities l1 -> distinct_identities l2.
Proof.
  intros Hp [HN HT]. split.
  - eapply NoDup_Permutation_proper; [|exact HN].
    symmetry. unfold truthy_values. by apply omap_Permutation.
  - eapply NoDup_Permutation_proper; [|exact HT].
    symmetry. unfold truthy_values. by apply omap_Permutation, unnumbered_perm.
Qed.

(** X7.  The corpus a run writes is already clean: the stored corpus after
    the clean-up, merged with the new documents that
    [_deduplicate_documents] keeps and sorted, has no number twice and no
    title twice among its documents without a number, so the clean-up of
    the next run returns it as it is. *)
Theorem merged_corpus_is_clean (stored enriched : list document) :
  let existing := clean_existing_duplicates stored in
  let unique_new := deduplicate_documents existing enriched in
  let sorted := stable_sort_newest_first (existing ++ unique_new) in
  distinct_identities (existing ++ unique_new)
  /\ distinct_identities sorted
  /\ clean_existing_duplicates sorted = sorted.
Proof.
  intros existing unique_new sorted.
  assert (Hm : distinct_identities (existing ++ unique_new)).
  { apply distinct_identities_app.
    - unfold existing. rewrite clean_existing_duplicates_loop.
      apply distinct_from_empty, clean_loop_distinct.
    - apply dedup_loop_distinct. }
  assert (Hs : distinct_identities sorted).
  { eapply distinct_identities_perm; [|exact Hm].
    symmetry. apply stable_sort_newest_first_perm. }
  split; [done|]. split; [done|].
  rewrite clean_existing_duplicates_loop. by apply clean_loop_fixed, distinct_from_empty.
Qed.

Lemma dup_test_mono dns titles dns' titles' doc :
  dup_test dns titles doc = true -> dns ⊆ dns' -> titles ⊆ titles' ->
  dup_test dns' titles' doc = true.
Proof.
  unfold dup_test. rewrite !orb_true_iff, !andb_true_iff.
  intros [[Ht Hm]|[Ht Hm]] Hd Hti; [left|right]; (split; [done|]);
    apply member_iff in Hm as (x & -> & Hx); apply member_iff; exists x; auto.
Qed.

Lemma dedup_loop_all_dropped new : forall dns titles,
  Forall (fun d => dup_test dns titles d = true) new ->
  dedup_loop dns titles new = [].
Proof.
  induction new as [|doc new IH]; intros dns titles H; [done|].
  apply Forall_cons in H as [Hd H]. rewrite dedup_loop_cons, Hd. by apply IH.
Qed.

Lemma kept_or_dropped_is_seen new : forall dns titles d,
  d ∈ new -> identifiable d ->
  dup_test (dns ∪ key_set "DN" (dedup_loop dns titles new))
           (titles ∪ key_set "TI" (dedup_loop dns titles new)) d = true.
Proof.
  induction new as [|doc new IH]; intros dns titles d Hin Hid;
    [by apply elem_of_nil in Hin|].
  rewrite dedup_loop_cons. destruct (dup_test dns titles doc) eqn:E.
  - apply elem_of_cons in Hin as [->|Hin]; [|by apply IH].
    eapply dup_test_mono; [exact E| |]; apply union_subseteq_l.
  - rewrite !key_set_cons, <- !add_if_union.
    apply elem_of_cons in Hin as [->|Hin]; [|by apply IH].
    unfold dup_test, identifiable, has_number, has_title in *.
    destruct (truthy (get doc "DN")) eqn:Hn; simpl.
    + apply orb_true_iff. left. apply truthy_VStr in Hn as (x & Hx & Hne).
      rewrite Hx. apply member_iff. exists x. split; [done|].
      apply elem_of_union. left. apply elem_of_add_if. by right.
    + destruct Hid as [Hid|Hid]; [done|]. rewrite Hid. simpl.
      apply truthy_VStr in Hid as (x & Hx & Hne).
      rewrite Hx. apply member_iff. exists x. split; [done|].
      apply elem_of_union. left. apply elem_of_add_if. by right.
Qed.

Lemma key_set_perm key l1 l2 : l1 ≡ₚ l2 -> key_set key l1 = key_set key l2.
Proof.
  intros Hp. apply set_eq. intros x. rewrite !elem_of_key_set.
  by setoid_rewrite Hp.
Qed.

(** X8.  Merging is idempotent on a batch: once the documents that
    [_deduplicate_documents] keeps have joined the corpus, in whatever
    order the corpus is then stored, the same batch adds nothing more,
    provided each of its documents has a number or a title. *)
Theorem deduplicate_documents_same_batch_adds_nothing
    (existing new stored : list document) :
  Forall identifiable new ->
  stored ≡ₚ existing ++ deduplicate_documents existing new ->
  deduplicate_documents stored new = [].
Proof.
  intros Hid Hp. unfold deduplicate_documents.
  rewrite !(key_set_perm _ _ _ Hp), !key_set_app.
  apply dedup_loop_all_dropped. apply Forall_forall. intros d Hd.
  apply kept_or_dropped_is_seen; [done|].
  by eapply (proj1 (Forall_forall _ _) Hid).
Qed.

End Distinct.

(* ===================================================================== *)
(** ** The store and the clean-up command *)
(* ===================================================================== *)

Section Store.

(** X10.  Whenever [_initialize_data_files] returns, it has left alone
    every file that exists and created each missing file that can be
    written, the corpus file holding the empty list and the state file the
    state with no watermark, no last run and no document.  The loaders
    answer as before: the same corpus, the same watermark and the same
    last run.  When both files exist nothing at all changes, and on a
    writable data directory a second initialisation changes nothing. *)
Theorem initialize_data_files_keeps_data (w : world) :
  let '(r, w') := initialize_data_files w in
  r = Ok tt ->
  stored_corpus w' = stored_corpus w
  /\ watermark w' = watermark w
  /\ last_run (stored_state w') = last_run (stored_state w)
  /\ (results_file w <> Missing -> results_file w' = results_file w)
  /\ (state_file w <> Missing -> state_file w' = state_file w)
  /\ (results_file w = Missing -> results_writable w = true ->
      results_file w' = Stored [])
  /\ (state_file w = Missing -> state_writable w = true ->
      state_file w' =
        Stored {| last_checked_date := VNone; last_run := VNone;
                  total_documents := 0 |})
  /\ (results_file w <> Missing -> state_file w <> Missing -> w' = w)
  /\ (results_writable w = true -> state_writable w = true ->
      snd (initialize_data_files w') = w').
Proof.
  unfold initialize_data_files, bind, save_results, save_state, ret,
    watermark, stored_corpus, stored_state.
  destruct w as [rf sf rw sw t g q l]. simpl.
  destruct rf as [|docs|], sf as [|st|], rw, sw; simpl; intros _;
    repeat split; try done.
Qed.

(** What the construction of the scraper leaves of the store. *)
Lemma construct_frame (w : world) :
  exists w0,
    Cli.construct w = (Ok tt, w0)
    /\ stored_corpus w0 = stored_corpus w
    /\ results_writable w0 = results_writable w
    /\ (results_file w <> Missing -> results_file w0 = results_file w)
    /\ (state_file w <> Missing -> state_file w0 = state_file w)
    /\ (state_file w = Missing -> state_writable w = true ->
        state_file w0 = Stored empty_state)
    /\ watermark w0 = watermark w.
Proof.
  unfold Cli.construct, initialize_data_files, bind, effect, save_results,
    save_state, ret, watermark, stored_corpus, stored_state.
  destruct w as [rf sf rw sw t g q l]. simpl.
  destruct rf as [|docs|], sf as [|st|], rw, sw; simpl; eexists;
    (split; [reflexivity|]); repeat split; done.
Qed.

Lemma size_list_to_set_le (l : list string) :
  size (list_to_set l : gset string) <= length l.
Proof.
  induction l as [|x l IH]; [by rewrite list_to_set_nil, size_empty|].
  rewrite list_to_set_cons. simpl length. rewrite size_union_alt.
  rewrite size_singleton.
  assert (size (list_to_set l ∖ {[x]} : gset string) <= size (list_to_set l : gset string)).
  { apply subseteq_size, subseteq_difference_l. reflexivity. }
  lia.
Qed.

Lemma repeats_zero (l : list string) : Cli.repeats l = 0 <-> NoDup l.
Proof.
  unfold Cli.repeats. split.
  - induction l as [|x l IH]; [constructor|].
    rewrite list_to_set_cons. simpl length. intros H.
    pose proof (size_list_to_set_le l) as Hle.
    destruct (decide (x ∈ l)) as [Hin|Hin].
    + assert (Heq : ({[x]} ∪ list_to_set l : gset string) = list_to_set l).
      { apply subseteq_union_1_L. apply singleton_subseteq_l.
        by apply elem_of_list_to_set. }
      rewrite Heq in H. lia.
    + constructor; [done|]. apply IH.
      rewrite size_union in H; [|].
      * rewrite size_singleton in H. lia.
      * apply disjoint_singleton_l. by rewrite elem_of_list_to_set.
  - intros H. rewrite size_list_to_set by done. lia.
Qed.

Lemma unnumbered_sublist docs : sublist (unnumbered docs) docs.
Proof. apply filter_sublist. Qed.

Lemma truthy_values_sublist key l1 l2 :
  sublist l1 l2 -> sublist (truthy_values key l1) (truthy_values key l2).
Proof.
  induction 1 as [|d l1 l2 _ IH|d l1 l2 _ IH]; [constructor| |].
  - rewrite !truthy_values_cons. by apply sublist_app.
  - rewrite truthy_values_cons. by apply sublist_inserts_l.
Qed.

Lemma no_repeats_distinct docs :
  Cli.repeats (truthy_values "DN" docs) + Cli.repeats (truthy_values "TI" docs)
  = 0 ->
  distinct_identities docs.
Proof.
  intros H.
  assert (H1 : Cli.repeats (truthy_values "DN" docs) = 0) by lia.
  assert (H2 : Cli.repeats (truthy_values "TI" docs) = 0) by lia.
  apply repeats_zero in H1, H2. split; [done|].
  eapply sublist_NoDup; [exact H2|].
  apply truthy_values_sublist, unnumbered_sublist.
Qed.

(** The branch under [args.clean_duplicates], from a constructed
    scraper. *)
Lemma clean_duplicates_branch (w : world) :
  let '(r, w') := Cli.clean_duplicates w in
  exists outcome,
    r = Ok outcome
    /\ state_file w' = state_file w
    /\ (outcome = Cli.NoDuplicates ->
        results_file w' = results_file w
        /\ stored_corpus w <> []
        /\ clean_existing_duplicates (stored_corpus w) = stored_corpus w)
    /\ (outcome = Cli.NothingStored -> stored_corpus w = [])
    /\ (forall before after,
          outcome = Cli.Cleaned before after ->
          before = length (stored_corpus w)
          /\ after = length (clean_existing_duplicates (stored_corpus w))
          /\ after <= before)
    /\ (results_writable w = true ->
        stored_corpus w' = clean_existing_duplicates (stored_corpus w)
        /\ distinct_identities (stored_corpus w')).
Proof.
  unfold Cli.clean_duplicates, bind.
  destruct (load_results_frame w) as (w1 & -> & (Hrf & Hsf & Hrw & _ & Hreq) & _).
  assert (Hcorpus : stored_corpus w1 = stored_corpus w).
  { unfold stored_corpus. by rewrite Hrf. }
  pose proof (clean_existing_duplicates_loop (stored_corpus w)) as Hloop.
  pose proof (clean_loop_distinct (stored_corpus w) ∅ ∅) as Hd.
  apply distinct_from_empty in Hd. rewrite <- Hloop in Hd.
  destruct (stored_corpus w) as [|d docs] eqn:Hdocs.
  - exists Cli.NothingStored. unfold ret. rewrite Hcorpus.
    split; [done|]. split; [done|]. split; [done|]. split; [done|].
    split; [done|]. done.
  - set (n := Cli.repeats _ + Cli.repeats _).
    destruct (n =? 0) eqn:Hn.
    + apply Nat.eqb_eq in Hn. apply no_repeats_distinct in Hn.
      assert (Hfix : clean_existing_duplicates (d :: docs) = d :: docs).
      { rewrite clean_existing_duplicates_loop.
        by apply clean_loop_fixed, distinct_from_empty. }
      exists Cli.NoDuplicates. unfold ret. rewrite Hcorpus, Hfix.
      split; [done|]. split; [done|]. split; [done|]. split; [done|].
      split; [done|]. done.
    + assert (Hlen : length (clean_existing_duplicates (d :: docs))
                     <= length (d :: docs)).
      { rewrite clean_existing_duplicates_loop.
        apply sublist_length, clean_loop_sublist. }
      clear Hloop. remember (clean_existing_duplicates (d :: docs)) as cleaned.
      unfold save_results, ret. cbn [record_request results_writable].
      rewrite Hrw.
      destruct (results_writable w); cbn -[stored_corpus length];
        exists (Cli.Cleaned (length (d :: docs)) (length cleaned));
        (split; [done|]); (split; [done|]); (split; [done|]);
        (split; [done|]); (split; [by intros ?? [= <- <-]|]); done.
Qed.

(** X11.  Whenever the [--clean-duplicates] command returns, constructing
    the scraper first and then running the branch: the state file is as
    it was if it existed, and is created with the empty state if it was
    missing and can be written, so the watermark reads the same; the
    corpus file then holds the cleaned corpus whenever it can be written.
    When the command's own count finds no repeated number and no repeated
    title, the corpus file is left as it was and the corpus is one that
    [_clean_existing_duplicates] returns unchanged; otherwise the counts
    it reports are the sizes of the corpus before and after the
    clean-up. *)
Theorem clean_duplicates_leaves_clean_corpus (w : world) :
  let '(r, w') := Cli.main_clean_duplicates w in
  forall outcome,
    r = Ok outcome ->
    (state_file w <> Missing -> state_file w' = state_file w)
    /\ (state_file w = Missing -> state_writable w = true ->
        state_file w' =
          Stored {| last_checked_date := VNone; last_run := VNone;
                    total_documents := 0 |})
    /\ watermark w' = watermark w
    /\ (outcome = Cli.NoDuplicates ->
        results_file w' = results_file w
        /\ clean_existing_duplicates (stored_corpus w) = stored_corpus w)
    /\ (outcome = Cli.NothingStored -> stored_corpus w = [])
    /\ (forall before after,
          outcome = Cli.Cleaned before after ->
          before = length (stored_corpus w)
          /\ after = length (clean_existing_duplicates (stored_corpus w))
          /\ after <= before)
    /\ (results_writable w = true ->
        stored_corpus w' = clean_existing_duplicates (stored_corpus w)
        /\ distinct_identities (stored_corpus w')).
Proof.
  unfold Cli.main_clean_duplicates, bind.
  destruct (construct_frame w)
    as (w0 & -> & Hc & Hrw & Hrf & Hsf & Hnew & Hwm).
  pose proof (clean_duplicates_branch w0) as Hb.
  destruct (Cli.clean_duplicates w0) as [r w'].
  destruct Hb as (outcome & -> & Hst & Hno & Hnone & Hcl & Hw).
  intros out [= <-]. rewrite Hc, Hrw in *.
  split; [intros H; rewrite Hst; by apply Hsf|].
  split; [intros H1 H2; rewrite Hst; by apply Hnew|].
  split.
  { rewrite <- Hwm. unfold watermark, stored_state. by rewrite Hst. }
  split.
  { intros Ho. destruct (Hno Ho) as (Hfile & Hne & Hfix).
    split; [|done]. rewrite Hfile. apply Hrf. intros Hm.
    apply Hne. unfold stored_corpus. by rewrite Hm. }
  done.
Qed.

End Store.

(* ===================================================================== *)
(** ** Enrichment *)
(* ===================================================================== *)

Section Enrichment.

Lemma text_entries_annotated details doc :
  text_entries_are_strings doc ->
  text_entries_are_strings
    (set_field "scraped_at" (get_or (set_match_details details doc)
                                    "scraped_at" VNone)
               (set_match_details details doc)).
Proof.
  unfold text_entries_are_strings, searchable_keys.
  rewrite !Forall_cons. unfold set_field, set_match_details. simpl.
  rewrite !lookup_insert_ne by done.
  intros (? & ? & ? & ? & ? & _). repeat split; done.
Qed.

Lemma filter_documents_strings self docs : forall out,
  filter_documents self docs = Ok out -> Forall text_entries_are_strings out.
Proof.
  induction docs as [|doc docs IH]; intros out H; simpl in H.
  - injection H as <-. constructor.
  - destruct (is_match self doc) as [[matched details]|x] eqn:Hm;
      [|discriminate].
    simpl in H. destruct (filter_documents self docs) as [rest|x];
      [|discriminate].
    simpl in H. destruct matched; injection H as <-; [|by apply IH].
    constructor; [|by apply IH]. apply text_entries_annotated.
    apply (is_match_Ok_iff self). by rewrite Hm.
Qed.

Lemma joined_text_same_fields doc doc' keys :
  Forall (fun k => fields doc' !! k = fields doc !! k) keys ->
  joined_text doc' keys = joined_text doc keys.
Proof.
  intros H. unfold joined_text. f_equal. f_equal.
  induction H as [|k keys Hk _ IH]; [done|]. simpl.
  unfold get_or at 1 3. by rewrite Hk, IH.
Qed.

Lemma extract_entities_same_fields self doc doc' :
  Forall (fun k => fields doc' !! k = fields doc !! k) ["TI"; "TX"; "SU"] ->
  extract_entities self doc' = extract_entities self doc.
Proof.
  intros H. unfold extract_entities. by rewrite (joined_text_same_fields _ _ _ H).
Qed.

Lemma is_match_same_fields self doc doc' :
  Forall (fun k => fields doc' !! k = fields doc !! k) searchable_keys ->
  is_match self doc' = is_match self doc.
Proof.
  intros H. unfold is_match. by rewrite (joined_text_same_fields _ _ _ H).
Qed.

Lemma extract_entities_Ok self doc :
  text_entries_are_strings doc -> is_ok (extract_entities self doc) = true.
Proof.
  intros H. unfold extract_entities.
  destruct (joined_text_ok doc ["TI"; "TX"; "SU"]) as [text ->]; [|done].
  unfold text_entries_are_strings, searchable_keys in H.
  rewrite !Forall_cons in *. tauto.
Qed.

Lemma enrich_document_eq e self doc w :
  enrich_document e self doc w =
  match extract_entities self
          (set_field "scraped_at" (VStr (clock e (ticks w))) doc) with
  | Ok entities => (Ok (enriched (clock e (ticks w)) entities doc), tick w)
  | Raise x => (Raise x, tick w)
  end.
Proof.
  unfold enrich_document, bind, now, lift, ret. cbv beta iota zeta.
  destruct (extract_entities self
              (set_field "scraped_at" (VStr (clock e (ticks w))) doc))
    as [entities|x]; [|reflexivity].
  unfold enriched, with_url, canonical_keys. cbn [foldl].
  unfold copy_entry. cbn [fst snd]. reflexivity.
Qed.

Lemma set_field_keeps key v doc :
  companies (set_field key v doc) = companies doc
  /\ products (set_field key v doc) = products doc
  /\ match_details_of (set_field key v doc) = match_details_of doc.
Proof. done. Qed.

Lemma fields_copy_entry doc entry key :
  fields (copy_entry doc entry) !! key =
  if decide (key = fst entry) then Some (get_or doc (snd entry) (VStr ""))
  else fields doc !! key.
Proof.
  unfold copy_entry, set_field. cbn [fields].
  destruct (decide (key = fst entry)) as [->|Hne].
  - by rewrite lookup_insert_eq.
  - by rewrite lookup_insert_ne.
Qed.

Lemma copy_entries_spec pairs : forall doc,
  NoDup pairs.*1 ->
  Forall (fun entry => snd entry ∉ pairs.*1) pairs ->
  let doc' := foldl copy_entry doc pairs in
  (forall key, key ∉ pairs.*1 -> fields doc' !! key = fields doc !! key)
  /\ Forall (fun '(key, raw) => get doc' key = get_or doc raw (VStr "")) pairs
  /\ companies doc' = companies doc
  /\ products doc' = products doc
  /\ match_details_of doc' = match_details_of doc.
Proof.
  induction pairs as [|[k r] pairs IH]; intros doc Hnd Hraw.
  - simpl. repeat split; done.
  - cbn [foldl]. rewrite fmap_cons in Hnd, Hraw. cbn [fst] in Hnd, Hraw.
    apply NoDup_cons in Hnd as [Hk Hnd].
    apply Forall_cons in Hraw as [Hr Hraw]. cbn [snd] in Hr.
    assert (Hraw' : Forall (fun entry => snd entry ∉ pairs.*1) pairs).
    { eapply Forall_impl; [exact Hraw|]. intros entry H Hin. apply H. by right. }
    destruct (IH (copy_entry doc (k, r)) Hnd Hraw') as (Hother & Hall & Hc & Hp & Hm).
    split; [|split; [|by repeat split]].
    + intros key Hkey. rewrite fmap_cons in Hkey. cbn [fst] in Hkey.
      apply not_elem_of_cons in Hkey as [Hne Hkey].
      rewrite Hother by done. rewrite fields_copy_entry. cbn [fst].
      by destruct (decide (key = k)).
    + constructor.
      * unfold get, get_or at 1. rewrite Hother by done.
        rewrite fields_copy_entry. cbn [fst snd].
        by destruct (decide (k = k)).
      * rewrite Forall_forall in Hall, Hraw |- *. intros [k2 r2] Hin.
        specialize (Hall _ Hin). cbn beta iota in Hall. rewrite Hall.
        unfold get_or. rewrite fields_copy_entry. cbn [fst snd].
        destruct (decide (r2 = k)) as [->|Hne]; [|done].
        specialize (Hraw _ Hin). cbn [snd] in Hraw. destruct Hraw. by left.
Qed.

Lemma canonical_keys_spec doc :
  let doc' := foldl copy_entry doc canonical_keys in
  (forall key, key ∉ canonical_keys.*1 -> fields doc' !! key = fields doc !! key)
  /\ Forall (fun '(key, raw) => get doc' key = get_or doc raw (VStr ""))
            canonical_keys
  /\ companies doc' = companies doc
  /\ products doc' = products doc
  /\ match_details_of doc' = match_details_of doc.
Proof.
  apply copy_entries_spec.
  - unfold canonical_keys. rewrite !fmap_cons, fmap_nil. cbn [fst].
    repeat (apply NoDup_cons; split; [not_in_list|]).
    constructor.
  - unfold canonical_keys. rewrite !fmap_cons, fmap_nil. cbn [fst].
    repeat (apply Forall_cons; split; [cbn [snd]; not_in_list|]).
    constructor.
Qed.

(** What the loop body of [_enrich_documents] leaves in a document. *)
Lemma enrich_document_spec e self doc w doc' w' :
  enrich_document e self doc w = (Ok doc', w') ->
  w' = tick w /\ enriched_at self (clock e (ticks w)) doc doc'.
Proof.
  rewrite enrich_document_eq.
  rewrite (extract_entities_same_fields self doc)
    by (repeat constructor; unfold set_field; cbn [fields];
        by rewrite lookup_insert_ne).
  destruct (extract_entities self doc) as [[cs ps]|x] eqn:Hent; [|discriminate].
  intros [= <- <-]. split; [done|].
  unfold enriched. cbn [fst snd].
  set (base := set_products ps (set_companies cs
                 (set_field "scraped_at" (VStr (clock e (ticks w))) doc))).
  destruct (canonical_keys_spec base) as (Hother & Hall & Hc & Hp & Hm).
  set (copied := foldl copy_entry base canonical_keys) in *.
  assert (Hbase : forall key, key <> "scraped_at" ->
                              fields base !! key = fields doc !! key).
  { intros key Hne. unfold base, set_products, set_companies, set_field.
    cbn [fields]. by rewrite lookup_insert_ne. }
  assert (Hraw : forall raw,
            raw ∉ "scraped_at" :: "eurlex_url" :: canonical_keys.*1 ->
            fields copied !! raw = fields doc !! raw).
  { intros raw Hraw. apply not_elem_of_cons in Hraw as [H1 Hraw].
    apply not_elem_of_cons in Hraw as [H2 Hraw].
    rewrite Hother by done. by apply Hbase. }
  assert (Hget : forall raw dflt,
            raw ∉ "scraped_at" :: "eurlex_url" :: canonical_keys.*1 ->
            get_or copied raw dflt = get_or doc raw dflt).
  { intros raw dflt Hr. unfold get_or. by rewrite Hraw. }
  assert (Hfresh : forall raw,
            raw ∈ ["DN"; "TI"; "DD"; "AU"; "FM"; "SU"; "TX"; "TE"; "OJ"] ->
            raw ∉ "scraped_at" :: "eurlex_url" :: canonical_keys.*1).
  { intros raw Hin. unfold canonical_keys. rewrite !fmap_cons, fmap_nil.
    cbn [fst]. rewrite !elem_of_cons in Hin.
    destruct Hin as [->|[->|[->|[->|[->|[->|[->|[->|[->|Hin]]]]]]]]];
      try (by apply elem_of_nil in Hin); not_in_list. }
  assert (Hdn : get copied "DN" = get doc "DN").
  { apply Hget, Hfresh. in_list. }
  assert (Hstamp : get copied "scraped_at" = VStr (clock e (ticks w))).
  { unfold get, get_or. rewrite Hother.
    - unfold base, set_products, set_companies, set_field. cbn [fields].
      by rewrite lookup_insert_eq.
    - unfold canonical_keys. rewrite !fmap_cons, fmap_nil. cbn [fst].
      not_in_list. }
  assert (Hurl : fields copied !! "eurlex_url" = fields doc !! "eurlex_url").
  { rewrite Hother.
    - by rewrite Hbase.
    - unfold canonical_keys. rewrite !fmap_cons, fmap_nil. cbn [fst].
      not_in_list. }
  assert (Hkeys : forall key,
            key ∈ canonical_keys.*1 ->
            key <> "scraped_at" /\ key <> "eurlex_url").
  { intros key. unfold canonical_keys. rewrite !fmap_cons, fmap_nil.
    cbn [fst]. rewrite !elem_of_cons.
    intros [->|[->|[->|[->|[->|[->|[->|[->|[->|Hin]]]]]]]]];
      try (by apply elem_of_nil in Hin); done. }
  assert (Hall' : Forall (fun '(key, raw) =>
                            get copied key = get_or doc raw (VStr ""))
                         canonical_keys).
  { unfold canonical_keys in Hall |- *.
    repeat (apply Forall_cons in Hall as [?H Hall]).
    repeat constructor;
      match goal with
      | H : get copied ?k = _ |- get copied ?k = _ => rewrite H
      end; unfold get_or; by rewrite Hbase. }
  assert (Hcs : companies copied = Some cs) by (by rewrite Hc).
  assert (Hps : products copied = Some ps) by (by rewrite Hp).
  assert (Hmd : match_details_of copied = match_details_of doc)
    by (by rewrite Hm).
  clearbody copied. clear Hother Hall Hc Hp Hm Hbase. clearbody base.
  unfold with_url. rewrite Hdn.
  assert (Hfive : forall d : document,
            (forall raw,
               raw ∉ "scraped_at" :: "eurlex_url" :: canonical_keys.*1 ->
               fields d !! raw = fields doc !! raw) ->
            is_match self d = is_match self doc).
  { intros d Hd. apply is_match_same_fields. unfold searchable_keys.
    repeat constructor; apply Hd, Hfresh; in_list. }
  destruct (truthy (get doc "DN")) eqn:Hn.
  - assert (Hset : forall key, key <> "eurlex_url" ->
              fields (set_field "eurlex_url" (eurlex_url (get doc "DN")) copied)
                !! key = fields copied !! key).
    { intros key Hne. unfold set_field. cbn [fields].
      by rewrite lookup_insert_ne. }
    split; [by rewrite get_set_field_ne|].
    split.
    { rewrite Forall_forall in Hall' |- *. intros [key raw] Hin.
      specialize (Hall' _ Hin). cbn beta iota in Hall'. rewrite <- Hall'.
      apply get_set_field_ne. intros <-.
      assert (Hk : "eurlex_url" ∈ canonical_keys.*1).
      { apply list_elem_of_fmap. by exists ("eurlex_url", raw). }
      by apply Hkeys in Hk as [_ Hk]. }
    split; [rewrite Hn; unfold set_field; cbn [fields];
            by rewrite lookup_insert_eq|].
    split.
    { intros key Hkey. rewrite Hset; [by apply Hraw|].
      intros ->. apply Hkey. right. by left. }
    destruct (set_field_keeps "eurlex_url" (eurlex_url (get doc "DN")) copied)
      as (-> & -> & ->).
    split; [by rewrite Hcs, Hps|].
    split; [by rewrite Hcs|]. split; [by rewrite Hps|].
    split; [done|].
    apply Hfive. intros raw Hr. rewrite Hset; [by apply Hraw|].
    intros ->. apply Hr. right. by left.
  - split; [done|]. split; [done|]. split; [by rewrite Hn|]. split; [done|].
    split; [by rewrite Hcs, Hps|].
    split; [by rewrite Hcs|]. split; [by rewrite Hps|].
    split; [done|]. by apply Hfive.
Qed.

Lemma enrich_documents_length e self docs : forall out w w',
  enrich_documents e self docs w = (Ok out, w') -> length out = length docs.
Proof.
  induction docs as [|d docs IH]; intros out w w' H.
  - by injection H as <- _.
  - simpl in H.
    apply bind_Ok_inv in H as (d' & w1 & Hd & H).
    apply bind_Ok_inv in H as (rest & w2 & Hrest & H).
    injection H as <- _. simpl. f_equal. by eapply IH.
Qed.

(** X12.  [_enrich_documents] returns one document for each it is given,
    in order, and reads the clock once for each.  A document comes out
    with the clock reading as [scraped_at], the nine canonical entries
    copied from the raw ones (the empty string where the raw entry is
    absent), the address built from its number when it has one, the
    entities of [extract_entities], and every other entry, its match
    details and the verdict of [is_match] as they were. *)
Theorem enrich_documents_canonical
    (e : env) (self : matcher) (docs out : list document) (w w' : world) :
  enrich_documents e self docs w = (Ok out, w') ->
  length out = length docs
  /\ ticks w' = ticks w + length docs
  /\ same_store w w'
  /\ forall i doc doc',
       docs !! i = Some doc -> out !! i = Some doc' ->
       enriched_at self (clock e (ticks w + i)) doc doc'.
Proof.
  revert out w w'. induction docs as [|d docs IH]; intros out w w' H.
  - injection H as <- <-. split; [done|]. split; [simpl; lia|].
    split; [apply same_store_refl|]. intros i doc doc' Hi. done.
  - simpl in H.
    apply bind_Ok_inv in H as (d' & w1 & Hd & H).
    apply bind_Ok_inv in H as (rest & w2 & Hrest & H).
    injection H as <- <-.
    apply enrich_document_spec in Hd as [-> Hd].
    apply IH in Hrest as (Hlen & Hticks & Hstore & Hall).
    split; [simpl; by rewrite Hlen|]. split; [simpl in *; lia|].
    split; [eapply same_store_trans; [apply same_store_tick|done]|].
    intros [|i] doc doc' Hi Ho; simpl in Hi, Ho.
    + injection Hi as <-. injection Ho as <-. by rewrite Nat.add_0_r.
    + specialize (Hall i doc doc' Hi Ho). simpl in Hall.
      by replace (ticks w + S i) with (S (ticks w + i)) by lia.
Qed.

Lemma enrich_document_total e self doc w :
  text_entries_are_strings doc ->
  exists doc', enrich_document e self doc w = (Ok doc', tick w).
Proof.
  intros Hs. unfold enrich_document, bind, now, lift, ret.
  rewrite (extract_entities_same_fields self doc)
    by (repeat constructor; unfold set_field; simpl; by rewrite lookup_insert_ne).
  pose proof (extract_entities_Ok self doc Hs) as Hok.
  destruct (extract_entities self doc) as [entities|x]; [|done].
  by eexists.
Qed.

Lemma enrich_documents_total e self docs : forall w,
  Forall text_entries_are_strings docs ->
  exists out w', enrich_documents e self docs w = (Ok out, w').
Proof.
  induction docs as [|d docs IH]; intros w H; simpl.
  - by eexists _, _.
  - apply Forall_cons in H as [Hd H].
    destruct (enrich_document_total e self d w Hd) as [d' Hd'].
    destruct (IH (tick w) H) as (rest & w' & Hrest).
    unfold bind. rewrite Hd', Hrest. by eexists _, _.
Qed.

(** X13.  Enrichment never fails on what the filter hands on: the
    documents [filter_documents] returns have strings under the text
    keys, and [_enrich_documents] returns on them, whatever the clock and
    the store. *)
Theorem enrich_documents_after_filter
    (e : env) (self : matcher) (raw matched : list document) (w : world) :
  filter_documents self raw = Ok matched ->
  Forall text_entries_are_strings matched
  /\ exists enriched w',
       enrich_documents e self matched w = (Ok enriched, w')
       /\ length enriched = length matched.
Proof.
  intros H. apply filter_documents_strings in H. split; [done|].
  destruct (enrich_documents_total e self matched w H) as (out & w' & Hout).
  exists out, w'. split; [done|]. by eapply enrich_documents_length.
Qed.

End Enrichment.

(* ===================================================================== *)
(** ** The watermark and repeated runs *)
(* ===================================================================== *)

Section Watermark.

Local Open Scope Z_scope.

Lemma digit_digit_char n : digit (digit_char n) = Some (n mod 10).
Proof.
  unfold digit_char.
  assert (H : 0 <= n mod 10 < 10) by (apply Z.mod_pos_bound; lia).
  assert (Hk : exists k : nat, n mod 10 = Z.of_nat k /\ (k < 10)%nat).
  { exists (Z.to_nat (n mod 10)). lia. }
  destruct Hk as (k & -> & Hk). rewrite Nat2Z.id.
  do 10 (destruct k as [|k]; [reflexivity|]). lia.
Qed.

Lemma digit_char_not_dash n : Ascii.eqb (digit_char n) dash = false.
Proof.
  unfold digit_char.
  assert (H : 0 <= n mod 10 < 10) by (apply Z.mod_pos_bound; lia).
  assert (Hk : exists k : nat, Z.to_nat (n mod 10) = k /\ (k < 10)%nat).
  { exists (Z.to_nat (n mod 10)). lia. }
  destruct Hk as (k & -> & Hk).
  do 10 (destruct k as [|k]; [reflexivity|]). lia.
Qed.

Lemma parse_month_digits m tail :
  1 <= m <= 12 ->
  parse_month (digit_char (m / 10) :: digit_char m :: dash :: tail)
  = Some (m, tail).
Proof.
  intros H.
  assert (Hk : exists k : nat, m = Z.of_nat k /\ (k <= 12)%nat).
  { exists (Z.to_nat m). lia. }
  destruct Hk as (k & -> & Hk).
  do 13 (destruct k as [|k]; [try lia; reflexivity|]). lia.
Qed.

Lemma parse_day_digits d :
  1 <= d <= 31 ->
  parse_day [digit_char (d / 10); digit_char d] = Some d.
Proof.
  intros H.
  assert (Hk : exists k : nat, d = Z.of_nat k /\ (k <= 31)%nat).
  { exists (Z.to_nat d). lia. }
  destruct Hk as (k & -> & Hk).
  do 32 (destruct k as [|k]; [try lia; reflexivity|]). lia.
Qed.

Lemma days_in_month_le y m : days_in_month y m <= 31.
Proof.
  unfold days_in_month.
  destruct m as [|[p|p|]|]; try lia;
    repeat (destruct p as [p|p|]; try lia); destruct (is_leap y); lia.
Qed.

Lemma year_digits y :
  0 <= y <= 9999 ->
  1000 * ((y / 1000) mod 10) + 100 * ((y / 100) mod 10)
  + 10 * ((y / 10) mod 10) + y mod 10 = y.
Proof. intros H. Z.div_mod_to_equations. lia. Qed.

Lemma chars_str l : chars (str l) = l.
Proof. apply String.list_ascii_of_string_of_list_ascii. Qed.

Lemma strptime_isoformat (d : date) :
  well_formed d -> strptime (isoformat d) = Some d.
Proof.
  destruct d as [y m dd]. unfold well_formed. cbn [year month day].
  intros Hv. pose proof Hv as Hv'. unfold valid_date in Hv'.
  rewrite !andb_true_iff, !within_iff in Hv'. destruct Hv' as [[Hy Hm] Hd].
  pose proof (days_in_month_le y m) as Hdim.
  unfold strptime, isoformat. rewrite chars_str. cbn [year month day].
  rewrite !digit_digit_char, Ascii.eqb_refl.
  rewrite parse_month_digits by done.
  rewrite parse_day_digits by lia.
  rewrite year_digits by lia. by rewrite Hv.
Qed.

Lemma add_one_day_gt d next : add_one_day d = Ok next -> date_gt next d = true.
Proof.
  unfold add_one_day, date_gt. destruct d as [y m dd]. cbn [year month day].
  destruct (dd <? days_in_month y m) eqn:H1.
  { intros [= <-]. cbn [year month day].
    rewrite !Z.eqb_refl, Z.ltb_irrefl. simpl.
    rewrite orb_true_iff. right. apply Z.ltb_lt. lia. }
  destruct (m <? 12) eqn:H2.
  { intros [= <-]. cbn [year month day].
    rewrite Z.eqb_refl, Z.ltb_irrefl. simpl.
    rewrite orb_true_iff. left. apply Z.ltb_lt. lia. }
  destruct (y <? 9999) eqn:H3; [|discriminate].
  intros [= <-]. cbn [year month day]. rewrite orb_true_iff. left.
  apply Z.ltb_lt. lia.
Qed.

Lemma add_one_day_total d :
  well_formed d -> d <> Date 9999 12 31 -> is_ok (add_one_day d) = true.
Proof.
  intros Hw Hne. by destruct (add_one_day_next d Hw Hne) as (next & -> & _).
Qed.

Lemma isoformat_nonempty d : exists a s, isoformat d = String a s.
Proof. unfold isoformat, str. cbn [String.string_of_list_ascii]. eauto. Qed.

(** The window planned from a watermark that [isoformat] wrote. *)
Lemma plan_after_written_watermark e w d :
  well_formed d -> watermark w = VStr (isoformat d) ->
  get_date_range e w =
  (match add_one_day d with
   | Ok next => Ok (next, today e)
   | Raise x => Raise x
   end,
   snd (load_state w)).
Proof.
  intros Hw Hmark. rewrite get_date_range_unfold.
  destruct (load_state w) as [r w1]. unfold watermark in Hmark.
  rewrite Hmark. destruct (isoformat_nonempty d) as (a & s & Hs).
  rewrite Hs, <- Hs, (strptime_isoformat d Hw).
  by destruct (add_one_day d).
Qed.

(** X14.  The watermark a run writes reads back as the day it was written
    for: [strptime] undoes [isoformat] on every date of the calendar, and
    from a stored watermark [isoformat d] the next window is planned from
    the day after [d], up to today. *)
Theorem written_watermark_plans_next_day (e : env) (w : world) (d : date) :
  well_formed d -> d <> Date 9999 12 31 ->
  strptime (isoformat d) = Some d
  /\ (watermark w = VStr (isoformat d) ->
      exists next,
        fst (plan_window e false false w) = Ok (next, today e)
        /\ toordinal next = toordinal d + 1
        /\ date_gt next d = true).
Proof.
  intros Hw Hne. split; [by apply strptime_isoformat|].
  intros Hmark. unfold plan_window.
  rewrite (plan_after_written_watermark e w d Hw Hmark).
  destruct (add_one_day_next d Hw Hne) as (next & Hnext & Hord & _).
  exists next. rewrite Hnext. split; [done|]. split; [done|].
  by apply add_one_day_gt.
Qed.

End Watermark.

Section Runs.

Lemma silent_ret {A} (a : A) : silent (ret a).
Proof. by intros w r w' [= <- <-]. Qed.

Lemma silent_lift {A} (r : result A) : silent (lift r).
Proof. by intros w r' w' [= <- <-]. Qed.

Lemma silent_now e : silent (now e).
Proof. by intros w r w' [= <- <-]. Qed.

Lemma silent_bind {A B} (m : M A) (k : A -> M B) :
  silent m -> (forall a, silent (k a)) -> silent (bind m k).
Proof.
  intros Hm Hk w r w' H. unfold bind in H.
  destruct (m w) as [[a|x] w1] eqn:E.
  - etrans; [by eapply Hk|by eapply Hm].
  - injection H as <- <-. by eapply Hm.
Qed.

Lemma silent_load_results : silent load_results.
Proof.
  intros w r w' H. unfold load_results in H.
  by destruct (results_file w); injection H as <- <-.
Qed.

Lemma silent_save_results docs : silent (save_results docs).
Proof.
  intros w r w' H. unfold save_results in H. cbn in H.
  by destruct (results_writable w); injection H as <- <-.
Qed.

Lemma silent_save_state st : silent (save_state st).
Proof.
  intros w r w' H. unfold save_state in H. cbn in H.
  by destruct (state_writable w); injection H as <- <-.
Qed.

Lemma silent_enrich_documents e self docs : silent (enrich_documents e self docs).
Proof.
  induction docs as [|doc docs IH]; simpl; [apply silent_ret|].
  apply silent_bind.
  - intros w r w' H. rewrite enrich_document_eq in H.
    by destruct (extract_entities _ _); injection H as <- <-.
  - intros doc'. apply silent_bind; [apply IH|]. intros; apply silent_ret.
Qed.

Lemma bind_eq {A B} (m : M A) (k : A -> M B) w :
  bind m k w =
  match m w with
  | (Ok a, w1) => k a w1
  | (Raise x, w1) => (Raise x, w1)
  end.
Proof. reflexivity. Qed.

(** The three ways the [try] block of [scrape] can go, by what it sends
    to the gateway. *)
Lemma scrape_body_calls e self f c w0 r w' :
  scrape_body e self f c w0 = (r, w') ->
  (is_ok (fst (plan_window e f c w0)) = false
   /\ is_ok r = false /\ gateway_calls w' = gateway_calls w0)
  \/ (exists from_d,
        fst (plan_window e f c w0) = Ok (from_d, today e)
        /\ date_gt from_d (today e) = true
        /\ gateway_calls w' = gateway_calls w0
        /\ exists rep, r = Ok rep /\ status_of rep = up_to_date)
  \/ (exists from_d,
        fst (plan_window e f c w0) = Ok (from_d, today e)
        /\ date_gt from_d (today e) = false
        /\ gateway_calls w' = (from_d, today e, 10) :: gateway_calls w0
        /\ forall rep, r = Ok rep -> status_of rep = success).
Proof.
  unfold scrape_body. rewrite bind_eq.
  destruct (plan_window e f c w0) as [[[from_d to_d]|x] w1] eqn:Hplan.
  2: { intros [= <- <-]. left. split; [done|]. split; [done|].
       by apply plan_window_frame in Hplan as (_ & _ & ?). }
  intros H.
  pose proof (plan_window_today _ _ _ _ _ _ _ Hplan) as ->.
  apply plan_window_frame in Hplan as (_ & _ & Hcalls).
  right. destruct (date_gt from_d (today e)) eqn:Hgt.
  - left. exists from_d. split; [done|]. split; [done|].
    match type of H with ?m w1 = _ => assert (Hs : silent m) end.
    { apply silent_bind; [apply silent_load_results|]. intros existing.
      apply silent_bind; [apply silent_now|]. intros stamp.
      apply silent_bind; [apply silent_save_state|]. intros _.
      apply silent_ret. }
    split; [by rewrite (Hs _ _ _ H)|].
    rewrite bind_eq in H.
    destruct (load_results_frame w1) as (w2 & Hload & _). rewrite Hload in H.
    rewrite bind_eq in H. unfold now at 1 in H.
    rewrite bind_eq in H.
    destruct (never_raises_save_state
                {| last_checked_date := VStr (isoformat (today e));
                   last_run := VStr (clock e (ticks w2));
                   total_documents := length (stored_corpus w1) |} (tick w2))
      as ([] & w3 & Hsave).
    rewrite Hsave in H. injection H as <- _. by eexists.
  - right. exists from_d. split; [done|]. split; [done|].
    rewrite bind_eq in H. unfold search_trade_regulations at 1 in H.
    destruct (gateway e from_d (today e) 10) as [raw|x].
    2: { injection H as <- <-. split; [by cbn; rewrite Hcalls|done]. }
    match type of H with ?m _ = _ => assert (Hs : silent m) end.
    { apply silent_bind; [apply silent_lift|]. intros matched.
      apply silent_bind; [apply silent_enrich_documents|]. intros enriched.
      apply silent_bind; [apply silent_load_results|]. intros loaded.
      apply silent_bind.
      { destruct (deduplicate_documents _ enriched); [apply silent_ret|].
        apply silent_bind; [apply silent_lift|]. intros sorted.
        apply silent_bind; [apply silent_save_results|]. intros _.
        apply silent_ret. }
      intros all_results.
      apply silent_bind; [apply silent_now|]. intros stamp.
      apply silent_bind; [apply silent_save_state|]. intros _.
      apply silent_bind; [apply silent_now|]. intros finished.
      apply silent_ret. }
    split; [rewrite (Hs _ _ _ H); cbn; by rewrite Hcalls|].
    intros rep ->.
    apply bind_Ok_inv in H as (matched & w3 & _ & H).
    apply bind_Ok_inv in H as (enriched & w4 & _ & H).
    apply bind_Ok_inv in H as (loaded & w5 & _ & H).
    apply bind_Ok_inv in H as (all_results & w6 & _ & H).
    apply bind_Ok_inv in H as (stamp & w7 & _ & H).
    apply bind_Ok_inv in H as ([] & w8 & _ & H).
    apply bind_Ok_inv in H as (finished & w9 & _ & H).
    by injection H as <- _.
Qed.

(** X15.  A run sends at most one search to the gateway, and it is for
    the planned window up to today with ten pages at most: none when the
    run reports [up_to_date], exactly one when it reports [success]. *)
Theorem scrape_sends_at_most_one_search
    (e : env) (self : matcher) (force_full_2024 force_current_year : bool)
    (w : world) :
  let '(rep, w') := scrape e self force_full_2024 force_current_year w in
  (gateway_calls w' = gateway_calls w
   \/ exists from_d,
        gateway_calls w' = (from_d, today e, 10) :: gateway_calls w)
  /\ (status_of rep = up_to_date -> gateway_calls w' = gateway_calls w)
  /\ (status_of rep = success ->
      exists from_d,
        date_gt from_d (today e) = false
        /\ gateway_calls w' = (from_d, today e, 10) :: gateway_calls w).
Proof.
  unfold scrape.
  destruct (scrape_body _ _ _ _ (tick w)) as [[rep|x] w'] eqn:Hbody;
    apply scrape_body_calls in Hbody
      as [(_ & Hr & Hc)|[(from_d & _ & Hgt & Hc & rep' & Hr & Hst)
                        |(from_d & _ & Hgt & Hc & Hst)]];
    cbn [gateway_calls tick logger status_of] in *; try done.
  - injection Hr as <-. rewrite Hst.
    split; [by left|]. split; [done|]. done.
  - rewrite (Hst rep eq_refl).
    split; [right; by exists from_d|]. split; [done|].
    intros _. by exists from_d.
  - split; [by left|]. split; done.
  - split; [right; by exists from_d|]. split; done.
Qed.

(** X16.  With [force_current_year] the run does not read the watermark:
    whatever the state file holds, and whether or not [force_full_2024]
    is given too, it searches from the first of January of today's year
    up to today and never reports [up_to_date]. *)
Theorem forced_run_searches_current_year
    (e : env) (self : matcher) (force_full_2024 : bool) (w : world) :
  well_formed (today e) ->
  let '(rep, w') := scrape e self force_full_2024 true w in
  gateway_calls w'
  = (Date (year (today e)) 1 1, today e, 10) :: gateway_calls w
  /\ status_of rep <> up_to_date
  /\ log (snd (plan_window e force_full_2024 true w)) = log w.
Proof.
  intros Hwf. unfold scrape.
  assert (Hgt : date_gt (Date (year (today e)) 1 1) (today e) = false).
  { unfold well_formed, valid_date in Hwf.
    rewrite !andb_true_iff, !within_iff in Hwf.
    unfold date_gt. cbn [year month day]. rewrite Z.ltb_irrefl, Z.eqb_refl.
    cbn [orb andb]. apply orb_false_iff. split.
    - apply Z.ltb_ge. lia.
    - apply andb_false_iff.
      destruct (1 =? month (today e))%Z eqn:Hm; [right|by left].
      apply Z.ltb_ge. lia. }
  destruct (scrape_body _ _ _ _ (tick w)) as [[rep|x] w'] eqn:Hbody;
    apply scrape_body_calls in Hbody
      as [(Hp & _)|[(from_d & Hp & Hgt' & _)
                   |(from_d & Hp & _ & Hc & Hst)]];
    cbn [plan_window ret fst is_ok] in Hp; try done;
    try (injection Hp as <-; congruence).
  - injection Hp as <-. rewrite (Hst rep eq_refl). done.
  - injection Hp as <-. done.
Qed.

(** A run that reports [up_to_date], step by step. *)
Lemma scrape_idle e self f c w w1 from_d to_d :
  plan_window e f c (tick w) = (Ok (from_d, to_d), w1) ->
  date_gt from_d to_d = true ->
  let '(rep, w') := scrape e self f c w in
  status_of rep = up_to_date
  /\ new_documents rep = Some 0
  /\ reported_total_documents rep = Some (length (stored_corpus w))
  /\ results_file w' = results_file w
  /\ gateway_calls w' = gateway_calls w
  /\ (state_writable w = true ->
      watermark w' = VStr (isoformat to_d) /\ state_writable w' = true).
Proof.
  intros Hplan Hgt. unfold scrape, scrape_body, bind. rewrite Hplan, Hgt.
  apply plan_window_frame in Hplan
    as ((Hrf & Hsf & Hrw & Hsw & Hreq) & Hticks & Hcalls).
  cbn [tick results_file state_file results_writable state_writable
       store_requests ticks gateway_calls] in *.
  destruct (load_results_frame w1)
    as (w2 & -> & (Hrf2 & Hsf2 & Hrw2 & Hsw2 & Hreq2) & Hticks2 & Hcalls2).
  assert (Hcorpus : stored_corpus w1 = stored_corpus w).
  { unfold stored_corpus. by rewrite Hrf. }
  unfold now, save_state, ret.
  cbn [record_request tick state_writable]. rewrite Hsw2, Hsw.
  unfold watermark, stored_state.
  destruct (state_writable w);
    cbn [status_of new_documents reported_total_documents results_file
         gateway_calls state_file with_state logger state_writable
         last_checked_date record_request tick];
    rewrite Hcorpus, Hrf2, Hrf, Hcalls2, Hcalls;
    repeat split; try done; congruence.
Qed.

(** A run that does not fail leaves today's date as the watermark. *)
Lemma scrape_body_watermark e self f c w0 rep w' :
  scrape_body e self f c w0 = (Ok rep, w') ->
  state_writable w0 = true ->
  watermark w' = VStr (isoformat (today e)) /\ state_writable w' = true.
Proof.
  intros Hbody Hsw. unfold scrape_body in Hbody.
  apply bind_Ok_inv in Hbody as ([from_d to_d] & w1 & Hplan & Hbody).
  pose proof (plan_window_today _ _ _ _ _ _ _ Hplan) as ->.
  apply plan_window_frame in Hplan as ((_ & _ & _ & Hsw1 & _) & _).
  assert (Hfinal : forall st wa wb u,
            state_writable wa = true ->
            last_checked_date st = VStr (isoformat (today e)) ->
            save_state st wa = (Ok u, wb) ->
            watermark wb = VStr (isoformat (today e))
            /\ state_writable wb = true).
  { intros st wa wb u Hwa Hst Hsave. unfold save_state in Hsave.
    cbn [record_request state_writable] in Hsave. rewrite Hwa in Hsave.
    injection Hsave as _ <-. unfold watermark, stored_state.
    cbn [with_state state_file state_writable record_request]. done. }
  destruct (date_gt from_d (today e)).
  - apply bind_Ok_inv in Hbody as (existing & w2 & Hload & Hbody).
    apply quiet_load_results in Hload as (_ & _ & _ & Hsw2 & _).
    apply bind_Ok_inv in Hbody as (stamp & w3 & Hnow & Hbody).
    injection Hnow as <- <-.
    apply bind_Ok_inv in Hbody as ([] & w4 & Hsave & Hbody).
    injection Hbody as _ <-.
    apply (fun H1 H2 => Hfinal _ _ _ _ H1 H2 Hsave); [|done].
    cbn [tick state_writable]. congruence.
  - apply bind_Ok_inv in Hbody as (raw & w2 & Hsearch & Hbody).
    apply quiet_search in Hsearch as (_ & _ & _ & Hsw2 & _).
    apply bind_Ok_inv in Hbody as (matched & w3 & Hfilter & Hbody).
    injection Hfilter as _ <-.
    apply bind_Ok_inv in Hbody as (enriched & w4 & Henrich & Hbody).
    apply quiet_enrich_documents in Henrich as (_ & _ & _ & Hsw4 & _).
    apply bind_Ok_inv in Hbody as (loaded & w5 & Hload & Hbody).
    apply quiet_load_results in Hload as (_ & _ & _ & Hsw5 & _).
    apply bind_Ok_inv in Hbody as (all_results & w6 & Hmid & Hbody).
    assert (Hsw6 : state_writable w6 = state_writable w5).
    { destruct (deduplicate_documents _ enriched).
      - by injection Hmid as _ <-.
      - apply bind_Ok_inv in Hmid as (sorted & w5a & Hsort & Hmid).
        injection Hsort as _ <-.
        apply bind_Ok_inv in Hmid as ([] & w5b & Hsaver & Hmid).
        injection Hmid as _ <-. unfold save_results in Hsaver.
        cbn [record_request results_writable] in Hsaver.
        by destruct (results_writable w5); injection Hsaver as <-. }
    apply bind_Ok_inv in Hbody as (stamp & w7 & Hnow & Hbody).
    injection Hnow as <- <-.
    apply bind_Ok_inv in Hbody as ([] & w8 & Hsave & Hbody).
    apply bind_Ok_inv in Hbody as (finished & w9 & Hnow2 & Hbody).
    injection Hnow2 as <- <-. injection Hbody as _ <-.
    cut (watermark w8 = VStr (isoformat (today e)) /\ state_writable w8 = true);
      [done|].
    apply (fun H1 H2 => Hfinal _ _ _ _ H1 H2 Hsave); [|done].
    cbn [tick state_writable]. congruence.
Qed.

(** X17.  Running again on the same day is idle.  After a run that did
    not fail and could write the state, a second plain run on that day
    reports [up_to_date] with no new document, sends nothing to the
    gateway and leaves the corpus file as it is. *)
Theorem second_run_same_day_is_idle
    (e : env) (self : matcher) (force_full_2024 force_current_year : bool)
    (w : world) :
  well_formed (today e) -> today e <> Date 9999 12 31 ->
  state_writable w = true ->
  let '(rep1, w1) := scrape e self force_full_2024 force_current_year w in
  status_of rep1 <> error ->
  let '(rep2, w2) := scrape e self false false w1 in
  status_of rep2 = up_to_date
  /\ new_documents rep2 = Some 0
  /\ reported_total_documents rep2 = Some (length (stored_corpus w1))
  /\ gateway_calls w2 = gateway_calls w1
  /\ results_file w2 = results_file w1
  /\ watermark w2 = VStr (isoformat (today e)).
Proof.
  intros Hwf Hne Hsw. unfold scrape at 1.
  destruct (scrape_body _ _ _ _ (tick w)) as [[rep1|x] w1] eqn:Hbody;
    [|by intros []].
  intros _. apply scrape_body_watermark in Hbody as [Hmark Hsw1]; [|done].
  destruct (add_one_day_next (today e) Hwf Hne) as (next & Hnext & _ & _).
  assert (Hplan : plan_window e false false (tick w1)
                  = (Ok (next, today e), snd (load_state (tick w1)))).
  { unfold plan_window.
    rewrite (plan_after_written_watermark e (tick w1) (today e) Hwf Hmark).
    by rewrite Hnext. }
  pose proof (scrape_idle e self false false w1 _ _ _ Hplan
                (add_one_day_gt _ _ Hnext)) as Hidle.
  destruct (scrape e self false false w1) as [rep2 w2].
  destruct Hidle as (H1 & H2 & H3 & H4 & H5 & H6).
  destruct (H6 Hsw1) as [H7 _]. done.
Qed.

(** X18.  The counts of a successful run are consistent: the new
    documents are among the enriched matches, the matches among the raw
    records fetched, and the total is the size of the cleaned corpus plus
    the new documents.  When there are new documents and the corpus file
    can be written, the total is the size of the corpus the run leaves
    in the store. *)
Theorem scrape_success_counts
    (e : env) (self : matcher) (force_full_2024 force_current_year : bool)
    (w : world) :
  let '(rep, w') := scrape e self force_full_2024 force_current_year w in
  status_of rep = success ->
  exists n_new n_matched n_raw,
    new_documents rep = Some n_new
    /\ matched_documents rep = Some n_matched
    /\ raw_documents_fetched rep = Some n_raw
    /\ n_new <= n_matched <= n_raw
    /\ reported_total_documents rep
       = Some (length (clean_existing_duplicates (stored_corpus w)) + n_new)
    /\ message rep
       = "Successfully scraped " +:+ pretty n_new +:+ " new documents"
    /\ (0 < n_new -> results_writable w = true ->
        length (stored_corpus w')
        = length (clean_existing_duplicates (stored_corpus w)) + n_new).
Proof.
  unfold scrape.
  destruct (scrape_body _ _ _ _ (tick w)) as [[rep|x] w'] eqn:Hbody;
    [|discriminate].
  intros Hstatus. unfold scrape_body in Hbody.
  apply bind_Ok_inv in Hbody as ([from_d to_d] & w1 & Hplan & Hbody).
  apply plan_window_frame in Hplan as (Hs1 & _).
  destruct (date_gt from_d to_d).
  { apply bind_Ok_inv in Hbody as (? & ? & _ & Hbody).
    apply bind_Ok_inv in Hbody as (? & ? & _ & Hbody).
    apply bind_Ok_inv in Hbody as (? & ? & _ & Hbody).
    injection Hbody as <- _. discriminate. }
  apply bind_Ok_inv in Hbody as (raw & w2 & Hsearch & Hbody).
  apply bind_Ok_inv in Hbody as (matched & w3 & Hfilter & Hbody).
  apply bind_Ok_inv in Hbody as (enriched & w4 & Henrich & Hbody).
  apply bind_Ok_inv in Hbody as (loaded & w5x & Hload & Hbody).
  apply bind_Ok_inv in Hbody as (all_results & w6 & Hmid & Hbody).
  apply bind_Ok_inv in Hbody as (stamp & w7 & Hnow & Hbody).
  apply bind_Ok_inv in Hbody as ([] & w8 & Hsave & Hbody).
  apply bind_Ok_inv in Hbody as (finished & w9 & Hnow2 & Hbody).
  injection Hbody as <- <-. clear Hstatus.
  pose proof (quiet_search _ _ _ _ _ _ _ Hsearch) as Hs2.
  injection Hfilter as Hfilter <-.
  apply filter_documents_length in Hfilter.
  pose proof (quiet_enrich_documents _ _ _ _ _ _ Henrich) as Hs4.
  apply enrich_documents_length in Henrich.
  destruct (load_results_frame w4) as (w5 & Hload' & Hs5 & _).
  rewrite Hload' in Hload. injection Hload as <- <-.
  assert (Hs : same_store w w5).
  { apply (same_store_trans _ (tick w)); [apply same_store_tick|].
    apply (same_store_trans _ w1); [done|].
    apply (same_store_trans _ w2); [done|].
    by apply (same_store_trans _ w4). }
  assert (Hcorpus : stored_corpus w4 = stored_corpus w).
  { unfold stored_corpus.
    assert (H04 : same_store w w4).
    { apply (same_store_trans _ (tick w)); [apply same_store_tick|].
      apply (same_store_trans _ w1); [done|].
      by apply (same_store_trans _ w2). }
    by rewrite (proj1 H04). }
  rewrite Hcorpus in *.
  destruct Hs as (Hrf & Hsf & Hrw5 & Hsw5 & Hreq).
  set (existing := clean_existing_duplicates (stored_corpus w)) in *.
  set (unique_new := deduplicate_documents existing enriched) in *.
  assert (Hnew : length unique_new <= length enriched).
  { apply sublist_length, dedup_loop_sublist. }
  injection Hnow as <- <-. injection Hnow2 as <- <-.
  exists (length unique_new), (length matched), (length raw).
  cbn [new_documents matched_documents raw_documents_fetched
       reported_total_documents message].
  split; [done|]. split; [done|]. split; [done|]. split; [lia|].
  assert (Hsaved : stored_corpus w8 = stored_corpus w6).
  { unfold save_state in Hsave. cbn [record_request state_writable tick] in Hsave.
    unfold stored_corpus.
    by destruct (state_writable w6); injection Hsave as <-. }
  change (stored_corpus (tick w8)) with (stored_corpus w8). rewrite Hsaved.
  destruct unique_new as [|doc unique_rest] eqn:Hu.
  - injection Hmid as <- <-. rewrite Nat.add_0_r.
    split; [done|]. split; [done|]. simpl. lia.
  - apply bind_Ok_inv in Hmid as (sorted & w5a & Hsort & Hmid).
    injection Hsort as Hsort <-. apply sort_newest_first_Ok in Hsort as ->.
    apply bind_Ok_inv in Hmid as ([] & w5b & Hsaver & Hmid).
    injection Hmid as <- <-.
    pose proof (stable_sort_newest_first_perm (existing ++ doc :: unique_rest))
      as Hperm.
    rewrite (Permutation_length Hperm), length_app.
    split; [done|]. split; [done|]. intros _ Hw.
    unfold save_results in Hsaver.
    cbn [record_request results_writable] in Hsaver.
    rewrite Hrw5, Hw in Hsaver. injection Hsaver as <-.
    unfold stored_corpus. cbn [with_results results_file].
    by rewrite (Permutation_length Hperm), length_app.
Qed.

End Runs.

(* ===================================================================== *)
(** ** Statistics *)
(* ===================================================================== *)

Section Counting.

Context {K : Type} (eqb : K -> K -> bool).
Hypothesis eqb_spec : forall a b, eqb a b = true <-> a = b.

Lemma eqb_false a b : eqb a b = false <-> a <> b.
Proof. rewrite <- eqb_spec. by destruct (eqb a b). Qed.

Lemma bump_keys_subset key table k :
  k ∈ (bump eqb key table).*1 -> k = key \/ k ∈ table.*1.
Proof.
  induction table as [|[k0 n0] table IH]; simpl.
  - intros ->%list_elem_of_singleton. by left.
  - destruct (eqb k0 key) eqn:E; simpl.
    + intros H. by right.
    + intros [->|H]%elem_of_cons; [right; by left|].
      destruct (IH H) as [->|H']; [by left|right; by right].
Qed.

Lemma bump_spec key table :
  NoDup (table.*1) ->
  NoDup ((bump eqb key table).*1)
  /\ (forall k n,
        (k, n) ∈ bump eqb key table <->
        (k <> key /\ (k, n) ∈ table)
        \/ (k = key
            /\ ((exists m, (key, m) ∈ table /\ n = S m)
                \/ ((key ∉ table.*1) /\ n = 1))))
  /\ sum_list ((bump eqb key table).*2) = S (sum_list (table.*2)).
Proof.
  induction table as [|[k0 n0] table IH]; intros Hnd.
  - simpl. split; [repeat constructor; by intros ?%elem_of_nil|].
    split; [|done]. intros k n. rewrite list_elem_of_singleton. split.
    + intros H. simplify_eq. right. split; [done|]. right.
      split; [by intros ?%elem_of_nil|done].
    + intros [[_ H]|[Hk [(m & H & _)|[_ Hn]]]].
      * by apply elem_of_nil in H.
      * by apply elem_of_nil in H.
      * by subst.
  - rewrite fmap_cons in Hnd. apply NoDup_cons in Hnd as [Hk0 Hnd].
    cbn [fst] in Hk0.
    assert (Hfresh : forall m, (k0, m) ∉ table).
    { intros m Hm. apply Hk0. apply list_elem_of_fmap. by exists (k0, m). }
    simpl. destruct (eqb k0 key) eqn:E.
    + apply eqb_spec in E as ->. simpl. split; [by constructor|].
      split; [|done]. intros k n. rewrite !elem_of_cons. split.
      * intros [H|H].
        -- simplify_eq. right. split; [done|]. left. exists n0.
           split; [by left|done].
        -- left. split; [|by right]. intros Hk. subst k.
           by apply (Hfresh n).
      * intros [[Hne [H|H]]|[Hk [(m & H & Hn)|[Hnot _]]]].
        -- injection H as H1 H2. by destruct Hne.
        -- by right.
        -- apply elem_of_cons in H as [H|H].
           ++ simplify_eq. by left.
           ++ by apply Hfresh in H.
        -- destruct Hnot. by left.
    + apply eqb_false in E. destruct (IH Hnd) as (IH1 & IH2 & IH3).
      simpl. split.
      { constructor; [|done]. intros [->|H]%bump_keys_subset; done. }
      split; [|change (n0 + sum_list ((bump eqb key table).*2)
                        = S (n0 + sum_list (table.*2))); lia].
      intros k n. rewrite !elem_of_cons, IH2. split.
      * intros [H|[[Hne H]|[Hk [(m & H & Hn)|[Hnot Hn]]]]].
        -- simplify_eq. left. split; [done|by left].
        -- left. split; [done|by right].
        -- right. split; [done|]. left. exists m. split; [by right|done].
        -- right. split; [done|]. right. split; [|done].
           intros [Heq|H]; [by apply E|done].
      * intros [[Hne [H|H]]|[Hk [(m & H & Hn)|[Hnot Hn]]]].
        -- by left.
        -- right. left. done.
        -- apply elem_of_cons in H as [H|H].
           ++ injection H as H1 H2. by destruct E.
           ++ right. right. split; [done|]. left. by exists m.
        -- right. right. split; [done|]. right. split; [|done].
           intros H. apply Hnot. by right.
Qed.

Lemma tally_snoc keys key :
  tally eqb (keys ++ [key]) = bump eqb key (tally eqb keys).
Proof. unfold tally. by rewrite foldl_app. Qed.

Lemma occurrences_snoc k keys key :
  occurrences eqb k (keys ++ [key])
  = occurrences eqb k keys + (if eqb k key then 1 else 0).
Proof.
  unfold occurrences. rewrite List.filter_app, length_app. simpl.
  by destruct (eqb k key).
Qed.

Lemma occurrences_pos k keys : k ∈ keys -> 0 < occurrences eqb k keys.
Proof.
  unfold occurrences. induction keys as [|x keys IH]; [by intros ?%elem_of_nil|].
  simpl. intros [->|H]%elem_of_cons.
  - rewrite (proj2 (eqb_spec x x) eq_refl). simpl. lia.
  - destruct (eqb k x); simpl; [lia|auto].
Qed.

Lemma occurrences_zero k keys : k ∉ keys -> occurrences eqb k keys = 0.
Proof.
  unfold occurrences. induction keys as [|x keys IH]; [done|].
  intros [Hne H]%not_elem_of_cons. simpl.
  apply eqb_false in Hne. rewrite Hne. auto.
Qed.

Lemma tally_spec keys :
  NoDup ((tally eqb keys).*1)
  /\ (forall k n,
        (k, n) ∈ tally eqb keys <-> k ∈ keys /\ n = occurrences eqb k keys)
  /\ sum_list ((tally eqb keys).*2) = length keys.
Proof.
  induction keys as [|key keys IH] using rev_ind.
  - split; [constructor|]. split; [|done]. intros k n. split.
    + by intros ?%elem_of_nil.
    + by intros [?%elem_of_nil _].
  - destruct IH as (IH1 & IH2 & IH3). rewrite tally_snoc.
    destruct (bump_spec key (tally eqb keys) IH1) as (B1 & B2 & B3).
    split; [done|]. split; [|rewrite B3, IH3, length_app; simpl; lia].
    intros k n. rewrite B2, occurrences_snoc, elem_of_app, list_elem_of_singleton.
    split.
    + intros [[Hne H]|[-> [(m & H & ->)|[Hnot ->]]]].
      * apply IH2 in H as [Hin ->]. apply eqb_false in Hne. rewrite Hne.
        split; [by left|lia].
      * apply IH2 in H as [Hin ->].
        rewrite (proj2 (eqb_spec key key) eq_refl). split; [by right|lia].
      * rewrite (proj2 (eqb_spec key key) eq_refl). split; [by right|].
        rewrite occurrences_zero; [done|]. intros Hin. apply Hnot.
        apply list_elem_of_fmap. exists (key, occurrences eqb key keys).
        split; [done|]. by apply IH2.
    + intros [Hin ->]. destruct (eqb k key) eqn:E.
      * apply eqb_spec in E as ->. right. split; [done|].
        destruct (existsb (eqb key) keys) eqn:Hex.
        -- apply existsb_exists in Hex as (x & Hx%list_elem_of_In & Hxe).
           apply eqb_spec in Hxe as <-. left.
           exists (occurrences eqb key keys). split; [by apply IH2|lia].
        -- assert (Hnot : key ∉ keys).
           { intros Hk%list_elem_of_In.
             assert (Ht : existsb (eqb key) keys = true).
             { apply existsb_exists. exists key. split; [done|].
               by apply eqb_spec. }
             congruence. }
           right. rewrite occurrences_zero by done. split; [|done].
           intros ([k' m] & Hk' & Hm)%list_elem_of_fmap. cbn [fst] in Hk'.
           subst k'. by apply IH2 in Hm as [Hm _].
      * apply eqb_false in E. left. split; [done|]. apply IH2.
        destruct Hin as [Hin| ->]; [|done]. split; [done|lia].
Qed.

Lemma insert_by_count_perm (item : K * nat) sorted :
  insert_by_count item sorted ≡ₚ item :: sorted.
Proof.
  induction sorted as [|other rest IH]; simpl; [done|].
  destruct (_ <? _); [|done]. rewrite IH. apply Permutation_swap.
Qed.

Lemma sorted_by_count_perm (table : list (K * nat)) :
  sorted_by_count table ≡ₚ table.
Proof.
  induction table as [|item table IH]; simpl; [done|].
  rewrite insert_by_count_perm. by rewrite IH.
Qed.

Lemma insert_by_count_sorted (item : K * nat) sorted :
  Sorted counts_down sorted -> Sorted counts_down (insert_by_count item sorted).
Proof.
  unfold counts_down.
  induction 1 as [|other rest Hs IH Hhd]; simpl.
  - repeat constructor.
  - destruct (snd item <? snd other) eqn:Hlt.
    + apply Nat.ltb_lt in Hlt. constructor; [done|].
      destruct Hhd as [|next rest Hnext]; simpl.
      * constructor. lia.
      * destruct (snd item <? snd next); constructor; [done|lia].
    + apply Nat.ltb_ge in Hlt. constructor; [by constructor|]. by constructor.
Qed.

Lemma sorted_by_count_sorted (table : list (K * nat)) :
  Sorted counts_down (sorted_by_count table).
Proof.
  induction table as [|item table IH]; simpl; [constructor|].
  by apply insert_by_count_sorted.
Qed.

Lemma counts_of_tally keys :
  counts_of eqb keys (sorted_by_count (tally eqb keys)).
Proof.
  destruct (tally_spec keys) as (H1 & H2 & H3).
  pose proof (sorted_by_count_perm (tally eqb keys)) as Hp.
  split; [by rewrite Hp|]. split; [|split].
  - intros k n. by rewrite Hp.
  - by rewrite Hp.
  - apply sorted_by_count_sorted.
Qed.

End Counting.

Section Statistics.

Lemma value_eqb_spec a b : value_eqb a b = true <-> a = b.
Proof.
  destruct a as [|x], b as [|y]; simpl; try done.
  rewrite String.eqb_eq. split; [by intros ->|by intros [= ->]].
Qed.

(** X19.  [get_statistics] only reads the store and never fails.  The
    total is the size of the stored corpus.  Each of its four tables
    holds one item for each value that occurs, with the number of its
    occurrences, the larger counts first; the counts of the table of
    types, and of the table of authors, add up to the total. *)
Theorem get_statistics_counts (w : world) :
  let docs := stored_corpus w in
  exists s w',
    get_statistics w = (Ok s, w')
    /\ same_store w w'
    /\ stat_total_documents s = length docs
    /\ stat_last_run s = last_run (stored_state w)
    /\ stat_last_checked_date s = watermark w
    /\ counts_of value_eqb
         (map (fun doc => get_or doc "form" (VStr "Unknown")) docs)
         (document_types s)
    /\ counts_of value_eqb
         (map (fun doc => get_or doc "author" (VStr "Unknown")) docs)
         (authors s)
    /\ counts_of String.eqb
         (flat_map (fun doc => default [] (companies doc)) docs)
         (company_counts s)
    /\ counts_of String.eqb
         (flat_map (fun doc => default [] (products doc)) docs)
         (product_counts s)
    /\ sum_list ((document_types s).*2) = stat_total_documents s
    /\ sum_list ((authors s).*2) = stat_total_documents s.
Proof.
  intros docs. unfold get_statistics, bind.
  destruct (load_results_frame w) as (w1 & -> & (Hs1 & _)).
  pose proof (quiet_load_state w1) as Hq.
  pose proof (load_state_result w1) as Hl.
  destruct (load_state w1) as [r w2] eqn:E. simpl in Hl. subst r.
  specialize (Hq _ _ eq_refl).
  assert (Hst : stored_state w1 = stored_state w).
  { unfold stored_state. destruct Hs1 as (_ & -> & _). done. }
  rewrite Hst. fold docs.
  pose proof (counts_of_tally value_eqb value_eqb_spec
                (map (fun doc => get_or doc "form" (VStr "Unknown")) docs)) as Ht.
  pose proof (counts_of_tally value_eqb value_eqb_spec
                (map (fun doc => get_or doc "author" (VStr "Unknown")) docs)) as Ha.
  pose proof (counts_of_tally String.eqb String.eqb_eq
                (flat_map (fun doc => default [] (companies doc)) docs)) as Hc.
  pose proof (counts_of_tally String.eqb String.eqb_eq
                (flat_map (fun doc => default [] (products doc)) docs)) as Hp.
  assert (Hstore : same_store w w2) by (by eapply same_store_trans).
  assert (Hsum :
    sum_list ((sorted_by_count (tally value_eqb
       (map (fun doc => get_or doc "form" (VStr "Unknown")) docs))).*2)
    = length docs
    /\ sum_list ((sorted_by_count (tally value_eqb
          (map (fun doc => get_or doc "author" (VStr "Unknown")) docs))).*2)
       = length docs).
  { destruct Ht as (_ & _ & -> & _). destruct Ha as (_ & _ & -> & _).
    by rewrite !length_map. }
  destruct Hsum as [Hsum1 Hsum2].
  destruct docs as [|d docs'] eqn:Hd.
  - eexists _, _. split; [done|].
    cbn [stat_total_documents stat_last_run stat_last_checked_date
         document_types authors company_counts product_counts].
    split; [done|]. split; [done|]. split; [done|]. split; [done|].
    split; [exact Ht|]. split; [exact Ha|]. split; [exact Hc|].
    split; [exact Hp|]. done.
  - rewrite <- Hd in *. eexists _, _. split; [done|].
    cbn [stat_total_documents stat_last_run stat_last_checked_date
         document_types authors company_counts product_counts].
    split; [done|]. split; [done|]. split; [done|]. split; [done|].
    split; [done|]. split; [done|]. split; [done|]. split; [done|]. done.
Qed.

Lemma ascii_compare_lt_trans a b c :
  Ascii.compare a b = Lt -> Ascii.compare b c = Lt -> Ascii.compare a c = Lt.
Proof.
  unfold Ascii.compare. rewrite !N.compare_lt_iff. lia.
Qed.

Lemma string_compare_trans a : forall b c,
  String.compare a b <> Gt -> String.compare b c <> Gt ->
  String.compare a c <> Gt.
Proof.
  induction a as [|x a IH]; intros b c Hab Hbc.
  - by destruct c.
  - destruct b as [|y b]; [done|]. destruct c as [|z c]; [done|].
    simpl in *.
    destruct (Ascii.compare x y) eqn:Hxy; [|clear Hab|done].
    + apply Ascii.compare_eq_iff in Hxy as ->.
      destruct (Ascii.compare y z) eqn:Hyz; [|done|done].
      by apply (IH b c).
    + destruct (Ascii.compare y z) eqn:Hyz; [| |done].
      * apply Ascii.compare_eq_iff in Hyz as ->. by rewrite Hxy.
      * by rewrite (ascii_compare_lt_trans x y z).
Qed.

Lemma leb_trans a b c :
  String.leb a b = true -> String.leb b c = true -> String.leb a c = true.
Proof.
  unfold String.leb. intros Hab Hbc.
  pose proof (string_compare_trans a b c) as H.
  destruct (String.compare a b), (String.compare b c), (String.compare a c);
    try done; exfalso; by apply H.
Qed.

Lemma leb_refl a : String.leb a a = true.
Proof. apply not_ltb_leb, ltb_irrefl. Qed.

Lemma least_fold rest : forall m,
  let r := foldl (fun m y => if String.ltb y m then y else m) m rest in
  r ∈ m :: rest /\ forall d, d ∈ m :: rest -> String.leb r d = true.
Proof.
  induction rest as [|y rest IH]; intros m; simpl.
  - split; [by left|]. intros d ->%list_elem_of_singleton. apply leb_refl.
  - destruct (IH (if String.ltb y m then y else m)) as [Hin Hle].
    split.
    + apply elem_of_cons in Hin as [->|Hin].
      * destruct (String.ltb y m); [right; by left|by left].
      * right. by right.
    + intros d Hd.
      assert (Hm : String.leb (if String.ltb y m then y else m) m = true).
      { destruct (String.ltb y m) eqn:E; [by apply ltb_leb|apply leb_refl]. }
      assert (Hy : String.leb (if String.ltb y m then y else m) y = true).
      { destruct (String.ltb y m) eqn:E; [apply leb_refl|by apply not_ltb_leb]. }
      pose proof (Hle _ (list_elem_of_here _ _)) as H0.
      apply elem_of_cons in Hd as [->|[->|Hd]%elem_of_cons].
      * by eapply leb_trans.
      * by eapply leb_trans.
      * apply Hle. by right.
Qed.

Lemma greatest_fold rest : forall m,
  let r := foldl (fun m y => if String.ltb m y then y else m) m rest in
  r ∈ m :: rest /\ forall d, d ∈ m :: rest -> String.leb d r = true.
Proof.
  induction rest as [|y rest IH]; intros m; simpl.
  - split; [by left|]. intros d ->%list_elem_of_singleton. apply leb_refl.
  - destruct (IH (if String.ltb m y then y else m)) as [Hin Hle].
    split.
    + apply elem_of_cons in Hin as [->|Hin].
      * destruct (String.ltb m y); [right; by left|by left].
      * right. by right.
    + intros d Hd.
      assert (Hm : String.leb m (if String.ltb m y then y else m) = true).
      { destruct (String.ltb m y) eqn:E; [by apply ltb_leb|apply leb_refl]. }
      assert (Hy : String.leb y (if String.ltb m y then y else m) = true).
      { destruct (String.ltb m y) eqn:E; [apply leb_refl|by apply not_ltb_leb]. }
      pose proof (Hle _ (list_elem_of_here _ _)) as H0.
      apply elem_of_cons in Hd as [->|[->|Hd]%elem_of_cons].
      * by eapply leb_trans.
      * by eapply leb_trans.
      * apply Hle. by right.
Qed.

Lemma bounds_of_least_greatest dates :
  bounds_of dates (least dates) (greatest dates).
Proof.
  destruct dates as [|x rest]; [done|]. simpl.
  destruct (least_fold rest x) as [H1 H2].
  destruct (greatest_fold rest x) as [H3 H4].
  split; [done|]. split; [done|]. intros d Hd. split; auto.
Qed.

(** X20.  The date range of [get_statistics] bounds the publication dates
    of the stored corpus: [earliest] and [latest] are dates of the
    corpus, every date that is present and not empty lies between them
    in the order of strings, and both are [None] exactly when no document
    has such a date. *)
Theorem get_statistics_date_range (w : world) :
  exists s w',
    get_statistics w = (Ok s, w')
    /\ bounds_of (truthy_values "publication_date" (stored_corpus w))
                 (earliest s) (latest s).
Proof.
  unfold get_statistics, bind.
  destruct (load_results_frame w) as (w1 & -> & _).
  pose proof (load_state_result w1) as Hl.
  destruct (load_state w1) as [r w2] eqn:E. simpl in Hl. subst r.
  pose proof (bounds_of_least_greatest
                (truthy_values "publication_date" (stored_corpus w))) as Hb.
  destruct (stored_corpus w) as [|d docs] eqn:Hd.
  - eexists _, _. split; [done|]. done.
  - eexists _, _. split; [done|]. exact Hb.
Qed.

End Statistics.

(* ===================================================================== *)
(** ** Filters and the CSV export *)
(* ===================================================================== *)

Section Filters.

Lemma keep_if_Returns test docs out :
  keep_if test docs = Returns out ->
  out = List.filter (fun d => holds_true (test d)) docs
  /\ Forall (fun d => exists b, test d = Returns b) docs.
Proof.
  revert out. induction docs as [|d docs IH]; intros out H; simpl in H.
  - injection H as <-. split; [done|constructor].
  - destruct (test d) as [b|x] eqn:Ht; [|discriminate]. simpl in H.
    destruct (keep_if test docs) as [kept|x]; [|discriminate].
    destruct (IH kept eq_refl) as [-> Hall]. simpl in H. injection H as <-.
    split; [|constructor; [by exists b|done]].
    simpl. rewrite Ht. simpl. by destruct b.
Qed.

Lemma keep_if_total test docs :
  Forall (fun d => exists b, test d = Returns b) docs ->
  exists out, keep_if test docs = Returns out.
Proof.
  induction 1 as [|d docs [b Hb] _ [out IH]]; simpl; [by eexists|].
  rewrite Hb, IH. simpl. by eexists.
Qed.

Lemma keep_if_all_true test docs :
  Forall (fun d => test d = Returns true) docs ->
  keep_if test docs = Returns docs.
Proof.
  induction 1 as [|d docs Hd _ IH]; simpl; [done|]. by rewrite Hd, IH.
Qed.

Lemma filter_step_Returns filters key test docs out :
  filter_step filters key test docs = Returns out ->
  out = List.filter
          (fun d => match setting filters key with
                    | Some s => holds_true (test s d)
                    | None => true
                    end) docs.
Proof.
  unfold filter_step. destruct (setting filters key) as [s|].
  - by intros [-> _]%keep_if_Returns.
  - intros [= <-]. induction docs as [|d docs IH]; [done|]. simpl. by f_equal.
Qed.

Lemma filter_filter {A} (p q : A -> bool) (l : list A) :
  List.filter q (List.filter p l) = List.filter (fun a => p a && q a) l.
Proof.
  induction l as [|a l IH]; [done|]. simpl.
  destruct (p a); simpl; [|done]. destruct (q a); by rewrite IH.
Qed.

Lemma apply_filters_Returns results filters out :
  apply_filters results filters = Returns out ->
  out = List.filter (passes filters) results.
Proof.
  unfold apply_filters. intros H.
  destruct (filter_step filters "start_date" _ results) as [l1|] eqn:E1;
    [|discriminate]. apply filter_step_Returns in E1. simpl in H.
  destruct (filter_step filters "end_date" _ l1) as [l2|] eqn:E2;
    [|discriminate]. apply filter_step_Returns in E2. simpl in H.
  destruct (filter_step filters "author" _ l2) as [l3|] eqn:E3;
    [|discriminate]. apply filter_step_Returns in E3. simpl in H.
  destruct (filter_step filters "company" _ l3) as [l4|] eqn:E4;
    [|discriminate]. apply filter_step_Returns in E4. simpl in H.
  destruct (filter_step filters "product" _ l4) as [l5|] eqn:E5;
    [|discriminate]. apply filter_step_Returns in E5. simpl in H.
  apply filter_step_Returns in H.
  rewrite H, E5, E4, E3, E2, E1, !filter_filter.
  apply List.filter_ext. intros d. unfold passes, filter_tests.
  cbn [forallb]. rewrite andb_true_r, !andb_assoc. done.
Qed.

Lemma holds_true_Returns r : holds_true r = true -> r = Returns true.
Proof. by destruct r as [[]|x]. Qed.

Lemma filter_step_fixed filters key test docs :
  Forall (fun d => match setting filters key with
                   | Some s => holds_true (test s d)
                   | None => true
                   end = true) docs ->
  filter_step filters key test docs = Returns docs.
Proof.
  unfold filter_step. destruct (setting filters key) as [s|]; [|done].
  intros H. apply keep_if_all_true. eapply Forall_impl; [exact H|].
  intros d. apply holds_true_Returns.
Qed.

Lemma Forall_list_filter {A} (P : A -> Prop) (p : A -> bool) (l : list A) :
  Forall P l -> Forall P (List.filter p l).
Proof.
  induction 1 as [|a l Ha _ IH]; simpl; [constructor|].
  destruct (p a); [by constructor|done].
Qed.

Lemma filter_step_total filters key test docs :
  Forall (fun d => forall s, exists b, test s d = Returns b) docs ->
  exists out, filter_step filters key test docs = Returns out.
Proof.
  intros H. unfold filter_step. destruct (setting filters key) as [s|].
  - apply keep_if_total. eapply Forall_impl; [exact H|]. intros d Hd. apply Hd.
  - by eexists.
Qed.

Lemma get_or_string doc key :
  fields doc !! key <> Some VNone ->
  exists s, get_or doc key (VStr "") = VStr s.
Proof.
  unfold get_or. destruct (fields doc !! key) as [[|s]|]; simpl; try done;
    intros _; by eexists.
Qed.

Lemma filterable_tests doc :
  filterable doc ->
  Forall (fun '(key, test) => forall s, exists b, test s doc = Returns b)
         filter_tests.
Proof.
  unfold filterable. rewrite !Forall_cons.
  intros (Hd%get_or_string & Ha%get_or_string & Ht%get_or_string
          & Hx%get_or_string & _).
  destruct Hd as [d Hd], Ha as [a Ha], Ht as [t Ht], Hx as [x Hx].
  unfold filter_tests. repeat constructor; intros s.
  - unfold not_before. rewrite Hd. by eexists.
  - unfold not_after. rewrite Hd. by eexists.
  - unfold author_has. rewrite Ha. by eexists.
  - by eexists.
  - by eexists.
  - unfold search_has. rewrite Ht, Hx. simpl.
    destruct (contains _ _); by eexists.
Qed.

(** X21.  [_apply_filters] selects: when it returns, the result is the
    list of the documents that pass every filter that is set, in the
    order they had, and filtering the result again returns it
    unchanged.  With no filter set it returns the documents as they are,
    whatever they hold; it returns whenever the dates, authors, titles
    and texts that are present are strings. *)
Theorem apply_filters_selects
    (results : list document) (filters : gmap string value) :
  (forall out,
     apply_filters results filters = Returns out ->
     out = List.filter (passes filters) results
     /\ sublist out results
     /\ apply_filters out filters = Returns out)
  /\ ((forall key, setting filters key = None) ->
      apply_filters results filters = Returns results)
  /\ (Forall filterable results ->
      exists out, apply_filters results filters = Returns out).
Proof.
  split; [|split].
  - intros out H. apply apply_filters_Returns in H as ->.
    split; [done|]. split; [apply filter_sublist|].
    assert (Hall : Forall (fun d => passes filters d = true)
                          (List.filter (passes filters) results)).
    { apply Forall_forall. intros d Hd%list_elem_of_In.
      by apply filter_In in Hd as [_ Hd]. }
    set (out := List.filter (passes filters) results) in *. clearbody out.
    assert (Hstep : forall key test,
              (key, test) ∈ filter_tests ->
              filter_step filters key test out = Returns out).
    { intros key test Hin. apply filter_step_fixed.
      eapply Forall_impl; [exact Hall|]. intros d Hd. unfold passes in Hd.
      rewrite forallb_forall in Hd.
      by apply (Hd (key, test)), list_elem_of_In. }
    unfold apply_filters.
    rewrite (Hstep "start_date") by (unfold filter_tests; in_list). simpl.
    rewrite (Hstep "end_date") by (unfold filter_tests; in_list). simpl.
    rewrite (Hstep "author") by (unfold filter_tests; in_list). simpl.
    rewrite (Hstep "company") by (unfold filter_tests; in_list). simpl.
    rewrite (Hstep "product") by (unfold filter_tests; in_list). simpl.
    apply Hstep. unfold filter_tests. in_list.
  - intros Hnone. unfold apply_filters, filter_step. by rewrite !Hnone.
  - intros Hf.
    assert (Htests : forall key test docs,
              (key, test) ∈ filter_tests -> Forall filterable docs ->
              exists out, filter_step filters key test docs = Returns out
                          /\ Forall filterable out).
    { intros key test docs Hin Hdocs.
      destruct (filter_step_total filters key test docs) as [out Hout].
      - eapply Forall_impl; [exact Hdocs|]. intros d Hd%filterable_tests.
        rewrite Forall_forall in Hd. by apply (Hd (key, test)).
      - exists out. split; [done|]. apply filter_step_Returns in Hout as ->.
        by apply Forall_list_filter. }
    unfold apply_filters.
    destruct (Htests "start_date" not_before results) as (l1 & -> & H1);
      [unfold filter_tests; in_list|done|]. simpl.
    destruct (Htests "end_date" not_after l1) as (l2 & -> & H2);
      [unfold filter_tests; in_list|done|]. simpl.
    destruct (Htests "author" author_has l2) as (l3 & -> & H3);
      [unfold filter_tests; in_list|done|]. simpl.
    destruct (Htests "company" company_has l3) as (l4 & -> & H4);
      [unfold filter_tests; in_list|done|]. simpl.
    destruct (Htests "product" product_has l4) as (l5 & -> & H5);
      [unfold filter_tests; in_list|done|]. simpl.
    destruct (Htests "search" search_has l5) as (l6 & -> & H6);
      [unfold filter_tests; in_list|done|]. by eexists.
Qed.

End Filters.

Section Csv.

Lemma double_quotes_cons c l :
  double_quotes (c :: l)
  = (if Ascii.eqb c dquote then [dquote; dquote] else [c]) ++ double_quotes l.
Proof. reflexivity. Qed.

Lemma undouble_double_quotes l : undouble (double_quotes l) = l.
Proof.
  induction l as [|c l IH]; [done|]. rewrite double_quotes_cons.
  destruct (Ascii.eqb c dquote) eqn:E.
  - apply Ascii.eqb_eq in E as ->. cbn [app undouble].
    rewrite Ascii.eqb_refl. cbn [andb]. by rewrite IH.
  - cbn [app]. destruct l as [|b l]; [done|].
    rewrite double_quotes_cons in *. cbn [undouble].
    destruct (Ascii.eqb b dquote); cbn [app] in *; rewrite E; cbn [andb];
      by rewrite IH.
Qed.

(** X22.  A cell written by [escape_csv_value] reads back as the value:
    removing the quotes around a quoted cell and making its doubled
    quotes single gives the string that went in, and [None] and the
    empty string give the empty cell.  A cell is quoted exactly when the
    string holds a quote, a comma or a line break. *)
Theorem escape_csv_value_round_trip (v : value) :
  csv_unquote (escape_csv_value v)
  = match v with VStr s => chars s | VNone => [] end
  /\ (forall s, v = VStr s ->
      (existsb needs_quotes (chars s) = true ->
       escape_csv_value v = dquote :: double_quotes (chars s) ++ [dquote])
      /\ (existsb needs_quotes (chars s) = false ->
          escape_csv_value v = chars s)).
Proof.
  destruct v as [|s]; [split; [done|]; by intros s [=]|].
  unfold escape_csv_value. split.
  - destruct (chars s) as [|c l] eqn:Hs; [done|].
    destruct (existsb needs_quotes (c :: l)) eqn:E.
    + unfold csv_unquote. rewrite Ascii.eqb_refl, removelast_last.
      apply undouble_double_quotes.
    + unfold csv_unquote. cbn [existsb] in E.
      apply orb_false_iff in E as [E _]. unfold needs_quotes in E.
      apply orb_false_iff in E as [E _]. apply orb_false_iff in E as [E _].
      apply orb_false_iff in E as [E _]. by rewrite E.
  - intros s' [= <-]. destruct (chars s) as [|c l] eqn:Hs; [by split|].
    split; by intros ->.
Qed.

Lemma cleaned_total doc key :
  fields doc !! key <> Some VNone -> exists l, cleaned doc key = Returns l.
Proof.
  intros [s Hs]%get_or_string. unfold cleaned. rewrite Hs. by eexists.
Qed.

Lemma cell_total doc key :
  fields doc !! key <> Some VNone ->
  exists l, cell (get_or doc key (VStr "")) = Some l.
Proof.
  intros [s Hs]%get_or_string. rewrite Hs. by eexists.
Qed.

Lemma csv_line_total doc :
  exportable doc -> exists line, csv_line doc = Returns line.
Proof.
  unfold exportable. rewrite !Forall_cons.
  intros (Hd & Ht & Hf & Hn & Hu & He & Hs & _).
  unfold csv_line.
  destruct (cleaned_total doc "title" Ht) as [title ->].
  destruct (cleaned_total doc "text_excerpt" He) as [excerpt ->].
  destruct (cell_total doc "publication_date" Hd) as [c0 ->].
  destruct (cell_total doc "form" Hf) as [c2 ->].
  destruct (cell_total doc "document_number" Hn) as [c3 ->].
  destruct (cell_total doc "eurlex_url" Hu) as [c5 ->].
  destruct (cell_total doc "scraped_at" Hs) as [c9 ->].
  cbn [abind checked_cells]. by eexists.
Qed.

Lemma csv_lines_total docs :
  Forall exportable docs ->
  exists lines, csv_lines docs = Returns lines /\ length lines = length docs.
Proof.
  induction 1 as [|d docs Hd _ (lines & IH & Hlen)]; simpl; [by eexists|].
  destruct (csv_line_total d Hd) as [line ->]. rewrite IH. simpl.
  eexists. split; [done|]. simpl. by rewrite Hlen.
Qed.

Lemma csv_lines_length docs lines :
  csv_lines docs = Returns lines -> length lines = length docs.
Proof.
  revert lines. induction docs as [|d docs IH]; intros lines H; simpl in H.
  - by injection H as <-.
  - destruct (csv_line d) as [line|x]; [|discriminate]. simpl in H.
    destruct (csv_lines docs) as [rest|x]; [|discriminate].
    injection H as <-. simpl. f_equal. by apply IH.
Qed.

Lemma setting_empty key : setting ∅ key = None.
Proof. unfold setting. by rewrite lookup_empty. Qed.

Lemma passes_empty doc : passes ∅ doc = true.
Proof. unfold passes, filter_tests. cbn [forallb]. by rewrite !setting_empty. Qed.

Lemma filter_all {A} (p : A -> bool) (l : list A) :
  (forall a, p a = true) -> List.filter p l = l.
Proof.
  intros H. induction l as [|a l IH]; [done|]. simpl. by rewrite H, IH.
Qed.

(** The documents an export selects. *)
Lemma csv_text_selected docs filters body :
  csv_text docs filters = Returns body ->
  let selected := List.filter (passes (default ∅ filters)) docs in
  match selected with
  | [] => body = []
  | _ => exists lines,
           csv_lines selected = Returns lines
           /\ length lines = length selected
           /\ body = join [LF] (chars csv_header :: lines)
  end.
Proof.
  unfold csv_text. intros H.
  assert (Hsel : exists selected,
            selected = List.filter (passes (default ∅ filters)) docs
            /\ match selected with
               | [] => Returns []
               | _ => abind (csv_lines selected) (fun lines =>
                        Returns (join [LF] (chars csv_header :: lines)))
               end = Returns body).
  { destruct filters as [f|]; simpl in *.
    - destruct (size f =? 0) eqn:Hsz.
      + apply Nat.eqb_eq, map_size_empty_inv in Hsz as ->.
        exists docs. split; [|done]. symmetry. apply filter_all, passes_empty.
      + destruct (apply_filters docs f) as [out|x] eqn:Hf; [|discriminate].
        apply apply_filters_Returns in Hf as ->. by eexists.
    - exists docs. split; [|done]. symmetry. apply filter_all, passes_empty. }
  destruct Hsel as (selected & <- & Hbody). simpl.
  destruct selected as [|d rest] eqn:Hs; [by injection Hbody|].
  rewrite <- Hs in *.
  destruct (csv_lines selected) as [lines|x] eqn:Hl; [|discriminate].
  injection Hbody as <-. exists lines. split; [done|]. split; [|done].
  by apply csv_lines_length.
Qed.

(** X23.  [export_csv] never raises and only reads the store.  It returns
    the empty text, without the header, when no document is selected;
    otherwise the header and one line for each selected document, joined
    by line breaks; and when a filter or a line fails, the text
    "Error exporting data: " with the message of the exception, which it
    also logs. *)
Theorem export_csv_outcomes (filters : option (gmap string value)) (w : world) :
  let docs := stored_corpus w in
  let selected := List.filter (passes (default ∅ filters)) docs in
  exists text w',
    export_csv filters w = (Ok text, w')
    /\ same_store w w'
    /\ ((exists x,
           csv_text docs filters = Fails x
           /\ text = "Error exporting data: " +:+ failure_msg x
           /\ (ERROR, "Error exporting CSV: " +:+ failure_msg x) ∈ log w')
        \/ (selected = [] /\ text = "")
        \/ (exists lines,
              selected <> []
              /\ csv_lines selected = Returns lines
              /\ length lines = length selected
              /\ text = str (join [LF] (chars csv_header :: lines)))).
Proof.
  intros docs selected. unfold export_csv, bind.
  destruct (load_results_frame w) as (w1 & -> & (Hs1 & _)). fold docs.
  destruct (csv_text docs filters) as [body|x] eqn:Hbody.
  - exists (str body), w1. split; [done|]. split; [done|]. right.
    apply csv_text_selected in Hbody. fold selected in Hbody.
    destruct selected as [|d rest] eqn:Hsel.
    + left. by rewrite Hbody.
    + right. destruct Hbody as (lines & Hl & Hlen & ->).
      exists lines. by repeat split.
  - eexists _, _. split; [done|].
    split; [eapply same_store_trans; [exact Hs1|apply same_store_logger]|].
    left. exists x. split; [done|]. split; [done|]. by left.
Qed.

(** X24.  What a run stores can be exported.  A document that
    [_enrich_documents] produced from a record whose text entries, date,
    type, number and address are strings where present has every entry
    of a CSV line as a string, so [export_csv] builds its line; a list of
    such documents gives one line each. *)
Theorem enriched_documents_are_exportable
    (self : matcher) (stamp : string) (doc doc' : document) :
  enriched_at self stamp doc doc' ->
  text_entries_are_strings doc ->
  Forall (fun k => fields doc !! k <> Some VNone)
         ["DD"; "FM"; "DN"; "eurlex_url"] ->
  exportable doc'
  /\ (exists line, csv_line doc' = Returns line)
  /\ (forall docs, Forall exportable docs ->
      exists lines, csv_lines docs = Returns lines
                    /\ length lines = length docs).
Proof.
  unfold enriched_at. intros (Hstamp & Hcanon & Hurl & Hrest) Htext Hraw.
  clear Hrest.
  assert (Hex : exportable doc').
  { unfold text_entries_are_strings, searchable_keys in Htext.
    rewrite !Forall_cons in Htext. rewrite !Forall_cons in Hraw.
    destruct Htext as (Hti & Htx & Hsu & Hau & Hte & _).
    destruct Hraw as (Hdd & Hfm & Hdn & Heu & _).
    unfold canonical_keys in Hcanon. rewrite !Forall_cons in Hcanon.
    destruct Hcanon as (Cdn & Cti & Cdd & Cau & Cfm & Csu & Ctx & Cte & Coj & _).
    assert (Hstr : forall key raw,
              get doc' key = get_or doc raw (VStr "") ->
              fields doc !! raw <> Some VNone ->
              fields doc' !! key <> Some VNone).
    { intros key raw Hget [s Hs]%get_or_string Hnone.
      rewrite Hs in Hget. unfold get, get_or in Hget.
      by rewrite Hnone in Hget. }
    unfold exportable. repeat constructor.
    - by apply (Hstr _ "DD").
    - by apply (Hstr _ "TI").
    - by apply (Hstr _ "FM").
    - by apply (Hstr _ "DN").
    - rewrite Hurl. destruct (truthy (get doc "DN")) eqn:Hn; [|done].
      apply truthy_VStr in Hn as (x & -> & _). done.
    - by apply (Hstr _ "TE").
    - intros Hnone. unfold get, get_or in Hstamp. by rewrite Hnone in Hstamp. }
  split; [done|]. split; [by apply csv_line_total|]. apply csv_lines_total.
Qed.

End Csv.

(* ===================================================================== *)
(** ** The web client *)
(* ===================================================================== *)

Section Pages.

Import WebClient.

Lemma page_query_again search_params i j :
  page_query (page_query search_params i) j = page_query search_params j.
Proof. unfold page_query. apply insert_insert_eq. Qed.

Lemma search_pages_params fetch search_params i page_num count :
  search_pages fetch (page_query search_params i) page_num count
  = search_pages fetch search_params page_num count.
Proof.
  destruct count as [|count]; [done|].
  cbn [search_pages]. fold (page_query (page_query search_params i) page_num).
  fold (page_query search_params page_num). by rewrite page_query_again.
Qed.

Lemma search_pages_spec fetch search_params count : forall page_num,
  let '(docs, events) := search_pages fetch search_params page_num count in
  exists k,
    k <= count
    /\ Forall (fun i => page_documents fetch search_params i <> [])
              (seq page_num k)
    /\ (k < count -> page_documents fetch search_params (page_num + k) = [])
    /\ docs = flat_map (page_documents fetch search_params) (seq page_num k)
    /\ events
       = flat_map (fun i => [Get (page_query search_params i); Sleep])
                  (seq page_num k)
         ++ (if k <? count
             then [Get (page_query search_params (page_num + k))]
             else []).
Proof.
  induction count as [|count IH]; intros page_num.
  - exists 0. simpl. repeat split; try done. lia.
  - cbn [search_pages]. fold (page_query search_params page_num).
    rewrite search_pages_params. specialize (IH (S page_num)).
    destruct (fetch (page_query search_params page_num))
      as [[|d ds]|x] eqn:Hf.
    + exists 0. rewrite Nat.add_0_r. unfold page_documents. rewrite Hf.
      simpl. repeat split; try done. lia.
    + destruct (search_pages fetch search_params (S page_num) count)
        as [more events].
      destruct IH as (k & Hk & Hall & Hstop & -> & ->).
      exists (S k). split; [lia|]. cbn [seq flat_map].
      assert (Hpage : page_documents fetch search_params page_num = d :: ds).
      { unfold page_documents. by rewrite Hf. }
      split; [constructor; [by rewrite Hpage|done]|].
      split.
      { intros Hlt. replace (page_num + S k) with (S page_num + k) by lia.
        apply Hstop. lia. }
      rewrite Hpage. split; [done|].
      replace (page_num + S k) with (S page_num + k) by lia.
      replace (S k <? S count) with (k <? count) by done. done.
    + exists 0. rewrite Nat.add_0_r. unfold page_documents. rewrite Hf.
      simpl. repeat split; try done. lia.
Qed.

(** X25.  [search_documents] never raises and asks for the pages
    1, 2, ... in turn, at most [max_pages] of them.  It stops at the
    first page that is empty or whose request fails, as if that page
    were the end of the results, and returns the documents of the pages
    before it, in order; it sleeps once after each page that had
    documents. *)
Theorem search_documents_pages
    (fetch : gmap string string -> result (list document))
    (search_params : gmap string string) (max_pages : nat) :
  let '(docs, events) := search_documents fetch search_params max_pages in
  exists k,
    k <= max_pages
    /\ Forall (fun i => page_documents fetch search_params i <> []) (seq 1 k)
    /\ (k < max_pages -> page_documents fetch search_params (S k) = [])
    /\ docs = flat_map (page_documents fetch search_params) (seq 1 k)
    /\ events
       = flat_map (fun i => [Get (page_query search_params i); Sleep])
                  (seq 1 k)
         ++ (if k <? max_pages
             then [Get (page_query search_params (S k))]
             else []).
Proof.
  unfold search_documents.
  pose proof (search_pages_spec fetch search_params max_pages 1) as H.
  destruct (search_pages fetch search_params 1 max_pages) as [docs events].
  destruct H as (k & H1 & H2 & H3 & H4 & H5). exists k. done.
Qed.

(** X26.  The search of the web client depends on the window only through
    one year: that of [date_from] when it is 2024 or later, else the
    current one.  [date_to], and the month and the day of [date_from],
    do not reach the query, which always asks for the text "Morocco". *)
Theorem web_search_reads_year_only
    (fetch : gmap string string -> result (list document))
    (today : date) (qid : string) (date_from date_to : date)
    (max_pages : nat) :
  let query := build_trade_regulation_search today qid date_from date_to 1 20 in
  query !! "whOJ" = Some ("YEAR_OJ_OLD=" +:+ pretty (search_year today date_from))
  /\ query !! "whOJAba"
     = Some ("YEAR_OJ_ABA=" +:+ pretty (search_year today date_from))
  /\ query !! "andText0" = Some "Morocco"
  /\ query !! "qid" = Some qid
  /\ forall date_from' date_to',
       search_year today date_from' = search_year today date_from ->
       search_trade_regulations fetch today qid date_from' date_to' max_pages
       = search_trade_regulations fetch today qid date_from date_to max_pages.
Proof.
  unfold build_trade_regulation_search, search_trade_regulations,
    build_trade_regulation_search.
  fold (search_year today date_from). cbn [Nat.ltb Nat.leb].
  split; [by rewrite !lookup_insert_ne, lookup_insert_eq by done|].
  split; [by rewrite !lookup_insert_ne, lookup_insert_eq by done|].
  split; [by rewrite lookup_insert_eq|].
  split; [by rewrite !lookup_insert_ne, lookup_insert_eq by done|].
  intros date_from' date_to' Hyear. fold (search_year today date_from').
  by rewrite Hyear.
Qed.

End Pages.

(* ===================================================================== *)
(** ** The further statements at sample inputs *)
(* ===================================================================== *)

Section MoreSamples.

Import Samples.

Lemma find_keyword_matches_ignores_case_and_padding_witness :
  forallb is_space (chars "  ") = true
  /\ forallb is_space (chars " ") = true
  /\ lower (chars "ocp IN morocco") = lower (chars "OCP in Morocco")
  /\ find_keyword_matches (chars "  " ++ chars "ocp IN morocco" ++ chars " ")
                          (place_company_group configured)
     = find_keyword_matches (chars "OCP in Morocco")
                            (place_company_group configured).
Proof.
  assert (H1 : forallb is_space (chars "  ") = true)
    by (vm_compute; reflexivity).
  assert (H2 : forallb is_space (chars " ") = true)
    by (vm_compute; reflexivity).
  assert (H3 : lower (chars "ocp IN morocco") = lower (chars "OCP in Morocco"))
    by (vm_compute; reflexivity).
  split; [exact H1|]. split; [exact H2|]. split; [exact H3|].
  exact (find_keyword_matches_ignores_case_and_padding
           (chars "OCP in Morocco") (chars "ocp IN morocco")
           (chars "  ") (chars " ") (place_company_group configured)
           H1 H2 H3).
Defined.

Lemma reported_keyword_is_mentioned_witness :
  "Morocco" ∈ find_keyword_matches phosphate_text (place_company_group configured)
  /\ mentions phosphate_text "Morocco" = true.
Proof.
  assert (H : "Morocco" ∈ find_keyword_matches phosphate_text
                            (place_company_group configured)).
  { apply find_keyword_matches_iff. split; [by left|].
    vm_compute. reflexivity. }
  split; [exact H|].
  apply (reported_keyword_is_mentioned phosphate_text
           (place_company_group configured) "Morocco");
    [vm_compute; reflexivity|exact H].
Defined.

Lemma is_match_details_consistent_witness :
  exists matched d,
    is_match configured phosphate_record = Ok (matched, d)
    /\ total_groups d = 3
    /\ (matched = true -> 2 <= groups_matched d <= 3).
Proof.
  assert (Hok : is_ok (is_match configured phosphate_record) = true)
    by (vm_compute; reflexivity).
  destruct (is_match configured phosphate_record) as [[matched d]|x] eqn:E;
    [|discriminate Hok].
  exists matched, d. split; [reflexivity|].
  destruct (is_match_details_consistent configured phosphate_record matched d E)
    as (H1 & _ & _ & _ & _ & _ & _ & _ & H2 & _).
  split; [exact H1|exact H2].
Defined.

Lemma extract_matching_snippets_shape_witness :
  exists snippet keyword body,
    snippet ∈ extract_matching_snippets phosphate_text ["Morocco"]
    /\ keyword ∈ ["Morocco"]
    /\ snippet = str (ellipsis ++ body ++ ellipsis)
    /\ factor body phosphate_text.
Proof.
  assert (Hne : nonempty (extract_matching_snippets phosphate_text ["Morocco"])
                = true) by (vm_compute; reflexivity).
  destruct (extract_matching_snippets phosphate_text ["Morocco"])
    as [|snippet rest] eqn:E; [discriminate Hne|].
  assert (Hin : snippet ∈ extract_matching_snippets phosphate_text ["Morocco"]).
  { rewrite E. by left. }
  destruct (extract_matching_snippets_shape phosphate_text ["Morocco"] snippet Hin)
    as (keyword & body & Hk & Hs & _ & Hf & _).
  exists snippet, keyword, body. rewrite <- E.
  split; [exact Hin|]. split; [exact Hk|]. split; [exact Hs|exact Hf].
Defined.

Lemma deduplicate_documents_same_batch_adds_nothing_witness :
  Forall identifiable [stored_b; unnumbered_a]
  /\ deduplicate_documents
       (stable_sort_newest_first
          ([stored_a]
           ++ deduplicate_documents [stored_a] [stored_b; unnumbered_a]))
       [stored_b; unnumbered_a]
     = [].
Proof.
  assert (Hid : Forall identifiable [stored_b; unnumbered_a]).
  { constructor; [left; vm_compute; reflexivity|].
    constructor; [right; vm_compute; reflexivity|constructor]. }
  split; [exact Hid|].
  apply (deduplicate_documents_same_batch_adds_nothing [stored_a]);
    [exact Hid|apply stable_sort_newest_first_perm].
Defined.

Lemma enrich_documents_canonical_witness :
  exists out w',
    enrich_documents busy_env configured [gateway_record] fresh_world
    = (Ok out, w')
    /\ length out = 1
    /\ ticks w' = 1.
Proof.
  assert (Hok : is_ok (fst (enrich_documents busy_env configured
                              [gateway_record] fresh_world)) = true)
    by (vm_compute; reflexivity).
  destruct (enrich_documents busy_env configured [gateway_record] fresh_world)
    as [[out|x] w'] eqn:E; [|discriminate Hok].
  exists out, w'. split; [reflexivity|].
  destruct (enrich_documents_canonical busy_env configured [gateway_record]
              out fresh_world w' E) as (H1 & H2 & _).
  split; [exact H1|exact H2].
Defined.

Lemma enrich_documents_after_filter_witness :
  exists matched enriched w',
    filter_documents configured [gateway_record] = Ok matched
    /\ enrich_documents busy_env configured matched fresh_world
       = (Ok enriched, w')
    /\ length enriched = length matched.
Proof.
  assert (Hok : is_ok (filter_documents configured [gateway_record]) = true)
    by (vm_compute; reflexivity).
  destruct (filter_documents configured [gateway_record])
    as [matched|x] eqn:E; [|discriminate Hok].
  destruct (enrich_documents_after_filter busy_env configured [gateway_record]
              matched fresh_world E) as (_ & enriched & w' & H1 & H2).
  exists matched, enriched, w'. split; [reflexivity|].
  split; [exact H1|exact H2].
Defined.

Lemma written_watermark_plans_next_day_witness :
  well_formed june_10
  /\ strptime (isoformat june_10) = Some june_10
  /\ exists next,
       fst (plan_window quiet_env false false
              (world_with_watermark "2024-06-10"))
       = Ok (next, today quiet_env)
       /\ toordinal next = (toordinal june_10 + 1)%Z.
Proof.
  assert (Hwf : well_formed june_10) by (vm_compute; reflexivity).
  assert (Hne : june_10 <> Date 9999 12 31) by discriminate.
  destruct (written_watermark_plans_next_day quiet_env
              (world_with_watermark "2024-06-10") june_10 Hwf Hne)
    as (H1 & H2).
  split; [exact Hwf|]. split; [exact H1|].
  destruct (H2 eq_refl) as (next & Hp & Ho & _).
  exists next. split; [exact Hp|exact Ho].
Defined.

Lemma forced_run_searches_current_year_witness :
  well_formed (today busy_env)
  /\ gateway_calls (snd (scrape busy_env configured true true
                           (world_with_watermark "2024-06-10")))
     = [(Date 2024 1 1, june_10, 10)].
Proof.
  assert (Hwf : well_formed (today busy_env)) by (vm_compute; reflexivity).
  split; [exact Hwf|].
  pose proof (forced_run_searches_current_year busy_env configured true
                (world_with_watermark "2024-06-10") Hwf) as H.
  destruct (scrape busy_env configured true true
              (world_with_watermark "2024-06-10")) as [rep w'].
  destruct H as (H & _). exact H.
Defined.

Lemma second_run_same_day_is_idle_witness :
  status_of (fst (scrape busy_env configured false false fresh_world))
    <> error
  /\ status_of
       (fst (scrape busy_env configured false false
               (snd (scrape busy_env configured false false fresh_world))))
     = up_to_date.
Proof.
  assert (Hwf : well_formed (today busy_env)) by (vm_compute; reflexivity).
  assert (Hne : today busy_env <> Date 9999 12 31) by discriminate.
  assert (H1 : status_of (fst (scrape busy_env configured false false
                                 fresh_world)) <> error)
    by (vm_compute; discriminate).
  split; [exact H1|].
  pose proof (second_run_same_day_is_idle busy_env configured false false
                fresh_world Hwf Hne eq_refl) as H.
  destruct (scrape busy_env configured false false fresh_world)
    as [rep1 w1].
  specialize (H H1). cbn [snd].
  destruct (scrape busy_env configured false false w1) as [rep2 w2].
  destruct H as (H & _). exact H.
Defined.

Lemma scrape_success_counts_witness :
  status_of (fst (scrape busy_env configured false false fresh_world))
    = success
  /\ exists n_new n_matched n_raw,
       new_documents (fst (scrape busy_env configured false false fresh_world))
       = Some n_new
       /\ n_new <= n_matched <= n_raw.
Proof.
  assert (Hstatus : status_of (fst (scrape busy_env configured false false
                                      fresh_world)) = success)
    by (vm_compute; reflexivity).
  split; [exact Hstatus|].
  pose proof (scrape_success_counts busy_env configured false false
                fresh_world) as H.
  destruct (scrape busy_env configured false false fresh_world) as [rep w'].
  destruct (H Hstatus) as (n_new & n_matched & n_raw & H1 & _ & _ & H2 & _).
  exists n_new, n_matched, n_raw. split; [exact H1|exact H2].
Defined.

Lemma enriched_documents_are_exportable_witness :
  exists doc' w',
    enrich_document busy_env configured gateway_record fresh_world
    = (Ok doc', w')
    /\ exportable doc'
    /\ exists line, csv_line doc' = Returns line.
Proof.
  assert (Hok : is_ok (fst (enrich_document busy_env configured
                              gateway_record fresh_world)) = true)
    by (vm_compute; reflexivity).
  destruct (enrich_document busy_env configured gateway_record fresh_world)
    as [[doc'|x] w'] eqn:E; [|discriminate Hok].
  exists doc', w'. split; [reflexivity|].
  destruct (enrich_document_spec _ _ _ _ _ _ E) as [_ Hen].
  assert (Htext : text_entries_are_strings gateway_record).
  { repeat constructor; vm_compute; discriminate. }
  assert (Hraw : Forall (fun k => fields gateway_record !! k <> Some VNone)
                        ["DD"; "FM"; "DN"; "eurlex_url"]).
  { repeat constructor; vm_compute; discriminate. }
  destruct (enriched_documents_are_exportable configured _ _ _ Hen Htext Hraw)
    as (H1 & H2 & _).
  split; [exact H1|exact H2].
Defined.

Lemma extract_entities_lists_mentions_witness :
  exists found_companies found_products,
    extract_entities configured phosphate_record
    = Ok (found_companies, found_products)
    /\ ("Morocco" ∉ found_companies)
    /\ ("Moroccan" ∉ found_companies).
Proof.
  assert (Hok : is_ok (extract_entities configured phosphate_record) = true)
    by (vm_compute; reflexivity).
  destruct (extract_entities configured phosphate_record)
    as [[found_companies found_products]|x] eqn:E; [|discriminate Hok].
  exists found_companies, found_products. split; [reflexivity|].
  destruct (extract_entities_lists_mentions configured phosphate_record
              found_companies found_products E) as (H1 & H2 & _).
  split; [exact H1|exact H2].
Defined.

Lemma initialize_data_files_keeps_data_witness :
  fst (initialize_data_files new_directory_world) = Ok tt
  /\ results_file (snd (initialize_data_files new_directory_world)) = Stored []
  /\ stored_corpus (snd (initialize_data_files new_directory_world))
     = stored_corpus new_directory_world.
Proof.
  assert (Hr : fst (initialize_data_files new_directory_world) = Ok tt)
    by reflexivity.
  split; [exact Hr|].
  pose proof (initialize_data_files_keeps_data new_directory_world) as H.
  destruct (initialize_data_files new_directory_world) as [r w'].
  destruct (H Hr) as (Hc & _ & _ & _ & _ & Hnew & _).
  split; [exact (Hnew eq_refl eq_refl)|exact Hc].
Defined.

Lemma clean_duplicates_leaves_clean_corpus_witness :
  fst (Cli.main_clean_duplicates world_with_duplicates)
    = Ok (Cli.Cleaned 2 1)
  /\ stored_corpus (snd (Cli.main_clean_duplicates world_with_duplicates))
     = clean_existing_duplicates (stored_corpus world_with_duplicates)
  /\ state_file (snd (Cli.main_clean_duplicates world_with_duplicates))
     = state_file world_with_duplicates.
Proof.
  assert (Hr : fst (Cli.main_clean_duplicates world_with_duplicates)
               = Ok (Cli.Cleaned 2 1))
    by (vm_compute; reflexivity).
  split; [exact Hr|].
  pose proof (clean_duplicates_leaves_clean_corpus world_with_duplicates) as H.
  destruct (Cli.main_clean_duplicates world_with_duplicates) as [r w'].
  destruct (H _ Hr) as (Hstate & _ & _ & _ & _ & _ & Hclean).
  split; [exact (proj1 (Hclean eq_refl))|].
  apply Hstate. discriminate.
Defined.

End MoreSamples.
